(** * Dallas PD active-calls map: consolidation, filtering and view sync

    A shallow embedding of the browser scripts of the repository:
    - [App]: [src/public/app.js], the incident-level dashboard
      (consolidation, division + search filter, marker layer, list,
      statistics, polling and manual refresh);
    - [Legacy]: [src/unnamed/part_000], the row-level script with the
      same page elements and its own polling and refresh routines.

    Conventions of the model.
    - A property read from a JSON object is [Undefined] (key absent),
      [Null] or a value; string-valued properties are [text],
      coordinates are [coord].
    - Strings are [string]; what the scripts do to them themselves
      (concatenation, [join], strict equality, [includes], the
      one-character replacements of [escapeHtml]) is defined on them.
    - What a routine takes from the platform and the repository does not
      define is a field of [Browser]: the string methods that follow the
      Unicode tables ([toLowerCase], [trim]), the HTML parser behind
      the assignment to [innerHTML] in [syncDivisions], and the Leaflet
      call whose failure the page reports ([fitBounds]).  A statement
      that involves them is proved for every browser; the examples run
      in a sample browser.
    - A call that throws ends its block: [fetchCalls_body] returns a
      [Completion], and [tryCatch] runs the [catch] block on the state
      reached so far.
    - A JS [Map] is an association list in insertion order, because
      [Map.prototype.values] iterates in that order.
    - Every Leaflet layer object carries the identity it was allocated
      with, so that two markers built from equal data are still two
      markers.
    - An [async] function is cut at its [await]s; each piece is a state
      transformer, run by the event of the event loop that resumes it, so
      the states between two pieces are the ones other handlers can see.
    - The clock and the locale are not modelled: the relative time of a
      call and the formatted timestamps are left out of the views. *)

From Stdlib Require Import List String Ascii Bool Arith ZArith QArith Lia.
From Stdlib Require Import Permutation Sorted.
Import ListNotations.

Local Open Scope string_scope.
Local Open Scope list_scope.

(* ===================================================================== *)
(** ** JavaScript values                                                  *)
(* ===================================================================== *)

Module Js.

(** A property of a parsed JSON object. *)
Inductive prop (A : Type) : Type :=
| Undefined : prop A
| Null : prop A
| Val : A -> prop A.
Arguments Undefined {A}.
Arguments Null {A}.
Arguments Val {A} _.

(** A JS number: a finite value, an infinity or NaN. *)
Inductive number : Type :=
| Fin (q : Q)
| Inf (negative : bool)
| NaN.

Definition text := prop string.
Definition coord := prop number.

Definition Str (s : string) : text := Val s.
Definition Num (q : Q) : coord := Val (Fin q).

(** [x != null]: false exactly on [undefined] and [null]. *)
Definition notNullish {A} (x : prop A) : bool :=
  match x with
  | Undefined | Null => false
  | Val _ => true
  end.

(** ToBoolean on a number: [0], [-0] and [NaN] are falsy. *)
Definition truthyNumber (n : number) : bool :=
  match n with
  | Fin q => negb (Z.eqb (Qnum q) 0)
  | Inf _ => true
  | NaN => false
  end.

Definition isEmpty (s : string) : bool :=
  match s with
  | EmptyString => true
  | String _ _ => false
  end.

(** ToBoolean on a string: only the empty string is falsy. *)
Definition truthyString (s : string) : bool := negb (isEmpty s).

Definition truthyText (x : text) : bool :=
  match x with
  | Val s => truthyString s
  | _ => false
  end.

Definition truthyCoord (x : coord) : bool :=
  match x with
  | Val n => truthyNumber n
  | _ => false
  end.

(** [Number.isFinite(x)]. *)
Definition isFiniteCoord (x : coord) : bool :=
  match x with
  | Val (Fin _) => true
  | _ => false
  end.

(** [x || d] for a string-valued property and a string default. *)
Definition orString (x : text) (d : string) : string :=
  match x with
  | Val s => if truthyString s then s else d
  | _ => d
  end.

(** [x || y] for two properties. *)
Definition orText (x y : text) : text :=
  if truthyText x then x else y.

(** Strict equality [===] (also SameValueZero) on string properties. *)
Definition text_eqb (x y : text) : bool :=
  match x, y with
  | Undefined, Undefined => true
  | Null, Null => true
  | Val s, Val t => String.eqb s t
  | _, _ => false
  end.

(** *** String methods *)

Fixpoint startsWith (s p : string) : bool :=
  match p, s with
  | EmptyString, _ => true
  | String _ _, EmptyString => false
  | String b p', String a s' => Ascii.eqb a b && startsWith s' p'
  end.

(** [s.includes(p)]: [p] occurs in [s] at some position. *)
Fixpoint includes (s p : string) : bool :=
  startsWith s p ||
  match s with
  | EmptyString => false
  | String _ s' => includes s' p
  end.

(** [arr.join(sep)] on an array of strings. *)
Fixpoint join (sep : string) (l : list string) : string :=
  match l with
  | [] => EmptyString
  | [s] => s
  | s :: r => s ++ sep ++ join sep r
  end.

(** [arr.includes(x)] on an array of strings. *)
Definition arrayIncludes (l : list string) (x : string) : bool :=
  existsb (String.eqb x) l.

(** [new Set(xs)]: the distinct values in first-insertion order. *)
Definition setOfStrings (xs : list string) : list string :=
  fold_left (fun acc x => if arrayIncludes acc x then acc else acc ++ [x])
            xs [].

Fixpoint insertSorted (x : string) (l : list string) : list string :=
  match l with
  | [] => [x]
  | y :: r => if String.leb x y then x :: l else y :: insertSorted x r
  end.

(** [Array.prototype.sort()] on strings, by code unit. *)
Definition sortStrings (l : list string) : list string :=
  fold_right insertSorted [] l.

(** *** [Map] with insertion order *)

Section JsMap.
Context {V : Type}.

Definition JsMap := list (text * V).

Fixpoint mapGet (k : text) (m : JsMap) : option V :=
  match m with
  | [] => None
  | (k', v) :: r => if text_eqb k' k then Some v else mapGet k r
  end.

Definition mapHas (k : text) (m : JsMap) : bool :=
  match mapGet k m with
  | Some _ => true
  | None => false
  end.

(** [m.set(k, v)]: an existing key keeps its position, a new key goes
    last. *)
Fixpoint mapSet (k : text) (v : V) (m : JsMap) : JsMap :=
  match m with
  | [] => [(k, v)]
  | (k', v') :: r =>
      if text_eqb k' k then (k', v) :: r else (k', v') :: mapSet k v r
  end.

(** An in-place update of the object stored under [k]. *)
Fixpoint mapModify (k : text) (f : V -> V) (m : JsMap) : JsMap :=
  match m with
  | [] => []
  | (k', v) :: r =>
      if text_eqb k' k then (k', f v) :: r else (k', v) :: mapModify k f r
  end.

Definition mapKeys (m : JsMap) : list text := map fst m.
Definition mapValues (m : JsMap) : list V := map snd m.
End JsMap.
Arguments JsMap : clear implicits.

(** *** Property lookup on an object literal *)

(** The value of [TABLE[p] || TABLE.default] for a table of colour
    strings written as an object literal: a colour string of the table
    or, when [p] names a member that every object inherits from
    [Object.prototype], that member (a function, or the prototype
    itself for [__proto__]), which is truthy. *)
Inductive Colour : Type :=
| Hex (code : string)
| Inherited (member : string).

(** The members of [Object.prototype]. *)
Definition objectPrototypeMembers : list string :=
  ["constructor"; "hasOwnProperty"; "isPrototypeOf"; "propertyIsEnumerable";
   "toLocaleString"; "toString"; "valueOf"; "__proto__";
   "__defineGetter__"; "__defineSetter__"; "__lookupGetter__";
   "__lookupSetter__"].

(** *** The platform *)

(** What the scripts call and the repository does not define.
    - [toLowerCase s] and [trim s] are [s.toLowerCase()] and [s.trim()];
      they follow the Unicode tables of the platform.
    - [parsedOptions ds] is the list of the values of the [<option>]
      elements that exist once [syncDivisions] has assigned its markup
      for the divisions [ds] to [innerHTML], and [parsedSelection ds] is
      the value the control then has.  The markup interpolates the
      divisions unescaped, so the parser decides both.
    - [fitBoundsThrows points] tells whether building the feature group
      of markers at [points] and fitting the map to its bounds throws. *)
Class Browser : Type := {
  toLowerCase : string -> string;
  trim : string -> string;
  parsedOptions : list string -> list string;
  parsedSelection : list string -> string;
  fitBoundsThrows : list (coord * coord) -> bool
}.

(** *** String methods on ASCII text *)

(** On a text made of ASCII characters [toLowerCase] folds the letters
    A..Z and [trim] removes TAB, LF, VT, FF, CR and SPACE at both ends.
    These two functions serve the sample browser of the examples. *)
Definition isUpper (c : ascii) : bool :=
  let n := nat_of_ascii c in ((65 <=? n) && (n <=? 90))%nat.

Definition lowerChar (c : ascii) : ascii :=
  if isUpper c then ascii_of_nat (nat_of_ascii c + 32)%nat else c.

Fixpoint asciiToLowerCase (s : string) : string :=
  match s with
  | EmptyString => EmptyString
  | String c r => String (lowerChar c) (asciiToLowerCase r)
  end.

Definition isSpace (c : ascii) : bool :=
  let n := nat_of_ascii c in (((9 <=? n) && (n <=? 13)) || (n =? 32))%nat.

Fixpoint trimStart (s : string) : string :=
  match s with
  | EmptyString => EmptyString
  | String c r => if isSpace c then trimStart r else s
  end.

(** Drops the trailing white space: a character is kept when it is
    not a space or something is kept after it. *)
Fixpoint trimEnd (s : string) : string :=
  match s with
  | EmptyString => EmptyString
  | String c r =>
      let r' := trimEnd r in
      if isSpace c && isEmpty r' then EmptyString else String c r'
  end.

Definition asciiTrim (s : string) : string := trimEnd (trimStart s).

End Js.
Import Js.

(* ===================================================================== *)
(** ** Data model                                                         *)
(* ===================================================================== *)

Module Model.

(** One backend record: one reporting unit of one incident. *)
Record CallRow : Type := mkRow {
  incidentNumber : text;
  natureOfCall : text;
  division : text;
  beat : text;
  unitNumber : text;
  status : text;
  address : text;
  location : text;
  priority : text;
  date : text;
  time : text;
  lat : coord;
  lon : coord
}.

(** The object [{...row, units: [], unitCount: 0}]: the row's own
    properties, then the two added ones. *)
Record Incident : Type := mkIncident {
  base :> CallRow;
  units : list string;
  unitCount : Z
}.

(** The envelope of [GET /api/calls]. *)
Record Snapshot : Type := mkSnapshot {
  calls : option (list CallRow);
  totalCalls : option Z;
  mappedCalls : option Z;
  unmappedCalls : option Z;
  updatedAt : text;
  geocodeAttemptsThisRun : option Z;
  error : text
}.


(** The outcome of [fetch(url)] followed by [res.json()]: the request
    rejects, or a response with a status arrives whose body parses to a
    snapshot ([Some]) or makes [res.json()] reject ([None]). *)
Inductive Response : Type :=
| NetworkError (message : string)
| Http (statusCode : Z) (body : option Snapshot).

(** [response.ok]: the status is in the range 200..299. *)
Definition responseOk (statusCode : Z) : bool :=
  (200 <=? statusCode)%Z && (statusCode <=? 299)%Z.

End Model.
Import Model.

(* ===================================================================== *)
(** ** src/public/app.js                                                  *)
(* ===================================================================== *)

Module App.

(** *** Page elements, Leaflet objects and globals *)

(** A circle marker: the identity of the layer object, the position and
    style it was created with, and the incident its popup was rendered
    from (the popup HTML is a function of that incident alone). *)
Record Marker : Type := mkMarker {
  markerId : nat;
  markerLat : coord;
  markerLon : coord;
  radius : Z;
  fillColor : Colour;
  popupOf : Incident
}.

Inductive UnitText : Type :=
| UnitSingle (u : string)      (* Unit <u> *)
| UnitPlural (n : Z).          (* <n> Units *)

(** One [<li class="call-item">] of the list; the relative time of the
    call depends on the clock and is left out. *)
Record ListItem : Type := mkItem {
  itemFocus : string;          (* argument of the onclick handler *)
  itemPriority : string;
  itemNature : text;
  itemMapped : bool;           (* the "Mapped" icon, else "Not Mapped" *)
  itemLoc : string;
  itemIncident : text;
  itemUnits : UnitText
}.

Inductive ListView : Type :=
| NoMatch                      (* "No incidents match your filter" *)
| Items (items : list ListItem).

Record Elements : Type := mkElements {
  totalCallsEl : Z;
  mappedCallsEl : Z;
  unmappedCallsEl : Z;
  lastUpdated : text;          (* the timestamp the label is formatted from *)
  statusLine : string;
  statusColor : string;
  callList : ListView;
  listCount : Z;
  refreshDisabled : bool;
  refreshSpinning : bool;
  divisionOptions : list string;
  divisionValue : string;
  searchValue : string
}.

(** What the page did to the map view and to the user. *)
Record Effects : Type := mkEffects {
  fitBoundsLog : list (list (coord * coord));
  flyToLog : list (coord * coord);
  openedPopups : list nat;
  alerts : list string;
  consoleErrors : nat;
  timeouts : list Z            (* pending setTimeout(fetchCalls, ms) *)
}.

Record State : Type := mkState {
  allCallsRaw : list CallRow;
  consolidatedCalls : list Incident;
  markerLayer : list Marker;
  markersByIncident : JsMap Marker;
  firstLoad : bool;
  nextLayerId : nat;
  el : Elements;
  fx : Effects
}.

Definition withEl (f : Elements -> Elements) (st : State) : State :=
  mkState (allCallsRaw st) (consolidatedCalls st) (markerLayer st)
          (markersByIncident st) (firstLoad st) (nextLayerId st)
          (f (el st)) (fx st).

Definition withFx (f : Effects -> Effects) (st : State) : State :=
  mkState (allCallsRaw st) (consolidatedCalls st) (markerLayer st)
          (markersByIncident st) (firstLoad st) (nextLayerId st)
          (el st) (f (fx st)).

Definition setStatus (txt color : string) (e : Elements) : Elements :=
  mkElements (totalCallsEl e) (mappedCallsEl e) (unmappedCallsEl e)
             (lastUpdated e) txt color (callList e) (listCount e)
             (refreshDisabled e) (refreshSpinning e) (divisionOptions e)
             (divisionValue e) (searchValue e).

Definition setStatusText (txt : string) (e : Elements) : Elements :=
  setStatus txt (statusColor e) e.

Definition setCounts (total mapped unmapped : Z) (upd : text)
  (e : Elements) : Elements :=
  mkElements total mapped unmapped upd (statusLine e) (statusColor e)
             (callList e) (listCount e) (refreshDisabled e)
             (refreshSpinning e) (divisionOptions e) (divisionValue e)
             (searchValue e).

Definition setList (n : Z) (v : ListView) (e : Elements) : Elements :=
  mkElements (totalCallsEl e) (mappedCallsEl e) (unmappedCallsEl e)
             (lastUpdated e) (statusLine e) (statusColor e) v n
             (refreshDisabled e) (refreshSpinning e) (divisionOptions e)
             (divisionValue e) (searchValue e).

Definition setDisabled (b : bool) (e : Elements) : Elements :=
  mkElements (totalCallsEl e) (mappedCallsEl e) (unmappedCallsEl e)
             (lastUpdated e) (statusLine e) (statusColor e) (callList e)
             (listCount e) b (refreshSpinning e) (divisionOptions e)
             (divisionValue e) (searchValue e).

Definition setSpinning (b : bool) (e : Elements) : Elements :=
  mkElements (totalCallsEl e) (mappedCallsEl e) (unmappedCallsEl e)
             (lastUpdated e) (statusLine e) (statusColor e) (callList e)
             (listCount e) (refreshDisabled e) b (divisionOptions e)
             (divisionValue e) (searchValue e).

Definition setDivisions (opts : list string) (v : string)
  (e : Elements) : Elements :=
  mkElements (totalCallsEl e) (mappedCallsEl e) (unmappedCallsEl e)
             (lastUpdated e) (statusLine e) (statusColor e) (callList e)
             (listCount e) (refreshDisabled e) (refreshSpinning e) opts v
             (searchValue e).

Definition setFilterInputs (d s : string) (e : Elements) : Elements :=
  mkElements (totalCallsEl e) (mappedCallsEl e) (unmappedCallsEl e)
             (lastUpdated e) (statusLine e) (statusColor e) (callList e)
             (listCount e) (refreshDisabled e) (refreshSpinning e)
             (divisionOptions e) d s.

Definition logFit (b : list (coord * coord)) (f : Effects) : Effects :=
  mkEffects (fitBoundsLog f ++ [b]) (flyToLog f) (openedPopups f)
            (alerts f) (consoleErrors f) (timeouts f).

Definition logFlyTo (p : coord * coord) (f : Effects) : Effects :=
  mkEffects (fitBoundsLog f) (flyToLog f ++ [p]) (openedPopups f)
            (alerts f) (consoleErrors f) (timeouts f).

Definition logPopup (id : nat) (f : Effects) : Effects :=
  mkEffects (fitBoundsLog f) (flyToLog f) (openedPopups f ++ [id])
            (alerts f) (consoleErrors f) (timeouts f).

Definition logAlert (msg : string) (f : Effects) : Effects :=
  mkEffects (fitBoundsLog f) (flyToLog f) (openedPopups f)
            (alerts f ++ [msg]) (consoleErrors f) (timeouts f).

Definition logConsoleError (f : Effects) : Effects :=
  mkEffects (fitBoundsLog f) (flyToLog f) (openedPopups f)
            (alerts f) (S (consoleErrors f)) (timeouts f).

Definition setTimeouts (t : list Z) (f : Effects) : Effects :=
  mkEffects (fitBoundsLog f) (flyToLog f) (openedPopups f)
            (alerts f) (consoleErrors f) t.

(** *** Utils *)

(** [PRIORITY_COLORS[p] || PRIORITY_COLORS.default].  The key is the
    string of [p]; [undefined] and [null] give keys the table does not
    have. *)
Definition getPriorityColor (p : text) : Colour :=
  match p with
  | Val "1" => Hex "#ff3344"
  | Val "2" => Hex "#ff8833"
  | Val "3" => Hex "#ffcc00"
  | Val "4" => Hex "#00cc66"
  | Val "default" => Hex "#5599ff"
  | Val s => if arrayIncludes objectPrototypeMembers s
             then Inherited s else Hex "#5599ff"
  | _ => Hex "#5599ff"
  end.

(** *** Data processing *)

(** [incident.units.push(u)] unless [incident.units.includes(u)]. *)
Definition addUnit (u : string) (incident : Incident) : Incident :=
  if negb (arrayIncludes (units incident) u)
  then mkIncident (base incident) (units incident ++ [u]) (unitCount incident)
  else incident.

(** The body of [rows.forEach(row => ...)]. *)
Definition consolidateRow (mapByInc : JsMap Incident) (row : CallRow)
  : JsMap Incident :=
  let inc := incidentNumber row in
  let mapByInc :=
    if negb (mapHas inc mapByInc)
    then mapSet inc (mkIncident row [] 0) mapByInc
    else mapByInc in
  match unitNumber row with
  | Val u => if truthyString u then mapModify inc (addUnit u) mapByInc
             else mapByInc
  | _ => mapByInc
  end.

(** [inc.unitCount = inc.units.length; return inc]. *)
Definition finalizeCount (inc : Incident) : Incident :=
  mkIncident (base inc) (units inc) (Z.of_nat (List.length (units inc))).

Definition consolidateData (rows : list CallRow) : list Incident :=
  let mapByInc := fold_left consolidateRow rows [] in
  map finalizeCount (mapValues mapByInc).

(** *** Core logic *)

Section InBrowser.
Context {browser : Browser}.

(** The callback of [consolidatedCalls.filter] in [getFilteredCalls];
    [search] is already lower-cased and trimmed. *)
Definition callPasses (division search : string) (call : Incident) : bool :=
  if negb (String.eqb division "all")
     && negb (text_eqb (Model.division call) (Val division))
  then false
  else if truthyString search then
    let incident := toLowerCase (orString (incidentNumber call) "") in
    let location :=
      toLowerCase (orString (orText (address call) (Model.location call)) "") in
    let nature := toLowerCase (orString (natureOfCall call) "") in
    let unitStr := toLowerCase (join " " (units call)) in
    if negb (includes incident search) &&
       negb (includes location search) &&
       negb (includes nature search) &&
       negb (includes unitStr search)
    then false
    else true
  else true.

Definition getFilteredCalls (st : State) : list Incident :=
  let division := divisionValue (el st) in
  let search := trim (toLowerCase (searchValue (el st))) in
  filter (callPasses division search) (consolidatedCalls st).

(** [c.lat != null && c.lon != null]. *)
Definition hasCoordinates (c : CallRow) : bool :=
  notNullish (lat c) && notNullish (lon c).

(** [c.lat && c.lon] used as a condition. *)
Definition latAndLon (c : CallRow) : bool :=
  truthyCoord (lat c) && truthyCoord (lon c).

(** The body of [mapped.forEach(call => ...)] in [updateMarkers]. *)
Definition addMarker (st : State) (call : Incident) : State :=
  let color := getPriorityColor (priority call) in
  let pulseRadius := if text_eqb (priority call) (Val "1") then 12%Z else 8%Z in
  let marker :=
    mkMarker (nextLayerId st) (lat call) (lon call) pulseRadius color call in
  mkState (allCallsRaw st) (consolidatedCalls st)
          (markerLayer st ++ [marker])
          (mapSet (incidentNumber call) marker (markersByIncident st))
          (firstLoad st) (S (nextLayerId st)) (el st) (fx st).

Definition clearMarkers (st : State) : State :=
  mkState (allCallsRaw st) (consolidatedCalls st) [] []
          (firstLoad st) (nextLayerId st) (el st) (fx st).

Definition updateMarkers (visibleCalls : list Incident) (st : State) : State :=
  let st := clearMarkers st in
  let mapped := filter (fun c : Incident => hasCoordinates c) visibleCalls in
  fold_left addMarker mapped st.

(** The text [`${x}`] of a string-valued property. *)
Definition templateText (x : text) : string :=
  match x with
  | Undefined => "undefined"
  | Null => "null"
  | Val s => s
  end.

Definition renderItem (call : Incident) : ListItem :=
  let p := orString (priority call) "?" in
  let loc := orString (orText (address call) (Model.location call))
                      "Unknown Location" in
  let mappedIcon := latAndLon call in
  let unitText :=
    if (unitCount call =? 1)%Z
    then UnitSingle (match units call with
                     | u :: _ => if truthyString u then u else "?"
                     | [] => "?"
                     end)
    else UnitPlural (unitCount call) in
  mkItem (templateText (incidentNumber call)) p (natureOfCall call)
         mappedIcon loc (incidentNumber call) unitText.

Definition renderList (calls : list Incident) (st : State) : State :=
  let n := Z.of_nat (List.length calls) in
  match calls with
  | [] => withEl (setList n NoMatch) st
  | _ => withEl (setList n (Items (map renderItem (firstn 100 calls)))) st
  end.

Definition updateStats (data : Snapshot) (callsPerIncident : list Incident)
  (st : State) : State :=
  let total := Z.of_nat (List.length callsPerIncident) in
  let mappedCount :=
    Z.of_nat (List.length (filter (fun c : Incident => latAndLon c)
                                  callsPerIncident)) in
  let st := withEl (setCounts total mappedCount (total - mappedCount)%Z
                              (updatedAt data)) st in
  match error data with
  | Val e =>
      if truthyString e
      then withEl (setStatus ("Error: " ++ e) "#ff3344") st
      else withEl (setStatus "System Operational | Live Data" "#00cc66") st
  | _ => withEl (setStatus "System Operational | Live Data" "#00cc66") st
  end.

Definition truthyDivisions (cs : list Incident) : list string :=
  flat_map (fun c : Incident =>
              match Model.division c with
              | Val d => if truthyString d then [d] else []
              | _ => []
              end) cs.

(** Assigning [innerHTML] makes the parser rebuild the options from the
    markup, in which every division stands unescaped, and leaves the
    control on the value the parser selects.  [select.value = current]
    then selects the first option whose value is [current]; when no
    option has that value none is selected and the control reads as the
    empty string. *)
Definition syncDivisions (st : State) : State :=
  let current := divisionValue (el st) in
  let sorted :=
    sortStrings (setOfStrings (truthyDivisions (consolidatedCalls st))) in
  let offered := parsedOptions sorted in
  let value :=
    if arrayIncludes sorted current
    then (if arrayIncludes offered current then current else "")
    else parsedSelection sorted in
  withEl (setDivisions offered value) st.

(** [window.focusCall]. *)
Definition focusCall (incidentNumber : text) (st : State) : State :=
  match find (fun c : Incident => text_eqb (Model.incidentNumber c) incidentNumber)
             (consolidatedCalls st) with
  | None => st
  | Some call =>
      if latAndLon call then
        let st := withFx (logFlyTo (lat call, lon call)) st in
        match mapGet incidentNumber (markersByIncident st) with
        | Some marker => withFx (logPopup (markerId marker)) st
        | None => st
        end
      else withFx (logAlert "Location not mapped yet.") st
  end.

Definition render (st : State) : State :=
  let filtered := getFilteredCalls st in
  let st := updateMarkers filtered st in
  renderList filtered st.

(** *** Polling and manual refresh *)

Definition setCalls (raw : list CallRow) (cons : list Incident)
  (st : State) : State :=
  mkState raw cons (markerLayer st) (markersByIncident st)
          (firstLoad st) (nextLayerId st) (el st) (fx st).

Definition setFirstLoad (b : bool) (st : State) : State :=
  mkState (allCallsRaw st) (consolidatedCalls st) (markerLayer st)
          (markersByIncident st) b (nextLayerId st) (el st) (fx st).

(** [fetchCalls] up to its first [await]. *)
Definition fetchCalls_start (st : State) : State :=
  withEl (setSpinning true) st.

(** How a block of statements ends: it runs to its end, or a call in
    it throws and the rest of the block is skipped; either way the
    assignments made so far stay. *)
Inductive Completion : Type :=
| Normal (st : State)
| Throw (st : State).

Definition andThen (c : Completion) (rest : State -> Completion)
  : Completion :=
  match c with
  | Normal st => rest st
  | Throw st => Throw st
  end.

Notation "st <- c ;; rest" := (andThen c (fun st => rest))
  (at level 61, c at next level, right associativity).

(** [L.featureGroup(points.map(p => L.marker(p)))] followed by
    [map.fitBounds(group.getBounds(), ...)]: the view is fitted, unless
    Leaflet throws. *)
Definition fitBounds (points : list (coord * coord)) (st : State)
  : Completion :=
  if fitBoundsThrows points then Throw st
  else Normal (withFx (logFit points) st).

(** The [try] block of [fetchCalls] once [res.json()] gave [data]. *)
Definition fetchCalls_body (data : Snapshot) (st : State) : Completion :=
  let raw := match calls data with Some rows => rows | None => [] end in
  let st := setCalls raw (consolidateData raw) st in
  let st := updateStats data (consolidatedCalls st) st in
  st <- (if firstLoad st then
           let st := syncDivisions st in
           let st := setFirstLoad false st in
           let mapped := filter (fun c : Incident => latAndLon c)
                                (consolidatedCalls st) in
           match mapped with
           | [] => Normal st
           | _ => fitBounds (map (fun c : Incident => (lat c, lon c)) mapped) st
           end
         else Normal st) ;;
  Normal (render st).

(** The [catch] block of [fetchCalls]. *)
Definition fetchCalls_catch (st : State) : State :=
  withFx logConsoleError (withEl (setStatus "Connection Lost" "red") st).

(** [try { ... } catch (e) { ... }]: a throw inside the block runs the
    handler on the state the block has reached. *)
Definition tryCatch (block : Completion) (handler : State -> State)
  : State :=
  match block with
  | Normal st => st
  | Throw st => handler st
  end.

(** [fetchCalls] from the moment the request and [res.json()] settle;
    the status of the response is never read.  A rejection of either
    [await] and a throw further down the [try] block all end in the
    [catch] block. *)
Definition fetchCalls_settle (r : Response) (st : State) : State :=
  let st :=
    match r with
    | NetworkError _ => fetchCalls_catch st
    | Http _ None => fetchCalls_catch st
    | Http _ (Some data) => tryCatch (fetchCalls_body data st) fetchCalls_catch
    end in
  withEl (setSpinning false) st.

(** [triggerRefresh] up to its [await]. *)
Definition triggerRefresh_start (st : State) : State :=
  withEl (setStatusText "Requesting update...") (withEl (setDisabled true) st).

(** [triggerRefresh] from the moment [fetch(API_REFRESH_URL)] settles:
    on success [fetchCalls] is handed to [setTimeout], on rejection the
    error is logged; the [finally] block then enables the control. *)
Definition triggerRefresh_settle (resolved : bool) (st : State) : State :=
  let st :=
    if resolved
    then withFx (fun f => setTimeouts (timeouts f ++ [1000%Z]) f) st
    else withFx logConsoleError st in
  withEl (setDisabled false) st.

(** *** The event loop *)

(** What the browser can deliver to the page.  Any sequence of events is
    allowed, which covers every order in which timers, responses and user
    input can really arrive.  [ClickItem arg] is a click on a list item
    whose inline handler, the text [focusCall('<number>')] evaluated as
    JavaScript, calls [focusCall] on the string [arg]; for a number
    without apostrophe, backslash, line break or markup character [arg]
    is the number itself.  A handler text that is no such call is not an
    event of the model. *)
Inductive Event : Type :=
| PollTick                       (* boot, or the setInterval timer *)
| CallsSettled (r : Response)    (* a pending /api/calls request settles *)
| ClickRefresh                   (* click on the refresh control *)
| RefreshSettled (resolved : bool) (* the /api/refresh request settles *)
| TimeoutFires                   (* the oldest setTimeout callback runs *)
| FilterChange (division search : string) (* change / input on the filters *)
| ClickItem (arg : string).      (* a list item's handler calls focusCall(arg) *)

Definition step (st : State) (ev : Event) : State :=
  match ev with
  | PollTick => fetchCalls_start st
  | CallsSettled r => fetchCalls_settle r st
  | ClickRefresh =>
      if refreshDisabled (el st) then st else triggerRefresh_start st
  | RefreshSettled resolved => triggerRefresh_settle resolved st
  | TimeoutFires =>
      match timeouts (fx st) with
      | [] => st
      | _ :: rest => fetchCalls_start (withFx (setTimeouts rest) st)
      end
  | FilterChange d s => render (withEl (setFilterInputs d s) st)
  | ClickItem arg => focusCall (Val arg) st
  end.

Definition run (evs : list Event) (st : State) : State :=
  fold_left step evs st.

End InBrowser.

(** The globals as declared, over the page as loaded. *)
Definition initialState (page : Elements) : State :=
  mkState [] [] [] [] true 0 page (mkEffects [] [] [] [] 0 []).

End App.

(* ===================================================================== *)
(** ** src/unnamed/part_000                                               *)
(* ===================================================================== *)

Module Legacy.

(** The row-level script: it keeps the raw rows, has no consolidation and
    no search box, and shows the backend's own counters. *)

Record Marker : Type := mkMarker {
  markerId : nat;
  markerLat : coord;
  markerLon : coord;
  markerColor : Colour;
  popupOf : CallRow
}.

(** One [<li class="call-item">]; the formatted call time depends on the
    locale and is left out. *)
Record ListItem : Type := mkItem {
  itemIncident : string;
  itemPriorityClass : string;
  itemPriority : string;
  itemNature : string;
  itemLocation : string;
  itemDivision : string;
  itemBeat : string;
  itemMapped : bool            (* "Mapped", else "Unmapped" *)
}.

Inductive ListView : Type :=
| NoCalls                      (* "No active calls in this filter." *)
| Items (items : list ListItem).

(** Why a pull failed: the [message] of the error that was thrown. *)
Inductive Failure : Type :=
| Rejected (message : string)  (* fetch() rejected *)
| HttpError (statusCode : Z)   (* new Error(`HTTP ${response.status}`) *)
| JsonError.                   (* response.json() rejected *)

(** The text of the status line, by the template that produced it. *)
Inductive Status : Type :=
| StatusAsLoaded
| StatusUpdated (updatedAt : text) (geocodeAttempts : Z) (err : option string)
| StatusUnable (why : Failure).  (* Unable to load active calls: <message> *)

(** Where the [async] function [triggerServerRefresh] is suspended. *)
Inductive Phase : Type :=
| Idle
| AwaitingRefresh              (* await fetch(API_REFRESH_URL) *)
| Sleeping                     (* await sleep(350) *)
| AwaitingPull.                (* await pullLatest() *)

Record State : Type := mkState {
  allCalls : list CallRow;
  markerLayer : list Marker;
  markerByIncident : JsMap Marker;
  lastFitDone : bool;
  nextLayerId : nat;
  totalCallsEl : Z;
  mappedCallsEl : Z;
  unmappedCallsEl : Z;
  statusLine : Status;
  callList : ListView;
  refreshDisabled : bool;
  refreshLabel : string;
  divisionOptions : list string;
  divisionValue : string;
  fitBoundsLog : list (list (coord * coord));
  unhandledRejections : nat;
  refreshPhase : Phase
}.

(** [PRIORITY_COLORS[priority] || PRIORITY_COLORS.default]. *)
Definition getPriorityColor (p : text) : Colour :=
  match p with
  | Val "1" => Hex "#bd1f2d"
  | Val "2" => Hex "#eb6f29"
  | Val "3" => Hex "#d6a81e"
  | Val "4" => Hex "#2f8f55"
  | Val "default" => Hex "#3770bf"
  | Val s => if arrayIncludes objectPrototypeMembers s
             then Inherited s else Hex "#3770bf"
  | _ => Hex "#3770bf"
  end.

Definition getPriorityClass (p : text) : string :=
  match p with
  | Val s => if arrayIncludes ["1"; "2"; "3"; "4"] s
             then "priority-" ++ s else "priority-0"
  | _ => "priority-0"
  end.

Definition isMapped (call : CallRow) : bool :=
  isFiniteCoord (lat call) && isFiniteCoord (lon call).

Definition upsertMarker (st : State) (call : CallRow) : State :=
  if negb (isFiniteCoord (lat call)) || negb (isFiniteCoord (lon call))
  then st
  else
    let color := getPriorityColor (priority call) in
    let marker := mkMarker (nextLayerId st) (lat call) (lon call) color call in
    mkState (allCalls st) (markerLayer st ++ [marker])
            (mapSet (incidentNumber call) marker (markerByIncident st))
            (lastFitDone st) (S (nextLayerId st))
            (totalCallsEl st) (mappedCallsEl st) (unmappedCallsEl st)
            (statusLine st) (callList st) (refreshDisabled st)
            (refreshLabel st) (divisionOptions st) (divisionValue st)
            (fitBoundsLog st) (unhandledRejections st) (refreshPhase st).

Definition clearMarkers (st : State) : State :=
  mkState (allCalls st) [] [] (lastFitDone st) (nextLayerId st)
          (totalCallsEl st) (mappedCallsEl st) (unmappedCallsEl st)
          (statusLine st) (callList st) (refreshDisabled st)
          (refreshLabel st) (divisionOptions st) (divisionValue st)
          (fitBoundsLog st) (unhandledRejections st) (refreshPhase st).

Definition fitOnce (bounds : list (coord * coord)) (st : State) : State :=
  mkState (allCalls st) (markerLayer st) (markerByIncident st) true
          (nextLayerId st)
          (totalCallsEl st) (mappedCallsEl st) (unmappedCallsEl st)
          (statusLine st) (callList st) (refreshDisabled st)
          (refreshLabel st) (divisionOptions st) (divisionValue st)
          (fitBoundsLog st ++ [bounds]) (unhandledRejections st)
          (refreshPhase st).

Definition clearAndRenderMarkers (calls : list CallRow) (st : State) : State :=
  let st := clearMarkers st in
  let mappedCalls := filter isMapped calls in
  let st := fold_left upsertMarker mappedCalls st in
  match mappedCalls with
  | [] => st
  | _ => if negb (lastFitDone st)
         then fitOnce (map (fun call => (lat call, lon call)) mappedCalls) st
         else st
  end.

Definition renderItem (call : CallRow) : ListItem :=
  mkItem (orString (incidentNumber call) "No incident #")
         (getPriorityClass (priority call))
         (orString (priority call) "?")
         (orString (natureOfCall call) "Unknown call type")
         (orString (orText (address call) (location call))
                   "Location unavailable")
         (orString (division call) "Unknown division")
         (orString (beat call) "N/A")
         (isMapped call).

Definition setList (v : ListView) (st : State) : State :=
  mkState (allCalls st) (markerLayer st) (markerByIncident st)
          (lastFitDone st) (nextLayerId st)
          (totalCallsEl st) (mappedCallsEl st) (unmappedCallsEl st)
          (statusLine st) v (refreshDisabled st)
          (refreshLabel st) (divisionOptions st) (divisionValue st)
          (fitBoundsLog st) (unhandledRejections st) (refreshPhase st).

Definition renderCallList (calls : list CallRow) (st : State) : State :=
  match calls with
  | [] => setList NoCalls st
  | _ => setList (Items (map renderItem (firstn 250 calls))) st
  end.

Definition getFilteredCalls (st : State) : list CallRow :=
  let divisionValue := divisionValue st in
  if String.eqb divisionValue "all" then allCalls st
  else filter (fun call => text_eqb (division call) (Val divisionValue))
              (allCalls st).

Definition truthyDivisions (cs : list CallRow) : list string :=
  flat_map (fun c => match division c with
                     | Val d => if truthyString d then [d] else []
                     | _ => []
                     end) cs.

Definition syncDivisionFilter (calls : list CallRow) (st : State) : State :=
  let current := if truthyString (divisionValue st)
                 then divisionValue st else "all" in
  let divisions := sortStrings (setOfStrings (truthyDivisions calls)) in
  let value := if arrayIncludes divisions current then current else "all" in
  mkState (allCalls st) (markerLayer st) (markerByIncident st)
          (lastFitDone st) (nextLayerId st)
          (totalCallsEl st) (mappedCallsEl st) (unmappedCallsEl st)
          (statusLine st) (callList st) (refreshDisabled st)
          (refreshLabel st) ("all" :: divisions) value
          (fitBoundsLog st) (unhandledRejections st) (refreshPhase st).

(** [x ?? 0]. *)
Definition orZero (x : option Z) : Z :=
  match x with Some n => n | None => 0%Z end.

Definition updateStatus (data : Snapshot) (st : State) : State :=
  let errorLabel := match error data with
                    | Val e => if truthyString e then Some e else None
                    | _ => None
                    end in
  mkState (allCalls st) (markerLayer st) (markerByIncident st)
          (lastFitDone st) (nextLayerId st)
          (orZero (totalCalls data)) (orZero (mappedCalls data))
          (orZero (unmappedCalls data))
          (StatusUpdated (updatedAt data)
                         (orZero (geocodeAttemptsThisRun data)) errorLabel)
          (callList st) (refreshDisabled st)
          (refreshLabel st) (divisionOptions st) (divisionValue st)
          (fitBoundsLog st) (unhandledRejections st) (refreshPhase st).

Definition render (st : State) : State :=
  let calls := getFilteredCalls st in
  let st := clearAndRenderMarkers calls st in
  renderCallList calls st.

(** [fetchCalls]: the snapshot, or the error it throws. *)
Definition fetchCalls (r : Response) : Failure + Snapshot :=
  match r with
  | NetworkError message => inl (Rejected message)
  | Http statusCode body =>
      if negb (responseOk statusCode) then inl (HttpError statusCode)
      else match body with
           | Some data => inr data
           | None => inl JsonError
           end
  end.

Definition setAllCalls (rows : list CallRow) (st : State) : State :=
  mkState rows (markerLayer st) (markerByIncident st)
          (lastFitDone st) (nextLayerId st)
          (totalCallsEl st) (mappedCallsEl st) (unmappedCallsEl st)
          (statusLine st) (callList st) (refreshDisabled st)
          (refreshLabel st) (divisionOptions st) (divisionValue st)
          (fitBoundsLog st) (unhandledRejections st) (refreshPhase st).

Definition setStatusLine (s : Status) (st : State) : State :=
  mkState (allCalls st) (markerLayer st) (markerByIncident st)
          (lastFitDone st) (nextLayerId st)
          (totalCallsEl st) (mappedCallsEl st) (unmappedCallsEl st)
          s (callList st) (refreshDisabled st)
          (refreshLabel st) (divisionOptions st) (divisionValue st)
          (fitBoundsLog st) (unhandledRejections st) (refreshPhase st).

(** [pullLatest] from the moment its request settles. *)
Definition pullLatest (r : Response) (st : State) : State :=
  match fetchCalls r with
  | inr data =>
      let rows := match calls data with Some rows => rows | None => [] end in
      let st := setAllCalls rows st in
      let st := syncDivisionFilter (allCalls st) st in
      let st := updateStatus data st in
      render st
  | inl why => setStatusLine (StatusUnable why) st
  end.

Definition setRefresh (disabled : bool) (label : string) (ph : Phase)
  (st : State) : State :=
  mkState (allCalls st) (markerLayer st) (markerByIncident st)
          (lastFitDone st) (nextLayerId st)
          (totalCallsEl st) (mappedCallsEl st) (unmappedCallsEl st)
          (statusLine st) (callList st) disabled label
          (divisionOptions st) (divisionValue st)
          (fitBoundsLog st) (unhandledRejections st) ph.

Definition setPhase (ph : Phase) (st : State) : State :=
  setRefresh (refreshDisabled st) (refreshLabel st) ph st.

Definition setDivisionValue (d : string) (st : State) : State :=
  mkState (allCalls st) (markerLayer st) (markerByIncident st)
          (lastFitDone st) (nextLayerId st)
          (totalCallsEl st) (mappedCallsEl st) (unmappedCallsEl st)
          (statusLine st) (callList st) (refreshDisabled st)
          (refreshLabel st) (divisionOptions st) d
          (fitBoundsLog st) (unhandledRejections st) (refreshPhase st).

Definition logUnhandled (st : State) : State :=
  mkState (allCalls st) (markerLayer st) (markerByIncident st)
          (lastFitDone st) (nextLayerId st)
          (totalCallsEl st) (mappedCallsEl st) (unmappedCallsEl st)
          (statusLine st) (callList st) (refreshDisabled st)
          (refreshLabel st) (divisionOptions st) (divisionValue st)
          (fitBoundsLog st) (S (unhandledRejections st)) (refreshPhase st).

(** The [finally] block of [triggerServerRefresh]. *)
Definition triggerServerRefresh_finally (st : State) : State :=
  setRefresh false "Refresh Now" Idle st.

Inductive Event : Type :=
| PollSettled (r : Response)       (* a timer-driven pullLatest settles *)
| ClickRefresh                     (* click on the refresh control *)
| RefreshSettled (resolved : bool) (* the /api/refresh request settles *)
| SleepElapsed                     (* the 350 ms timer fires *)
| ManualPullSettled (r : Response) (* the awaited pullLatest settles *)
| FilterChange (division : string).

(** One turn of the event loop; an event that resumes
    [triggerServerRefresh] only counts at the matching [await]. *)
Definition step (st : State) (ev : Event) : State :=
  match ev with
  | PollSettled r => pullLatest r st
  | ClickRefresh =>
      if refreshDisabled st then st
      else setRefresh true "Refreshing..." AwaitingRefresh st
  | RefreshSettled resolved =>
      match refreshPhase st with
      | AwaitingRefresh =>
          if resolved then setPhase Sleeping st
          else logUnhandled (triggerServerRefresh_finally st)
      | _ => st
      end
  | SleepElapsed =>
      match refreshPhase st with
      | Sleeping => setPhase AwaitingPull st
      | _ => st
      end
  | ManualPullSettled r =>
      match refreshPhase st with
      | AwaitingPull => triggerServerRefresh_finally (pullLatest r st)
      | _ => st
      end
  | FilterChange d => render (setDivisionValue d st)
  end.

Definition run (evs : list Event) (st : State) : State :=
  fold_left step evs st.

End Legacy.

(* ===================================================================== *)
(** ** Reference notions used to state the properties                     *)
(* ===================================================================== *)

Module Spec.

(** The first occurrence of every value, in order of appearance. *)
Fixpoint firstSeen {A : Type} (eqb : A -> A -> bool) (l : list A) : list A :=
  match l with
  | [] => []
  | x :: r => x :: filter (fun y => negb (eqb x y)) (firstSeen eqb r)
  end.

(** The unit a row reports, when it reports one. *)
Definition reportedUnit (row : CallRow) : list string :=
  match unitNumber row with
  | Val u => if truthyString u then [u] else []
  | _ => []
  end.

Definition hasKey (k : text) (row : CallRow) : bool :=
  text_eqb (incidentNumber row) k.

(** The rows of incident [k], in input order. *)
Definition rowsOf (k : text) (rows : list CallRow) : list CallRow :=
  filter (hasKey k) rows.

(** The unit numbers reported for incident [k], in input order, with
    repetitions. *)
Definition unitStream (k : text) (rows : list CallRow) : list string :=
  flat_map reportedUnit (rowsOf k rows).

(** The incident built for key [k] before the counts are finalized: the
    first row with that key and the distinct units reported for it. *)
Definition pendingIncident (k : text) (rows : list CallRow) : option Incident :=
  match find (hasKey k) rows with
  | Some r => Some (mkIncident r (firstSeen String.eqb (unitStream k rows)) 0)
  | None => None
  end.

Definition incidentOf (k : text) (rows : list CallRow) : option Incident :=
  option_map App.finalizeCount (pendingIncident k rows).

(** What one row does to the units of its incident. *)
Definition pushUnit (row : CallRow) (incident : Incident) : Incident :=
  match unitNumber row with
  | Val u => if truthyString u then App.addUnit u incident else incident
  | _ => incident
  end.

(** An incident number that is missing, [null] or the empty string. *)
Definition absentNumber (k : text) : bool := negb (truthyText k).

(** [p] occurs in [s]. *)
Definition Substring (p s : string) : Prop :=
  exists pre post : string, s = (pre ++ p ++ post)%string.

(** The text of a string-valued property; an absent one has none. *)
Definition textOf (x : text) : string :=
  match x with
  | Val s => s
  | _ => ""
  end.

(** The resolved location: the address, or the location when the address
    is absent or empty. *)
Definition resolvedLocation (c : CallRow) : string :=
  match address c with
  | Val (String a s) => String a s
  | _ => textOf (location c)
  end.

(** The division predicate of the filter. *)
Definition DivisionPredicate (selected : string) (c : Incident) : Prop :=
  selected = "all" \/ division c = Val selected.

(** A query matches an incident: it is empty or occurs in one of the
    four searched texts, compared without regard to case.  The units
    are joined by single spaces. *)
Definition SearchMatch {browser : Browser} (q : string) (c : Incident)
  : Prop :=
  q = ""
  \/ Substring q (toLowerCase (textOf (incidentNumber c)))
  \/ Substring q (toLowerCase (resolvedLocation c))
  \/ Substring q (toLowerCase (textOf (natureOfCall c)))
  \/ Substring q (toLowerCase (String.concat " " (units c))).

(** The search predicate of the filter: the search text, case-folded
    and trimmed, matches the incident. *)
Definition SearchPredicate {browser : Browser} (searchText : string)
  (c : Incident) : Prop :=
  SearchMatch (trim (toLowerCase searchText)) c.

(** The marker [updateMarkers] builds for [call] when [id] is the next
    free layer identity. *)
Definition markerFor (id : nat) (call : Incident) : App.Marker :=
  App.mkMarker id (lat call) (lon call)
               (if text_eqb (priority call) (Val "1") then 12%Z else 8%Z)
               (App.getPriorityColor (priority call)) call.

(** The markers built for a list of incidents, allocated in order. *)
Fixpoint markersFrom (id : nat) (cs : list Incident) : list App.Marker :=
  match cs with
  | [] => []
  | c :: r => markerFor id c :: markersFrom (S id) r
  end.

(** The lookup entry of a marker: keyed by the incident number. *)
Definition keyed (m : App.Marker) : text * App.Marker :=
  (incidentNumber (App.popupOf m), m).

(** Every marker object the page holds was allocated before [nextLayerId]. *)
Definition markersAllocated (st : App.State) : Prop :=
  forall m, In m (App.markerLayer st) \/ In m (mapValues (App.markersByIncident st)) ->
            (App.markerId m < App.nextLayerId st)%nat.

(** The body app.js takes for a snapshot: that of any poll whose request
    resolved and whose body parsed, whatever the status of the response,
    so also the body of an error response. *)
Definition parsedBody (ev : App.Event) : option Snapshot :=
  match ev with
  | App.CallsSettled (Http _ (Some data)) => Some data
  | _ => None
  end.

(** The first such body of a run, if there is one. *)
Fixpoint firstParsed (evs : list App.Event) : option Snapshot :=
  match evs with
  | [] => None
  | ev :: r => match parsedBody ev with
               | Some data => Some data
               | None => firstParsed r
               end
  end.

(** The rows of a snapshot; a body without [calls] has none. *)
Definition rowsOfSnapshot (data : Snapshot) : list CallRow :=
  match calls data with
  | Some rows => rows
  | None => []
  end.

(** The incidents of a body that pass the test [lat && lon] of the fit.
    An incident with a latitude or longitude of 0 has coordinates and is
    not among them. *)
Definition fitIncidents (data : Snapshot) : list Incident :=
  filter (fun c : Incident => App.latAndLon c)
         (App.consolidateData (rowsOfSnapshot data)).

(** The points the fit is asked to show. *)
Definition fitPoints (data : Snapshot) : list (coord * coord) :=
  map (fun c : Incident => (lat c, lon c)) (fitIncidents data).

(** Whether the first-load branch of [fetchCalls] throws on [data]. *)
Definition fitFails {browser : Browser} (data : Snapshot) : bool :=
  match fitIncidents data with
  | [] => false
  | _ => fitBoundsThrows (fitPoints data)
  end.

(** The fit the first-load branch performs on [data]: none without an
    incident that passes the test or when Leaflet throws, else one
    around all that pass. *)
Definition fitOf {browser : Browser} (data : Snapshot)
  : list (list (coord * coord)) :=
  match fitIncidents data with
  | [] => []
  | _ => if fitBoundsThrows (fitPoints data) then [] else [fitPoints data]
  end.

(** The fits of a whole run that starts at page load. *)
Definition fitsOfRun {browser : Browser} (evs : list App.Event)
  : list (list (coord * coord)) :=
  match firstParsed evs with
  | Some data => fitOf data
  | None => []
  end.

Definition isRefreshSettled (ev : App.Event) : bool :=
  match ev with
  | App.RefreshSettled _ => true
  | _ => false
  end.

(** The three counters of the status bar. *)
Definition counters (e : App.Elements) : Z * Z * Z :=
  (App.totalCallsEl e, App.mappedCallsEl e, App.unmappedCallsEl e).

(** The incidents the status bar counts as mapped, and the others: the
    test is [lat && lon], which an incident with a latitude or longitude
    of 0 fails although it has coordinates. *)
Definition countedMapped (incs : list Incident) : list Incident :=
  filter (fun c : Incident => App.latAndLon c) incs.

Definition countedUnmapped (incs : list Incident) : list Incident :=
  filter (fun c : Incident => negb (App.latAndLon c)) incs.

(** part_000: at every [await] of [triggerServerRefresh] the control is
    disabled, and it is enabled when the function is not running. *)
Definition legacyRefreshInvariant (st : Legacy.State) : Prop :=
  match Legacy.refreshPhase st with
  | Legacy.Idle => Legacy.refreshDisabled st = false
  | _ => Legacy.refreshDisabled st = true
  end.

(** part_000: the view has been fitted exactly when the flag says so,
    and then only once. *)
Definition legacyFitInvariant (st : Legacy.State) : Prop :=
  if Legacy.lastFitDone st
  then List.length (Legacy.fitBoundsLog st) = 1%nat
  else Legacy.fitBoundsLog st = [].

(** app.js: the incidents held have distinct numbers and the marker
    objects held were allocated below the counter. *)
Definition appInvariant (st : App.State) : Prop :=
  NoDup (map (fun c : Incident => incidentNumber c) (App.consolidatedCalls st))
  /\ markersAllocated st.

(** A page of part_000 as loaded. *)
Definition legacyInitialState (divisions : list string) (selected : string)
  : Legacy.State :=
  Legacy.mkState [] [] [] false 0 0 0 0 Legacy.StatusAsLoaded Legacy.NoCalls
                 false "Refresh Now" divisions selected [] 0 Legacy.Idle.

(** [l1] is [l2] with some elements left out. *)
Inductive Sublist {A : Type} : list A -> list A -> Prop :=
| SublistNil : Sublist [] []
| SublistSkip x l1 l2 : Sublist l1 l2 -> Sublist l1 (x :: l2)
| SublistKeep x l1 l2 : Sublist l1 l2 -> Sublist (x :: l1) (x :: l2).

End Spec.
Import Spec.

(* ===================================================================== *)
(** ** Sample data                                                        *)
(* ===================================================================== *)

Module Examples.

(** A browser for the sample data.  The sample texts are ASCII and hold
    no markup character: on them the string methods are the ASCII ones
    and the parser builds one option per division after "all", which
    stays selected.  Leaflet is taken to throw on a point that is not
    finite. *)
Definition sampleBrowser : Browser :=
  {| toLowerCase := asciiToLowerCase;
     trim := asciiTrim;
     parsedOptions := fun ds => "all" :: ds;
     parsedSelection := fun _ => "all";
     fitBoundsThrows := fun points =>
       negb (forallb (fun p : coord * coord =>
                        isFiniteCoord (fst p) && isFiniteCoord (snd p))
                     points) |}.

(** The three rows of the specification's worked example. *)
Definition rowA1 : CallRow :=
  mkRow (Str "A1") (Str "Fire") (Str "C") Undefined (Str "101") Undefined
        Undefined Undefined (Str "1") Undefined Undefined (Num 1) (Num 2).

Definition rowA1' : CallRow :=
  mkRow (Str "A1") Undefined Undefined Undefined (Str "102") Undefined
        Undefined Undefined Undefined Undefined Undefined Undefined Undefined.

Definition rowB2 : CallRow :=
  mkRow (Str "B2") Undefined (Str "D") Undefined (Str "201") Undefined
        Undefined Undefined (Str "3") Undefined Undefined Undefined Undefined.

Definition exampleRows : list CallRow := [rowA1; rowA1'; rowB2].

Definition incidentA1 : Incident := mkIncident rowA1 ["101"; "102"] 2.
Definition incidentB2 : Incident := mkIncident rowB2 ["201"] 1.

(** A row whose incident number is the empty string and a row that has
    no incident number at all. *)
Definition rowEmptyNumber : CallRow :=
  mkRow (Str "") Undefined Undefined Undefined (Str "1") Undefined
        Undefined Undefined Undefined Undefined Undefined Undefined Undefined.

Definition rowNoNumber : CallRow :=
  mkRow Undefined Undefined Undefined Undefined (Str "2") Undefined
        Undefined Undefined Undefined Undefined Undefined Undefined Undefined.

Definition rowNoNumber' : CallRow :=
  mkRow Undefined Undefined Undefined Undefined (Str "3") Undefined
        Undefined Undefined Undefined Undefined Undefined Undefined Undefined.

(** The example as a snapshot whose backend counters count rows. *)
Definition exampleSnapshot : Snapshot :=
  mkSnapshot (Some exampleRows) (Some 3%Z) (Some 2%Z) (Some 1%Z)
             (Str "2026-01-01T00:00:00Z") None Undefined.

(** The body [{}] of an error response. *)
Definition emptyBody : Snapshot :=
  mkSnapshot None None None None Undefined None Undefined.

(** An incident located on the equator: latitude 0. *)
Definition rowEquator : CallRow :=
  mkRow (Str "E0") (Str "Alarm") (Str "C") Undefined (Str "301") Undefined
        Undefined Undefined (Str "2") Undefined Undefined
        (Num 0) (Num (-(968 # 10))).

Definition incidentEquator : Incident := mkIncident rowEquator ["301"] 1.

Definition equatorSnapshot : Snapshot :=
  mkSnapshot (Some [rowEquator]) (Some 1%Z) (Some 1%Z) (Some 0%Z)
             (Str "2026-01-01T00:00:00Z") None Undefined.

(** A row whose latitude is the JSON number [-1e999], which parses to
    [-Infinity]. *)
Definition rowFar : CallRow :=
  mkRow (Str "F9") (Str "Alarm") (Str "N") Undefined (Str "401") Undefined
        Undefined Undefined (Str "2") Undefined Undefined
        (Val (Inf true)) (Num (-(968 # 10))).

Definition incidentFar : Incident := mkIncident rowFar ["401"] 1.

Definition farSnapshot : Snapshot :=
  mkSnapshot (Some [rowFar]) (Some 1%Z) (Some 1%Z) (Some 0%Z)
             (Str "2026-01-01T00:00:00Z") None Undefined.

(** A page as loaded: nothing shown yet, filters at their defaults. *)
Definition page0 : App.Elements :=
  App.mkElements 0 0 0 Undefined "" "" App.NoMatch 0 false false
                 ["all"] "all" "".

(** The page after its first poll returned the example. *)
Definition syncedState : App.State :=
  Eval vm_compute in
    App.run (browser := sampleBrowser)
            [App.PollTick; App.CallsSettled (Http 200 (Some exampleSnapshot))]
            (App.initialState page0).

(** The page after an error response with the body [{}] was followed by
    a response with status 200 that carries the example. *)
Definition errorFirst : list App.Event :=
  [App.PollTick; App.CallsSettled (Http 500 (Some emptyBody));
   App.PollTick; App.CallsSettled (Http 200 (Some exampleSnapshot))].

Definition afterErrorFirst : App.State :=
  Eval vm_compute in
    App.run (browser := sampleBrowser) errorFirst (App.initialState page0).

(** The page after its first poll returned the incident on the equator. *)
Definition equatorState : App.State :=
  Eval vm_compute in
    App.run (browser := sampleBrowser)
            [App.PollTick; App.CallsSettled (Http 200 (Some equatorSnapshot))]
            (App.initialState page0).

(** The page during the settling delay of a manual refresh: the control
    was clicked and the refresh request has resolved. *)
Definition settlingState : App.State :=
  Eval vm_compute in
    App.run (browser := sampleBrowser)
            [App.ClickRefresh; App.RefreshSettled true] syncedState.

End Examples.

(* ===================================================================== *)
(** ** Escaping, shared by both scripts                                   *)
(* ===================================================================== *)

Module Html.

(** The double quote, character 34. *)
Definition doubleQuote : ascii := ascii_of_nat 34.

(** [s.replace(/c/g, rep)] and [s.replaceAll("c", rep)] for a pattern of
    one character: every occurrence is replaced, left to right, and the
    replacement is not scanned again. *)
Fixpoint replaceAll (c : ascii) (rep : string) (s : string) : string :=
  match s with
  | EmptyString => EmptyString
  | String a r =>
      if Ascii.eqb a c then (rep ++ replaceAll c rep r)%string
      else String a (replaceAll c rep r)
  end.

(** The chain of five replacements of [escapeHtml], in source order. *)
Definition escapeChain (s : string) : string :=
  replaceAll "'" "&#39;"
    (replaceAll doubleQuote "&quot;"
       (replaceAll ">" "&gt;"
          (replaceAll "<" "&lt;"
             (replaceAll "&" "&amp;" s)))).

(** [escapeHtml] of app.js: [String(str || "")], then the chain. *)
Definition escapeHtml (str : text) : string :=
  escapeChain (orString str "").

(** [escapeHtml] of part_000: [String(value ?? "")], then the chain. *)
Definition escapeHtmlLegacy (value : text) : string :=
  escapeChain (match value with
               | Val s => s
               | _ => ""
               end).

End Html.

(* ===================================================================== *)
(** ** Reference notions for the views                                    *)
(* ===================================================================== *)

Module Views.

(** The entity that stands for a character in HTML text, or the
    character itself. *)
Definition entityOf (a : ascii) : string :=
  if Ascii.eqb a "&" then "&amp;"
  else if Ascii.eqb a "<" then "&lt;"
  else if Ascii.eqb a ">" then "&gt;"
  else if Ascii.eqb a Html.doubleQuote then "&quot;"
  else if Ascii.eqb a "'" then "&#39;"
  else String a EmptyString.

(** Escaping in one pass, character by character. *)
Fixpoint escapeOnePass (s : string) : string :=
  match s with
  | EmptyString => EmptyString
  | String a r => (entityOf a ++ escapeOnePass r)%string
  end.

(** The characters that open or close a tag or an attribute value. *)
Definition isMarkup (a : ascii) : bool :=
  Ascii.eqb a "<" || Ascii.eqb a ">" || Ascii.eqb a Html.doubleQuote
  || Ascii.eqb a "'".

(** The list the page shows for the visible incidents. *)
Definition listViewOf (visible : list Incident) : App.ListView :=
  match visible with
  | [] => App.NoMatch
  | _ => App.Items (map App.renderItem (firstn 100 visible))
  end.

(** The marker layer shows the visible incidents that have both
    coordinates, and the lookup table indexes that layer. *)
Definition markersShowFiltered {browser : Browser} (st : App.State) : Prop :=
  map App.popupOf (App.markerLayer st)
    = filter (fun c : Incident => App.hasCoordinates c) (App.getFilteredCalls st)
  /\ App.markersByIncident st = map keyed (App.markerLayer st).

(** The list and its counter show the visible incidents. *)
Definition listShowsFiltered {browser : Browser} (st : App.State) : Prop :=
  App.listCount (App.el st) = Z.of_nat (List.length (App.getFilteredCalls st))
  /\ App.callList (App.el st) = listViewOf (App.getFilteredCalls st).

(** The incidents held are the consolidation of the rows held. *)
Definition dataConsolidated (st : App.State) : Prop :=
  App.consolidatedCalls st = App.consolidateData (App.allCallsRaw st).

(** The divisions [syncDivisions] writes into the markup of the
    options: the non-empty divisions of the incidents, each once, in
    ascending order. *)
Definition divisionsOf (cs : list Incident) : list string :=
  sortStrings (setOfStrings (App.truthyDivisions cs)).

(** The parser gives one option per division after "all", with the
    division as its value, and leaves "all" selected.  So it does for
    divisions that hold no character with a meaning in HTML. *)
Definition parsedAsWritten {browser : Browser} (ds : list string) : Prop :=
  parsedOptions ds = "all" :: ds /\ parsedSelection ds = "all".

(** The state in which the [try] block of [fetchCalls] reaches the fit,
    or [render] when no fit is due: the rows and incidents are those of
    [data], the counters and the status line are written and, on first
    load, the divisions are offered and the flag is cleared. *)
Definition prepared {browser : Browser} (data : Snapshot) (st : App.State)
  : App.State :=
  let raw := rowsOfSnapshot data in
  let st := App.setCalls raw (App.consolidateData raw) st in
  let st := App.updateStats data (App.consolidatedCalls st) st in
  if App.firstLoad st then App.setFirstLoad false (App.syncDivisions st)
  else st.

(** The state in which it reaches [render] when nothing throws: on
    first load the view has been fitted to the incidents that pass the
    test of the fit. *)
Definition fitted {browser : Browser} (data : Snapshot) (st : App.State)
  : App.State :=
  if App.firstLoad st then
    match fitIncidents data with
    | [] => prepared data st
    | _ => App.withFx (App.logFit (fitPoints data)) (prepared data st)
    end
  else prepared data st.

(** A poll whose body parses and whose [try] block is left by a throw:
    it finds the first-load flag set and Leaflet throws on the fit. *)
Definition pollThrows {browser : Browser} (st : App.State) (ev : App.Event)
  : bool :=
  match ev with
  | App.CallsSettled (Http _ (Some data)) => App.firstLoad st && fitFails data
  | _ => false
  end.

(** An event that renders: a poll whose body parses and whose [try]
    block runs to its end, or a filter change. *)
Definition renders {browser : Browser} (st : App.State) (ev : App.Event)
  : bool :=
  match ev with
  | App.CallsSettled (Http _ (Some _)) => negb (pollThrows st ev)
  | App.FilterChange _ _ => true
  | _ => false
  end.

(** Whether a poll of a run from page load is left by a throw: only
    the first body that parses can be, since it clears the first-load
    flag. *)
Definition firstFitFails {browser : Browser} (evs : list App.Event) : bool :=
  match firstParsed evs with
  | Some data => fitFails data
  | None => false
  end.

(** An event that writes the status line: a click on the refresh control
    or the settling of a poll. *)
Definition writesStatus (ev : App.Event) : bool :=
  match ev with
  | App.ClickRefresh => true
  | App.CallsSettled _ => true
  | _ => false
  end.

(** An event of part_000 that does not resume [triggerServerRefresh]:
    a timer-driven pull or a filter change. *)
Definition legacyBackground (ev : Legacy.Event) : bool :=
  match ev with
  | Legacy.PollSettled _ => true
  | Legacy.FilterChange _ => true
  | _ => false
  end.

(** The marker part_000 builds for a row. *)
Definition legacyMarkerFor (id : nat) (call : CallRow) : Legacy.Marker :=
  Legacy.mkMarker id (lat call) (lon call)
                  (Legacy.getPriorityColor (priority call)) call.

Fixpoint legacyMarkersFrom (id : nat) (cs : list CallRow) : list Legacy.Marker :=
  match cs with
  | [] => []
  | c :: r => legacyMarkerFor id c :: legacyMarkersFrom (S id) r
  end.

(** The last element that satisfies a test. *)
Definition findLast {A : Type} (p : A -> bool) (l : list A) : option A :=
  find p (rev l).

(** [l1] is an initial segment of [l2]. *)
Definition Prefix {A : Type} (l1 l2 : list A) : Prop :=
  exists rest, l2 = l1 ++ rest.

(** The sum of the unit counts of a list of incidents. *)
Definition totalUnits (incs : list Incident) : Z :=
  fold_right (fun (i : Incident) acc => (unitCount i + acc)%Z) 0%Z incs.

End Views.
Import Views.

(** More sample data. *)
Module Examples2.

(** A page that holds the example under a filter that hides A1. *)
Definition filteredState : App.State :=
  Eval vm_compute in
    App.run (browser := Examples.sampleBrowser)
            [App.FilterChange "D" ""] Examples.syncedState.

(** A page whose first poll brought a point Leaflet cannot fit. *)
Definition farState : App.State :=
  Eval vm_compute in
    App.run (browser := Examples.sampleBrowser)
            [App.PollTick;
             App.CallsSettled (Http 200 (Some Examples.farSnapshot))]
            (App.initialState Examples.page0).

(** A page of part_000 that has loaded the example. *)
Definition legacySyncedState : Legacy.State :=
  Eval vm_compute in
    Legacy.run [Legacy.PollSettled (Http 200 (Some Examples.exampleSnapshot))]
               (legacyInitialState ["all"] "all").

End Examples2.

(* ===================================================================== *)
(** ** Lists, strings and maps                                            *)
(* ===================================================================== *)

Module ListFacts.

Lemma text_eqb_spec x y : reflect (x = y) (text_eqb x y).
Proof.
  destruct x as [| |s], y as [| |t]; simpl; try (constructor; congruence).
  destruct (String.eqb_spec s t); constructor; congruence.
Qed.

Lemma text_eqb_refl x : text_eqb x x = true.
Proof. destruct (text_eqb_spec x x); congruence. Qed.

Lemma text_eqb_eq x y : text_eqb x y = true <-> x = y.
Proof. destruct (text_eqb_spec x y); split; congruence. Qed.

Lemma text_eqb_neq x y : text_eqb x y = false <-> x <> y.
Proof. destruct (text_eqb_spec x y); split; congruence. Qed.

Lemma text_eqb_sym x y : text_eqb x y = text_eqb y x.
Proof.
  destruct (text_eqb_spec x y), (text_eqb_spec y x); congruence.
Qed.


Section FirstSeen.
Context {A : Type} (eqb : A -> A -> bool).
Hypothesis eqb_spec : forall x y, reflect (x = y) (eqb x y).

Lemma existsb_eqb_In x l : existsb (eqb x) l = true <-> In x l.
Proof.
  rewrite existsb_exists. split.
  - intros [y [Hy E]]. destruct (eqb_spec x y); congruence.
  - intros H. exists x. split; auto. destruct (eqb_spec x x); congruence.
Qed.

Lemma firstSeen_In x l : In x (firstSeen eqb l) <-> In x l.
Proof.
  induction l as [|a l IH]; simpl; [tauto|].
  rewrite filter_In, IH. destruct (eqb_spec a x); simpl; intuition congruence.
Qed.

Lemma firstSeen_NoDup l : NoDup (firstSeen eqb l).
Proof.
  induction l as [|a l IH]; simpl; constructor.
  - rewrite filter_In. intros [_ H]. destruct (eqb_spec a a); simpl in H; congruence.
  - apply NoDup_filter, IH.
Qed.

(** Appending a value at the end adds it exactly when it is new. *)
Lemma firstSeen_snoc l x :
  firstSeen eqb (l ++ [x]) =
  if existsb (eqb x) l then firstSeen eqb l else firstSeen eqb l ++ [x].
Proof.
  induction l as [|a l IH]; simpl; [reflexivity|].
  rewrite IH. destruct (eqb_spec x a) as [->|Hne]; simpl.
  - destruct (existsb (eqb a) l); [reflexivity|].
    rewrite filter_app. simpl. destruct (eqb_spec a a); simpl; [|congruence].
    rewrite app_nil_r. reflexivity.
  - destruct (existsb (eqb x) l); [reflexivity|].
    rewrite filter_app. simpl. destruct (eqb_spec a x); simpl; [congruence|].
    reflexivity.
Qed.

End FirstSeen.

Lemma find_snoc {A} (p : A -> bool) l x :
  find p (l ++ [x]) =
  match find p l with
  | Some y => Some y
  | None => if p x then Some x else None
  end.
Proof.
  induction l as [|a l IH]; simpl; [reflexivity|].
  destruct (p a); auto.
Qed.

(** [find] returns the first element that satisfies the test. *)
Lemma find_first {A} (p : A -> bool) l x :
  find p l = Some x ->
  exists pre post, l = pre ++ x :: post /\ p x = true /\
                   forall y, In y pre -> p y = false.
Proof.
  induction l as [|a l IH]; simpl; [discriminate|].
  destruct (p a) eqn:Ha.
  - intros [= ->]. exists [], l. simpl. intuition.
  - intros H. destruct (IH H) as (pre & post & -> & Hx & Hpre).
    exists (a :: pre), post. simpl. intuition; subst; auto.
Qed.

Lemma find_none_iff {A} (p : A -> bool) l :
  find p l = None <-> forall y, In y l -> p y = false.
Proof.
  split; [apply find_none|].
  induction l as [|a l IH]; simpl; [reflexivity|]. intros H.
  rewrite (H a (or_introl eq_refl)). apply IH. intros; apply H; auto.
Qed.

Lemma filter_Sublist {A} (p : A -> bool) l : Sublist (filter p l) l.
Proof.
  induction l as [|a l IH]; simpl; [constructor|].
  destruct (p a); constructor; assumption.
Qed.

Lemma Sublist_In {A} (l1 l2 : list A) x : Sublist l1 l2 -> In x l1 -> In x l2.
Proof. induction 1; simpl; intuition. Qed.

Lemma NoDup_map_Sublist {A B} (f : A -> B) l1 l2 :
  Sublist l1 l2 -> NoDup (map f l2) -> NoDup (map f l1).
Proof.
  induction 1 as [|x l1 l2 H IH|x l1 l2 H IH]; simpl; intros Hnd; auto.
  - inversion Hnd; auto.
  - inversion Hnd as [|? ? Hin Hnd']; subst. constructor; auto.
    intros Hx. apply Hin. apply in_map_iff in Hx as (y & Ey & Hy).
    apply in_map_iff. exists y. split; auto. eapply Sublist_In; eauto.
Qed.

End ListFacts.

Module MapFacts.
Import ListFacts.

Section Maps.
Context {V : Type}.
Implicit Types m : JsMap V.

Lemma mapHas_keys k m : mapHas k m = existsb (text_eqb k) (mapKeys m).
Proof.
  unfold mapHas. induction m as [|[k' v] m IH]; simpl; [reflexivity|].
  rewrite (text_eqb_sym k k'). destruct (text_eqb k' k); simpl; auto.
Qed.

Lemma mapSet_new k v m : mapHas k m = false -> mapSet k v m = m ++ [(k, v)].
Proof.
  unfold mapHas. induction m as [|[k' v'] m IH]; simpl; [reflexivity|].
  destruct (text_eqb k' k); [discriminate|]. intros H. rewrite IH; auto.
Qed.

Lemma mapGet_snoc k k' v m :
  mapGet k (m ++ [(k', v)]) =
  match mapGet k m with
  | Some x => Some x
  | None => if text_eqb k' k then Some v else None
  end.
Proof.
  induction m as [|[k0 v0] m IH]; simpl; [reflexivity|].
  destruct (text_eqb k0 k); auto.
Qed.

Lemma mapGet_mapModify k k' f m :
  mapGet k' (mapModify k f m) =
  if text_eqb k k' then option_map f (mapGet k m) else mapGet k' m.
Proof.
  induction m as [|[k0 v0] m IH]; simpl.
  - destruct (text_eqb k k'); reflexivity.
  - destruct (text_eqb_spec k0 k) as [->|Hk]; simpl.
    + destruct (text_eqb k k'); reflexivity.
    + destruct (text_eqb_spec k0 k') as [->|Hk0]; [|exact IH].
      apply not_eq_sym, text_eqb_neq in Hk. rewrite Hk. reflexivity.
Qed.

Lemma mapKeys_mapModify k f m : mapKeys (mapModify k f m) = mapKeys m.
Proof.
  unfold mapKeys. induction m as [|[k0 v0] m IH]; simpl; [reflexivity|].
  destruct (text_eqb k0 k); simpl; congruence.
Qed.

Lemma mapGet_notin k m : ~ In k (mapKeys m) -> mapGet k m = None.
Proof.
  induction m as [|[k0 v0] m IH]; simpl; [reflexivity|]. intros H.
  destruct (text_eqb_spec k0 k); [tauto|]. apply IH. tauto.
Qed.

(** With distinct keys, the values are the lookups of the keys. *)
Lemma mapValues_get m :
  NoDup (mapKeys m) ->
  map Some (mapValues m) = map (fun k => mapGet k m) (mapKeys m).
Proof.
  unfold mapValues, mapKeys.
  induction m as [|[k v] m IH]; simpl; [reflexivity|].
  intros Hnd. inversion Hnd as [|? ? Hin Hnd']; subst.
  rewrite text_eqb_refl. f_equal. rewrite IH by assumption.
  apply map_ext_in. intros k' Hk'.
  destruct (text_eqb_spec k k') as [->|]; [contradiction|reflexivity].
Qed.

End Maps.
End MapFacts.

(* ===================================================================== *)
(** ** Consolidation                                                      *)
(* ===================================================================== *)

Module ConsolidationFacts.
Import ListFacts MapFacts App.

Lemma consolidateRow_keys m row :
  mapKeys (consolidateRow m row) =
  mapKeys m ++ (if mapHas (incidentNumber row) m then [] else [incidentNumber row]).
Proof.
  unfold consolidateRow.
  assert (E : mapKeys (if negb (mapHas (incidentNumber row) m)
                       then mapSet (incidentNumber row) (mkIncident row [] 0) m
                       else m)
              = mapKeys m ++ (if mapHas (incidentNumber row) m then []
                              else [incidentNumber row])).
  { destruct (mapHas (incidentNumber row) m) eqn:H; simpl.
    - rewrite app_nil_r. reflexivity.
    - rewrite mapSet_new by assumption. unfold mapKeys.
      rewrite map_app. reflexivity. }
  destruct (unitNumber row) as [| |u]; try exact E.
  destruct (truthyString u); [|exact E].
  rewrite mapKeys_mapModify. exact E.
Qed.

Lemma consolidateRow_get m row k :
  mapGet k (consolidateRow m row) =
  if hasKey k row
  then Some (pushUnit row (match mapGet k m with
                           | Some i => i
                           | None => mkIncident row [] 0
                           end))
  else mapGet k m.
Proof.
  unfold consolidateRow, pushUnit, hasKey.
  set (inc := incidentNumber row).
  set (m' := if negb (mapHas inc m) then mapSet inc (mkIncident row [] 0) m
             else m).
  assert (G : mapGet k m' =
              if text_eqb inc k
              then Some (match mapGet k m with
                         | Some i => i
                         | None => mkIncident row [] 0
                         end)
              else mapGet k m).
  { subst m'. unfold mapHas. destruct (text_eqb_spec inc k) as [<-|Hne].
    - destruct (mapGet inc m) eqn:Hg; simpl; [exact Hg|].
      rewrite mapSet_new by (unfold mapHas; rewrite Hg; reflexivity).
      rewrite mapGet_snoc, Hg, text_eqb_refl. reflexivity.
    - destruct (mapGet inc m) eqn:Hg; simpl; [reflexivity|].
      rewrite mapSet_new by (unfold mapHas; rewrite Hg; reflexivity).
      rewrite mapGet_snoc. apply text_eqb_neq in Hne. rewrite Hne.
      destruct (mapGet k m); reflexivity. }
  destruct (unitNumber row) as [| |u]; try exact G.
  destruct (truthyString u); [|exact G].
  rewrite mapGet_mapModify.
  destruct (text_eqb_spec inc k) as [<-|Hne].
  - rewrite G. reflexivity.
  - exact G.
Qed.

Lemma unitStream_snoc k rows row :
  unitStream k (rows ++ [row]) =
  unitStream k rows ++ (if hasKey k row then reportedUnit row else []).
Proof.
  unfold unitStream, rowsOf. rewrite filter_app, flat_map_app. simpl.
  destruct (hasKey k row); simpl; rewrite ?app_nil_r; reflexivity.
Qed.

Lemma unitStream_no_row k rows :
  find (hasKey k) rows = None -> unitStream k rows = [].
Proof.
  intros H. unfold unitStream, rowsOf.
  rewrite find_none_iff in H.
  induction rows as [|r rows IH]; simpl; [reflexivity|].
  rewrite (H r) by (left; reflexivity). apply IH. intros; apply H; right; auto.
Qed.

Lemma arrayIncludes_firstSeen us u :
  arrayIncludes (firstSeen String.eqb us) u = existsb (String.eqb u) us.
Proof.
  unfold arrayIncludes. apply eq_true_iff_eq.
  rewrite !(existsb_eqb_In String.eqb String.eqb_spec).
  apply (firstSeen_In String.eqb String.eqb_spec).
Qed.

Lemma existsb_firstSeen_text k ks :
  existsb (text_eqb k) (firstSeen text_eqb ks) = existsb (text_eqb k) ks.
Proof.
  apply eq_true_iff_eq.
  rewrite !(existsb_eqb_In text_eqb text_eqb_spec).
  apply (firstSeen_In text_eqb text_eqb_spec).
Qed.

(** The map after the loop over [rows]: its keys ... *)
Lemma loop_keys rows :
  mapKeys (fold_left consolidateRow rows []) =
  firstSeen text_eqb (map incidentNumber rows).
Proof.
  induction rows as [|row rows IH] using rev_ind; [reflexivity|].
  rewrite fold_left_app. simpl. rewrite consolidateRow_keys, mapHas_keys, IH.
  rewrite map_app. simpl.
  rewrite (firstSeen_snoc text_eqb text_eqb_spec), existsb_firstSeen_text.
  destruct (existsb _ _); [apply app_nil_r | reflexivity].
Qed.

(** ... and the object stored under each key. *)
Lemma loop_get rows k :
  mapGet k (fold_left consolidateRow rows []) = pendingIncident k rows.
Proof.
  induction rows as [|row rows IH] using rev_ind; [reflexivity|].
  rewrite fold_left_app. simpl. rewrite consolidateRow_get, IH.
  unfold pendingIncident. rewrite find_snoc, unitStream_snoc.
  destruct (hasKey k row) eqn:Hk.
  - destruct (find (hasKey k) rows) as [r0|] eqn:Hf.
    + f_equal. unfold pushUnit, reportedUnit.
      destruct (unitNumber row) as [| |u]; simpl; rewrite ?app_nil_r; auto.
      destruct (truthyString u); simpl; rewrite ?app_nil_r; auto.
      unfold addUnit. simpl.
      rewrite (firstSeen_snoc String.eqb String.eqb_spec).
      rewrite arrayIncludes_firstSeen.
      destruct (existsb (String.eqb u) _); reflexivity.
    + rewrite (unitStream_no_row _ _ Hf). simpl. f_equal.
      unfold pushUnit, reportedUnit.
      destruct (unitNumber row) as [| |u]; simpl; auto.
      destruct (truthyString u); reflexivity.
  - rewrite app_nil_r. destruct (find (hasKey k) rows); reflexivity.
Qed.

(** [consolidateData] in closed form: one incident per key of the
    first-occurrence list, built from the rows of that key. *)
Lemma consolidateData_closed rows :
  map Some (consolidateData rows) =
  map (fun k => incidentOf k rows) (firstSeen text_eqb (map incidentNumber rows)).
Proof.
  unfold consolidateData, incidentOf.
  set (m := fold_left consolidateRow rows []).
  assert (Hnd : NoDup (mapKeys m)).
  { subst m. rewrite loop_keys. apply (firstSeen_NoDup text_eqb text_eqb_spec). }
  rewrite map_map.
  transitivity (map (option_map finalizeCount) (map Some (mapValues m))).
  { rewrite map_map. reflexivity. }
  rewrite (mapValues_get m Hnd), map_map. subst m. rewrite loop_keys.
  apply map_ext. intros k. rewrite loop_get. reflexivity.
Qed.

Lemma incidentOf_Some k rows i :
  incidentOf k rows = Some i ->
  exists r, find (hasKey k) rows = Some r /\
            i = mkIncident r (firstSeen String.eqb (unitStream k rows))
                  (Z.of_nat (List.length (firstSeen String.eqb (unitStream k rows)))).
Proof.
  unfold incidentOf, pendingIncident.
  destruct (find (hasKey k) rows) as [r|]; simpl; [|discriminate].
  intros [= <-]. exists r. split; reflexivity.
Qed.

Lemma incidentOf_key k rows i :
  incidentOf k rows = Some i -> incidentNumber i = k.
Proof.
  intros H. apply incidentOf_Some in H as (r & Hf & ->). simpl.
  apply find_some in Hf as [_ Hk]. apply text_eqb_eq. exact Hk.
Qed.

Lemma map_Some_inv {A B} (f : B -> option A) out ks :
  map Some out = map f ks -> Forall2 (fun i k => f k = Some i) out ks.
Proof.
  revert ks. induction out as [|i out IH]; intros [|k ks]; simpl;
    try discriminate; intros H; constructor.
  - congruence.
  - apply IH. congruence.
Qed.

Lemma consolidateData_Forall2 rows :
  Forall2 (fun i k => incidentOf k rows = Some i)
          (consolidateData rows)
          (firstSeen text_eqb (map incidentNumber rows)).
Proof. apply map_Some_inv, consolidateData_closed. Qed.

Lemma consolidateData_keys rows :
  map (fun i : Incident => incidentNumber i) (consolidateData rows) =
  firstSeen text_eqb (map incidentNumber rows).
Proof.
  pose proof (consolidateData_Forall2 rows) as H.
  induction H as [|i k out ks Hi _ IH]; simpl; [reflexivity|].
  rewrite IH. f_equal. eapply incidentOf_key; eauto.
Qed.

Lemma consolidateData_In rows i :
  In i (consolidateData rows) ->
  incidentOf (incidentNumber i) rows = Some i.
Proof.
  pose proof (consolidateData_Forall2 rows) as H.
  induction H as [|i' k out ks Hi _ IH]; simpl; [tauto|].
  intros [<-|Hin]; auto.
  rewrite (incidentOf_key _ _ _ Hi). exact Hi.
Qed.

Lemma consolidateData_NoDup rows :
  NoDup (map (fun i : Incident => incidentNumber i) (consolidateData rows)).
Proof.
  rewrite consolidateData_keys. apply (firstSeen_NoDup text_eqb text_eqb_spec).
Qed.

End ConsolidationFacts.

Module Consolidation.
Import ListFacts MapFacts App ConsolidationFacts.

Lemma count_key_NoDup (out : list Incident) k :
  NoDup (map (fun i : Incident => incidentNumber i) out) ->
  In k (map (fun i : Incident => incidentNumber i) out) ->
  List.length (filter (fun i : Incident => text_eqb (incidentNumber i) k) out) = 1%nat.
Proof.
  induction out as [|i out IH]; simpl; [tauto|].
  intros Hnd Hin. inversion Hnd as [|? ? Hni Hnd']; subst.
  destruct (text_eqb_spec (incidentNumber i) k) as [E|Hne].
  - simpl. f_equal. apply length_zero_iff_nil.
    destruct (filter _ out) as [|j l] eqn:Hf; [reflexivity|]. exfalso.
    assert (Hj : In j (j :: l)) by (left; reflexivity).
    rewrite <- Hf in Hj. apply filter_In in Hj as [Hj Ej].
    apply text_eqb_eq in Ej. apply Hni. rewrite E, <- Ej.
    apply (in_map (fun i : Incident => incidentNumber i)). exact Hj.
  - apply IH; auto. destruct Hin; [contradiction|assumption].
Qed.

Lemma first_row_split k rows r :
  find (hasKey k) rows = Some r ->
  exists pre post, rows = pre ++ r :: post /\ incidentNumber r = k /\
                   forall r', In r' pre -> incidentNumber r' <> k.
Proof.
  intros H. apply find_first in H as (pre & post & -> & Hk & Hpre).
  exists pre, post. split; [reflexivity|]. split.
  - apply text_eqb_eq. exact Hk.
  - intros r' Hr'. apply text_eqb_neq. apply Hpre. exact Hr'.
Qed.

(** C1. For every row list, [consolidateData] returns the incident
    numbers of the input in first-appearance order, exactly one incident
    for every incident number that occurs in the input (so for every
    non-empty one) and none for any other number, and every incident
    carries the row of the first input row with its number: no later row
    overwrites a scalar field. *)
Theorem consolidate_one_per_number_first_row_wins (rows : list CallRow) :
  let out := consolidateData rows in
  map (fun i : Incident => incidentNumber i) out
    = firstSeen text_eqb (map incidentNumber rows)
  /\ (forall k, In k (map incidentNumber rows) ->
        List.length (filter (fun i : Incident => text_eqb (incidentNumber i) k) out)
          = 1%nat)
  /\ (forall i, In i out -> In (incidentNumber i) (map incidentNumber rows))
  /\ (forall i, In i out ->
        exists pre r post,
          rows = pre ++ r :: post
          /\ (forall r', In r' pre -> incidentNumber r' <> incidentNumber i)
          /\ incidentNumber r = incidentNumber i
          /\ base i = r).
Proof.
  intros out. subst out. split; [apply consolidateData_keys|]. split; [|split].
  - intros k Hk. apply count_key_NoDup; [apply consolidateData_NoDup|].
    rewrite consolidateData_keys.
    apply (firstSeen_In text_eqb text_eqb_spec). exact Hk.
  - intros i Hi.
    apply (firstSeen_In text_eqb text_eqb_spec).
    rewrite <- consolidateData_keys.
    apply (in_map (fun i : Incident => incidentNumber i)). exact Hi.
  - intros i Hi. apply consolidateData_In, incidentOf_Some in Hi.
    destruct Hi as (r & Hf & Ei).
    destruct (first_row_split _ _ _ Hf) as (pre & post & E & Hk & Hpre).
    exists pre, r, post. repeat split; auto.
    rewrite Ei. reflexivity.
Qed.

Lemma unitStream_In k rows u :
  In u (unitStream k rows) <->
  exists r, In r rows /\ incidentNumber r = k /\ unitNumber r = Val u /\ u <> "".
Proof.
  unfold unitStream, rowsOf. rewrite in_flat_map. split.
  - intros (r & Hr & Hu). apply filter_In in Hr as [Hr Hk].
    apply text_eqb_eq in Hk. exists r. unfold reportedUnit in Hu.
    destruct (unitNumber r) as [| |u']; simpl in Hu; try tauto.
    destruct u' as [|c u']; simpl in Hu; [tauto|].
    destruct Hu as [<-|[]]. repeat split; auto. discriminate.
  - intros (r & Hr & Hk & Hu & Hne). exists r. split.
    + apply filter_In. split; auto. apply text_eqb_eq. exact Hk.
    + unfold reportedUnit. rewrite Hu. destruct u; [congruence|]. left. reflexivity.
Qed.

(** C2. For every incident produced by [consolidateData]: [unitCount] is
    the length of [units]; [units] has no duplicate; [units] lists the
    unit numbers of the incident's rows in order of first appearance; a
    unit is listed exactly when some row of the incident carries it as a
    non-empty [unitNumber], so rows with a missing or empty [unitNumber]
    contribute nothing; and when every row of the incident lacks a
    [unitNumber], [units] is empty and [unitCount] is 0. *)
Theorem consolidate_units_distinct_in_first_seen_order
  (rows : list CallRow) (i : Incident) :
  In i (consolidateData rows) ->
  unitCount i = Z.of_nat (List.length (units i))
  /\ NoDup (units i)
  /\ units i = firstSeen String.eqb (unitStream (incidentNumber i) rows)
  /\ (forall u, In u (units i) <->
        exists r, In r rows /\ incidentNumber r = incidentNumber i
                  /\ unitNumber r = Val u /\ u <> "")
  /\ ((forall r, In r rows -> incidentNumber r = incidentNumber i ->
                 truthyText (unitNumber r) = false) ->
      units i = [] /\ unitCount i = 0%Z).
Proof.
  intros Hi. apply consolidateData_In in Hi.
  destruct (incidentOf_Some _ _ _ Hi) as (r & Hf & Ei).
  set (k := incidentNumber i) in *.
  assert (Eu : units i = firstSeen String.eqb (unitStream k rows))
    by (rewrite Ei; reflexivity).
  assert (Ec : unitCount i = Z.of_nat (List.length (units i)))
    by (rewrite Ei; reflexivity).
  assert (Hin : forall u, In u (units i) <->
              exists r, In r rows /\ incidentNumber r = k
                        /\ unitNumber r = Val u /\ u <> "").
  { intros u. rewrite Eu, (firstSeen_In String.eqb String.eqb_spec).
    apply unitStream_In. }
  split; [exact Ec|]. split; [|split; [exact Eu|split; [exact Hin|]]].
  - rewrite Eu. apply (firstSeen_NoDup String.eqb String.eqb_spec).
  - intros Hnone.
    assert (En : units i = []).
    { destruct (units i) as [|u us] eqn:E; [reflexivity|]. exfalso.
      destruct (proj1 (Hin u) (or_introl eq_refl)) as (r' & Hr' & Hk' & Hu & Hne).
      specialize (Hnone r' Hr' Hk'). rewrite Hu in Hnone. simpl in Hnone.
      destruct u; [congruence|discriminate]. }
    split; [exact En|]. rewrite Ec, En. reflexivity.
Qed.

(** C9, as the code has it. The incident numbers that count as absent are
    three different keys: missing, [null] and the empty string. For each
    of them that occurs in the input there is exactly one incident with
    that number; it carries the first row with that number and the
    distinct units of all rows with that number, in first-appearance
    order. Such rows are neither dropped nor turned into one incident per
    row. *)
Theorem absent_numbers_grouped_per_value (rows : list CallRow) (k : text) :
  absentNumber k = true ->
  In k (map incidentNumber rows) ->
  exists (i : Incident) (r : CallRow),
    In i (consolidateData rows)
    /\ incidentNumber i = k
    /\ (forall j : Incident,
          In j (consolidateData rows) -> incidentNumber j = k -> j = i)
    /\ find (hasKey k) rows = Some r
    /\ base i = r
    /\ units i = firstSeen String.eqb (unitStream k rows)
    /\ unitCount i = Z.of_nat (List.length (units i)).
Proof.
  intros _ Hk.
  apply (firstSeen_In text_eqb text_eqb_spec) in Hk.
  rewrite <- consolidateData_keys in Hk.
  apply in_map_iff in Hk as (i & Ek & Hi).
  pose proof (consolidateData_In _ _ Hi) as Hio. rewrite Ek in Hio.
  destruct (incidentOf_Some _ _ _ Hio) as (r & Hf & Ei).
  exists i, r. split; [exact Hi|]. split; [exact Ek|]. split.
  - intros j Hj Ej. apply consolidateData_In in Hj. rewrite Ej in Hj.
    congruence.
  - split; [exact Hf|]. rewrite Ei. simpl. repeat split.
Qed.

Lemma absent_numbers_grouped_per_value_witness :
  absentNumber Undefined = true
  /\ In Undefined (map incidentNumber
                       [Examples.rowEmptyNumber; Examples.rowNoNumber;
                        Examples.rowNoNumber'])
  /\ exists (i : Incident) (r : CallRow),
       In i (consolidateData [Examples.rowEmptyNumber; Examples.rowNoNumber;
                              Examples.rowNoNumber'])
       /\ incidentNumber i = Undefined
       /\ (forall j : Incident,
             In j (consolidateData [Examples.rowEmptyNumber;
                                    Examples.rowNoNumber;
                                    Examples.rowNoNumber']) ->
             incidentNumber j = Undefined -> j = i)
       /\ find (hasKey Undefined)
               [Examples.rowEmptyNumber; Examples.rowNoNumber;
                Examples.rowNoNumber'] = Some r
       /\ base i = r
       /\ units i = firstSeen String.eqb
                      (unitStream Undefined
                         [Examples.rowEmptyNumber; Examples.rowNoNumber;
                          Examples.rowNoNumber'])
       /\ unitCount i = Z.of_nat (List.length (units i)).
Proof.
  split; [reflexivity|]. split; [simpl; auto|].
  apply absent_numbers_grouped_per_value; [reflexivity | simpl; auto].
Defined.

(** C9, as stated, fails: a row with the empty string as incident number
    and a row without incident number end up in two incidents, and no
    incident holds the units of both. *)
Lemma empty_and_missing_number_not_merged :
  let rows := [Examples.rowEmptyNumber; Examples.rowNoNumber] in
  Forall (fun r => absentNumber (incidentNumber r) = true) rows
  /\ consolidateData rows
     = [mkIncident Examples.rowEmptyNumber ["1"] 1;
        mkIncident Examples.rowNoNumber ["2"] 1]
  /\ ~ (exists i : Incident,
          In i (consolidateData rows) /\ In "1" (units i) /\ In "2" (units i)).
Proof.
  simpl. split; [repeat constructor|]. split; [reflexivity|].
  intros (i & Hi & H1 & H2). vm_compute in Hi.
  destruct Hi as [<-|[<-|[]]]; simpl in *.
  - destruct H2 as [H2|[]]. discriminate.
  - destruct H1 as [H1|[]]. discriminate.
Qed.

Lemma consolidate_units_distinct_in_first_seen_order_witness :
  In Examples.incidentA1 (consolidateData Examples.exampleRows)
  /\ unitCount Examples.incidentA1
     = Z.of_nat (List.length (units Examples.incidentA1))
  /\ NoDup (units Examples.incidentA1)
  /\ units Examples.incidentA1
     = firstSeen String.eqb (unitStream (Str "A1") Examples.exampleRows).
Proof.
  assert (H : In Examples.incidentA1 (consolidateData Examples.exampleRows))
    by (left; reflexivity).
  split; [exact H|].
  destruct (consolidate_units_distinct_in_first_seen_order
              Examples.exampleRows Examples.incidentA1 H) as (A & B & C & _).
  split; [exact A|]. split; [exact B|exact C].
Defined.

End Consolidation.

(* ===================================================================== *)
(** ** Filtering                                                          *)
(* ===================================================================== *)

Module StringFacts.

Lemma startsWith_spec s p :
  startsWith s p = true <-> exists post, s = (p ++ post)%string.
Proof.
  revert s. induction p as [|b p IH]; intros s; simpl.
  - split; [intros _; exists s; reflexivity | intros _; destruct s; reflexivity].
  - destruct s as [|a s]; simpl.
    + split; [discriminate | intros [post H]; discriminate].
    + rewrite andb_true_iff, IH. split.
      * intros [E [post ->]]. apply Ascii.eqb_eq in E. subst. exists post.
        reflexivity.
      * intros [post H]. injection H as -> ->. split.
        -- apply Ascii.eqb_refl.
        -- exists post. reflexivity.
Qed.

Lemma includes_nil p : includes "" p = startsWith "" p.
Proof. cbn [includes]. apply orb_false_r. Qed.

Lemma includes_cons a s p :
  includes (String a s) p = startsWith (String a s) p || includes s p.
Proof. reflexivity. Qed.

(** [includes] decides occurrence. *)
Lemma includes_spec s p : includes s p = true <-> Substring p s.
Proof.
  unfold Substring. induction s as [|a s IH].
  - rewrite includes_nil, startsWith_spec. split.
    + intros [post H]. exists EmptyString, post. exact H.
    + intros (pre & post & H). destruct pre; [|discriminate].
      exists post. exact H.
  - rewrite includes_cons, orb_true_iff, startsWith_spec, IH. split.
    + intros [[post H]|(pre & post & H)].
      * exists EmptyString, post. exact H.
      * exists (String a pre), post. simpl. rewrite H. reflexivity.
    + intros (pre & post & H). destruct pre as [|a' pre]; simpl in H.
      * left. exists post. exact H.
      * right. injection H as _ H. exists pre, post. exact H.
Qed.

(** [join] builds the separated concatenation. *)
Lemma join_concat sep l : join sep l = String.concat sep l.
Proof.
  induction l as [|x l IH]; [reflexivity|].
  destruct l as [|y l]; [reflexivity|].
  cbn [join String.concat]. cbn [join String.concat] in IH.
  rewrite IH. reflexivity.
Qed.

Lemma isSpace_lowerChar c : isSpace (lowerChar c) = isSpace c.
Proof.
  destruct c as [[] [] [] [] [] [] [] []]; reflexivity.
Qed.

Lemma isEmpty_asciiToLowerCase s : isEmpty (asciiToLowerCase s) = isEmpty s.
Proof. destruct s; reflexivity. Qed.

Lemma trimStart_asciiToLowerCase s :
  trimStart (asciiToLowerCase s) = asciiToLowerCase (trimStart s).
Proof.
  induction s as [|c s IH]; simpl; [reflexivity|].
  rewrite isSpace_lowerChar. destruct (isSpace c); auto.
Qed.

Lemma trimEnd_asciiToLowerCase s :
  trimEnd (asciiToLowerCase s) = asciiToLowerCase (trimEnd s).
Proof.
  induction s as [|c s IH]; simpl; [reflexivity|].
  rewrite isSpace_lowerChar, IH, isEmpty_asciiToLowerCase.
  destruct (isSpace c && isEmpty (trimEnd s)); reflexivity.
Qed.

(** The ASCII folding and trimming commute. *)
Lemma asciiTrim_asciiToLowerCase s :
  asciiTrim (asciiToLowerCase s) = asciiToLowerCase (asciiTrim s).
Proof.
  unfold asciiTrim.
  rewrite trimStart_asciiToLowerCase, trimEnd_asciiToLowerCase. reflexivity.
Qed.

Lemma truthyString_false s : truthyString s = false <-> s = "".
Proof. destruct s; cbn; split; intros H; (reflexivity || discriminate H). Qed.

Lemma orString_empty x : orString x "" = textOf x.
Proof. destruct x as [| |[|a s]]; reflexivity. Qed.

Lemma orText_resolvedLocation (c : CallRow) :
  orString (orText (address c) (location c)) "" = resolvedLocation c.
Proof.
  unfold resolvedLocation, orText.
  destruct (address c) as [| |[|a s]]; simpl; try apply orString_empty.
  reflexivity.
Qed.

End StringFacts.

Module Filter.
Import ListFacts StringFacts App.

Section InBrowser.
Context {browser : Browser}.

(** The callback of the filter decides the two predicates. *)
Lemma callPasses_spec selected searchText (c : Incident) :
  callPasses selected (trim (toLowerCase searchText)) c = true <->
  DivisionPredicate selected c /\ SearchPredicate searchText c.
Proof.
  unfold callPasses, DivisionPredicate, SearchPredicate, SearchMatch.
  set (q := trim (toLowerCase searchText)).
  rewrite orText_resolvedLocation, !orString_empty, join_concat.
  destruct (String.eqb_spec selected "all") as [Ea|Ha]; simpl.
  - rewrite <- !includes_spec, <- (truthyString_false q).
    destruct (truthyString q); [|intuition].
    destruct (includes _ q), (includes _ q), (includes _ q), (includes _ q);
      simpl; intuition congruence.
  - destruct (text_eqb_spec (division c) (Val selected)) as [Ed|Hd]; simpl.
    + rewrite <- !includes_spec, <- (truthyString_false q).
      destruct (truthyString q); [|intuition].
      destruct (includes _ q), (includes _ q), (includes _ q), (includes _ q);
        simpl; intuition congruence.
    + intuition congruence.
Qed.

Lemma filter_by_decision {A} (p q : A -> bool) l :
  (forall x, p x = true <-> q x = true) -> filter p l = filter q l.
Proof.
  intros H. apply filter_ext. intros x. apply eq_true_iff_eq, H.
Qed.

(** C3. In every browser and for every state, [getFilteredCalls]
    returns the consolidated incidents that satisfy both the division
    predicate (the selected value is "all" or equals the incident's
    division exactly) and the search predicate (the case-folded and
    trimmed search text is empty or occurs in the case-folded incident
    number, resolved location, nature of call or units joined by single
    spaces): the result is the input with the other incidents left out,
    in input order and with the incidents themselves unchanged, and it
    is the list that any decision procedure for the two predicates
    selects.  Case folding and trimming are the browser's
    [toLowerCase] and [trim], whatever they do to a text; the code
    folds first and trims then, and where the two commute on the search
    text the query is as well the trimmed text, folded. *)
Theorem filter_selects_exactly_the_matching_incidents (st : State) :
  let selected := divisionValue (el st) in
  let searchText := searchValue (el st) in
  Sublist (getFilteredCalls st) (consolidatedCalls st)
  /\ (forall c : Incident,
        In c (getFilteredCalls st) <->
        In c (consolidatedCalls st)
        /\ DivisionPredicate selected c /\ SearchPredicate searchText c)
  /\ (forall decide : Incident -> bool,
        (forall c, decide c = true <->
                   DivisionPredicate selected c /\ SearchPredicate searchText c) ->
        getFilteredCalls st = filter decide (consolidatedCalls st))
  /\ (toLowerCase (trim searchText) = trim (toLowerCase searchText) ->
      forall c : Incident,
        In c (getFilteredCalls st) <->
        In c (consolidatedCalls st)
        /\ DivisionPredicate selected c
        /\ SearchMatch (toLowerCase (trim searchText)) c).
Proof.
  intros selected searchText. unfold getFilteredCalls.
  fold selected searchText. split; [apply filter_Sublist|].
  split; [|split].
  - intros c. rewrite filter_In, callPasses_spec. reflexivity.
  - intros decide Hd. apply filter_by_decision. intros c.
    rewrite callPasses_spec, Hd. reflexivity.
  - intros Hcomm c. rewrite filter_In, callPasses_spec.
    unfold SearchPredicate. rewrite Hcomm. reflexivity.
Qed.

(** The no-op filter returns the incidents unchanged. *)
Lemma filter_all_without_search_is_identity st :
  divisionValue (el st) = "all" ->
  trim (toLowerCase (searchValue (el st))) = "" ->
  getFilteredCalls st = consolidatedCalls st.
Proof.
  intros Hd Hs. unfold getFilteredCalls. rewrite Hd, Hs. simpl.
  apply forallb_filter_id, forallb_forall. intros c _. reflexivity.
Qed.

End InBrowser.

(** The worked example: division "C" and the search text "fire" each
    select incident A1 alone. *)
Example filter_example_division :
  getFilteredCalls (browser := Examples.sampleBrowser)
    (withEl (setFilterInputs "C" "") Examples.syncedState)
  = [Examples.incidentA1].
Proof. vm_compute. reflexivity. Qed.

Example filter_example_search :
  getFilteredCalls (browser := Examples.sampleBrowser)
    (withEl (setFilterInputs "all" " FIRE ") Examples.syncedState)
  = [Examples.incidentA1].
Proof. vm_compute. reflexivity. Qed.

(** The units of A1 are searched as the text "101 102". *)
Example filter_example_units :
  getFilteredCalls (browser := Examples.sampleBrowser)
    (withEl (setFilterInputs "all" "1 1") Examples.syncedState)
  = [Examples.incidentA1]
  /\ getFilteredCalls (browser := Examples.sampleBrowser)
       (withEl (setFilterInputs "all" "101102") Examples.syncedState)
     = [].
Proof. split; vm_compute; reflexivity. Qed.

End Filter.

(* ===================================================================== *)
(** ** Marker synchronisation                                             *)
(* ===================================================================== *)

Module MarkerFacts.
Import ListFacts MapFacts App.

Lemma markersFrom_popupOf n cs : map popupOf (markersFrom n cs) = cs.
Proof.
  revert n. induction cs as [|c cs IH]; intros n; simpl; [reflexivity|].
  rewrite IH. reflexivity.
Qed.

Lemma markersFrom_ids n cs :
  map markerId (markersFrom n cs) = seq n (List.length cs).
Proof.
  revert n. induction cs as [|c cs IH]; intros n; simpl; [reflexivity|].
  rewrite IH. reflexivity.
Qed.

Lemma markersFrom_fresh n cs m :
  In m (markersFrom n cs) -> (n <= markerId m)%nat.
Proof.
  intros H. apply (in_map markerId) in H. rewrite markersFrom_ids in H.
  apply in_seq in H. lia.
Qed.

Lemma markersFrom_In n cs m :
  In m (markersFrom n cs) ->
  In (popupOf m) cs /\ markerLat m = lat (popupOf m)
  /\ markerLon m = lon (popupOf m).
Proof.
  revert n. induction cs as [|c cs IH]; intros n; simpl; [tauto|].
  intros [<-|H]; [simpl; auto|]. destruct (IH _ H) as (A & B & C). auto.
Qed.

Lemma markersFrom_of n cs c :
  In c cs -> exists m, In m (markersFrom n cs) /\ popupOf m = c.
Proof.
  revert n. induction cs as [|c' cs IH]; intros n; simpl; [tauto|].
  intros [->|H].
  - exists (markerFor n c). split; [left|]; reflexivity.
  - destruct (IH (S n) H) as (m & Hm & E). exists m. auto.
Qed.

(** The loop of [updateMarkers] touches the layer, the lookup table and
    the allocation counter only. *)
Lemma fold_addMarker_frame cs st :
  let st' := fold_left addMarker cs st in
  allCallsRaw st' = allCallsRaw st
  /\ consolidatedCalls st' = consolidatedCalls st
  /\ firstLoad st' = firstLoad st
  /\ el st' = el st /\ fx st' = fx st
  /\ nextLayerId st' = (nextLayerId st + List.length cs)%nat.
Proof.
  revert st. induction cs as [|c cs IH]; intros st; simpl.
  - repeat split; lia.
  - destruct (IH (addMarker st c)) as (A & B & C & D & E & F).
    simpl in *. repeat split; try assumption. lia.
Qed.

Lemma fold_addMarker_layer cs st :
  markerLayer (fold_left addMarker cs st) =
  markerLayer st ++ markersFrom (nextLayerId st) cs.
Proof.
  revert st. induction cs as [|c cs IH]; intros st; simpl.
  - symmetry. apply app_nil_r.
  - rewrite IH. simpl. rewrite <- app_assoc. reflexivity.
Qed.

Lemma mapHas_snoc {V} k k' (v : V) m :
  mapHas k (m ++ [(k', v)]) = mapHas k m || text_eqb k' k.
Proof.
  unfold mapHas. rewrite mapGet_snoc.
  destruct (mapGet k m); simpl; [reflexivity|].
  destruct (text_eqb k' k); reflexivity.
Qed.

Lemma fold_addMarker_table cs st :
  NoDup (map (fun c : Incident => incidentNumber c) cs) ->
  (forall c : Incident, In c cs ->
     mapHas (incidentNumber c) (markersByIncident st) = false) ->
  markersByIncident (fold_left addMarker cs st) =
  markersByIncident st ++ map keyed (markersFrom (nextLayerId st) cs).
Proof.
  revert st. induction cs as [|c cs IH]; intros st Hnd Hnew; simpl.
  - symmetry. apply app_nil_r.
  - inversion Hnd as [|? ? Hni Hnd']; subst.
    rewrite IH; auto.
    + simpl. rewrite mapSet_new by (apply Hnew; left; reflexivity).
      rewrite <- app_assoc. reflexivity.
    + intros c' Hc'. simpl.
      rewrite mapSet_new by (apply Hnew; left; reflexivity).
      rewrite mapHas_snoc, (Hnew c') by (right; exact Hc'). simpl.
      apply text_eqb_neq. intros E. apply Hni. rewrite E.
      apply (in_map (fun c : Incident => incidentNumber c)). exact Hc'.
Qed.

Lemma mapGet_In {V} k (v : V) m :
  NoDup (mapKeys m) -> In (k, v) m -> mapGet k m = Some v.
Proof.
  unfold mapKeys. induction m as [|[k0 v0] m IH]; simpl; [tauto|].
  intros Hnd [E|Hin].
  - injection E as -> ->. rewrite text_eqb_refl. reflexivity.
  - inversion Hnd as [|? ? Hni Hnd']; subst.
    destruct (text_eqb_spec k0 k) as [->|]; [|auto].
    exfalso. apply Hni. apply (in_map fst) in Hin. exact Hin.
Qed.

Lemma keyed_keys n cs :
  mapKeys (map keyed (markersFrom n cs)) =
  map (fun c : Incident => incidentNumber c) cs.
Proof.
  unfold mapKeys. rewrite map_map. simpl.
  rewrite <- (markersFrom_popupOf n cs) at 2. rewrite map_map. reflexivity.
Qed.

(** [updateMarkers] in closed form. *)
Lemma updateMarkers_closed visible st :
  NoDup (map (fun c : Incident => incidentNumber c) visible) ->
  let mapped := filter (fun c : Incident => hasCoordinates c) visible in
  let st' := updateMarkers visible st in
  markerLayer st' = markersFrom (nextLayerId st) mapped
  /\ markersByIncident st' = map keyed (markerLayer st')
  /\ NoDup (map (fun c : Incident => incidentNumber c) mapped).
Proof.
  intros Hnd mapped st'.
  assert (Hm : NoDup (map (fun c : Incident => incidentNumber c) mapped)).
  { eapply NoDup_map_Sublist; [apply filter_Sublist | exact Hnd]. }
  subst st'. unfold updateMarkers. fold mapped.
  rewrite fold_addMarker_layer, fold_addMarker_table; auto.
Qed.

Lemma updateMarkers_nextLayerId visible st :
  nextLayerId (updateMarkers visible st) =
  (nextLayerId st
   + List.length (filter (fun c : Incident => hasCoordinates c) visible))%nat.
Proof.
  unfold updateMarkers.
  destruct (fold_addMarker_frame
              (filter (fun c : Incident => hasCoordinates c) visible)
              (clearMarkers st)) as (_ & _ & _ & _ & _ & H).
  exact H.
Qed.

(** Every marker object left by [updateMarkers] is a new one, and the
    allocation counter is past all of them. *)
Lemma updateMarkers_allocated visible st :
  NoDup (map (fun c : Incident => incidentNumber c) visible) ->
  forall m,
    In m (markerLayer (updateMarkers visible st))
    \/ In m (mapValues (markersByIncident (updateMarkers visible st))) ->
    (nextLayerId st <= markerId m < nextLayerId (updateMarkers visible st))%nat.
Proof.
  intros Hnd m Hin.
  destruct (updateMarkers_closed visible st Hnd) as (Hl & Ht & _).
  assert (Hin' : In m (markerLayer (updateMarkers visible st))).
  { destruct Hin as [H|H]; [exact H|]. rewrite Ht in H.
    unfold mapValues in H. rewrite map_map in H. simpl in H.
    rewrite map_id in H. exact H. }
  rewrite Hl in Hin'. apply (in_map markerId) in Hin'.
  rewrite markersFrom_ids in Hin'. apply in_seq in Hin'.
  rewrite updateMarkers_nextLayerId. lia.
Qed.

(** The marker of a visible incident that has both coordinates. *)
Lemma updateMarkers_marker_of visible st (c : Incident) :
  NoDup (map (fun c : Incident => incidentNumber c) visible) ->
  In c visible -> hasCoordinates c = true ->
  exists m,
    mapGet (incidentNumber c) (markersByIncident (updateMarkers visible st))
      = Some m
    /\ In m (markerLayer (updateMarkers visible st)) /\ popupOf m = c
    /\ markerLat m = lat c /\ markerLon m = lon c.
Proof.
  intros Hnd Hc Hco.
  destruct (updateMarkers_closed visible st Hnd) as (Hl & Ht & Hm).
  set (mapped := filter (fun c : Incident => hasCoordinates c) visible) in *.
  assert (Hcm : In c mapped) by (apply filter_In; auto).
  destruct (markersFrom_of (nextLayerId st) mapped c Hcm) as (m & Hin & E).
  destruct (markersFrom_In (nextLayerId st) mapped m Hin) as (_ & Hlat & Hlon).
  rewrite <- Hl in Hin. rewrite E in Hlat, Hlon. exists m. repeat split; auto.
  apply mapGet_In.
  - rewrite Ht, Hl, keyed_keys. exact Hm.
  - rewrite Ht. apply in_map_iff. exists m. split; [|exact Hin].
    unfold keyed. rewrite E. reflexivity.
Qed.

End MarkerFacts.

Module Markers.
Import ListFacts MapFacts App MarkerFacts.

Lemma NoDup_map_injective {A B} (f : A -> B) l x y :
  NoDup (map f l) -> In x l -> In y l -> f x = f y -> x = y.
Proof.
  induction l as [|a l IH]; simpl; [tauto|].
  intros Hnd Hx Hy E. inversion Hnd as [|? ? Hni Hnd']; subst.
  destruct Hx as [->|Hx], Hy as [->|Hy]; auto.
  - exfalso. apply Hni. rewrite E. apply in_map. exact Hy.
  - exfalso. apply Hni. rewrite <- E. apply in_map. exact Hx.
Qed.

Lemma mapValues_keyed ms : mapValues (map keyed ms) = ms.
Proof. unfold mapValues. rewrite map_map. simpl. apply map_id. Qed.

(** C4. A call of [updateMarkers] on visible incidents with distinct
    incident numbers, in a state whose marker objects were all allocated
    earlier, leaves a marker layer and a lookup table that hold exactly
    one marker per visible incident with both coordinates non-null, in
    order, placed at the incident's coordinates and keyed by its incident
    number; a visible incident that lacks a coordinate has no marker and
    no lookup entry; no marker object of the state before the call is in
    the layer or in the table afterwards; and the allocation invariant
    holds again for the next call. *)
Theorem updateMarkers_one_marker_per_mapped_incident
  (visible : list Incident) (st : State) :
  NoDup (map (fun c : Incident => incidentNumber c) visible) ->
  markersAllocated st ->
  let st' := updateMarkers visible st in
  let mapped := filter (fun c : Incident => hasCoordinates c) visible in
  map popupOf (markerLayer st') = mapped
  /\ NoDup (map markerId (markerLayer st'))
  /\ markersByIncident st' = map keyed (markerLayer st')
  /\ (forall c : Incident, In c visible -> hasCoordinates c = true ->
        exists m,
          mapGet (incidentNumber c) (markersByIncident st') = Some m
          /\ In m (markerLayer st') /\ popupOf m = c
          /\ markerLat m = lat c /\ markerLon m = lon c
          /\ forall m', In m' (markerLayer st') -> popupOf m' = c -> m' = m)
  /\ (forall c : Incident, In c visible -> hasCoordinates c = false ->
        mapGet (incidentNumber c) (markersByIncident st') = None
        /\ forall m, In m (markerLayer st') -> popupOf m <> c)
  /\ (forall m,
        In m (markerLayer st) \/ In m (mapValues (markersByIncident st)) ->
        ~ In m (markerLayer st')
        /\ ~ In m (mapValues (markersByIncident st')))
  /\ markersAllocated st'.
Proof.
  intros Hnd Halloc st' mapped.
  destruct (updateMarkers_closed visible st Hnd) as (Hl & Ht & Hm).
  fold st' mapped in Hl, Ht, Hm.
  assert (Hpop : map popupOf (markerLayer st') = mapped)
    by (rewrite Hl; apply markersFrom_popupOf).
  assert (Hkeys : mapKeys (markersByIncident st')
                  = map (fun c : Incident => incidentNumber c) mapped)
    by (rewrite Ht, Hl; apply keyed_keys).
  assert (Hmapped : NoDup mapped) by (eapply NoDup_map_inv; exact Hm).
  assert (Hvals : mapValues (markersByIncident st') = markerLayer st')
    by (rewrite Ht; apply mapValues_keyed).
  assert (Hfresh : forall m, In m (markerLayer st') ->
                             (nextLayerId st <= markerId m)%nat).
  { intros m Hin. rewrite Hl in Hin. eapply markersFrom_fresh; eauto. }
  split; [exact Hpop|]. split; [|split; [exact Ht|]].
  { rewrite Hl, markersFrom_ids. apply seq_NoDup. }
  split; [|split; [|split]].
  - intros c Hc Hco.
    destruct (updateMarkers_marker_of visible st c Hnd Hc Hco)
      as (m & Hg & Hin & E & Hlat & Hlon).
    exists m. repeat split; auto.
    intros m' Hin' E'.
    apply (NoDup_map_injective popupOf (markerLayer st')); auto.
    + rewrite Hpop. exact Hmapped.
    + congruence.
  - intros c Hc Hco. split.
    + apply mapGet_notin. rewrite Hkeys. intros Hk.
      apply in_map_iff in Hk as (c' & Ek & Hc').
      apply filter_In in Hc' as [Hc' Hco'].
      assert (c' = c).
      { apply (NoDup_map_injective (fun c : Incident => incidentNumber c)
                                   visible); auto. }
      congruence.
    + intros m Hin E. apply (in_map popupOf) in Hin. rewrite Hpop, E in Hin.
      apply filter_In in Hin as [_ Hin]. congruence.
  - intros m Hold. specialize (Halloc m Hold). rewrite Hvals.
    assert (~ In m (markerLayer st')).
    { intros Hin. apply Hfresh in Hin. lia. }
    auto.
  - intros m Hin.
    apply (updateMarkers_allocated visible st Hnd m Hin).
Qed.

Lemma updateMarkers_one_marker_per_mapped_incident_witness :
  NoDup (map (fun c : Incident => incidentNumber c)
             (getFilteredCalls (browser := Examples.sampleBrowser)
                               Examples.syncedState))
  /\ markersAllocated Examples.syncedState
  /\ map markerId (markerLayer Examples.syncedState) = [0%nat]
  /\ map popupOf
         (markerLayer (updateMarkers (getFilteredCalls (browser := Examples.sampleBrowser)
                               Examples.syncedState)
                                     Examples.syncedState))
     = filter (fun c : Incident => hasCoordinates c)
              (getFilteredCalls (browser := Examples.sampleBrowser)
                               Examples.syncedState)
  /\ forall m,
       In m (markerLayer Examples.syncedState) ->
       ~ In m (markerLayer
                 (updateMarkers (getFilteredCalls (browser := Examples.sampleBrowser)
                               Examples.syncedState)
                                Examples.syncedState)).
Proof.
  assert (Hnd : NoDup (map (fun c : Incident => incidentNumber c)
                           (getFilteredCalls (browser := Examples.sampleBrowser)
                               Examples.syncedState))).
  { vm_compute. repeat constructor; simpl; intuition discriminate. }
  assert (Hal : markersAllocated Examples.syncedState).
  { intros m [H|H]; vm_compute in H; destruct H as [<-|[]];
      vm_compute; repeat constructor. }
  split; [exact Hnd|]. split; [exact Hal|].
  split; [vm_compute; reflexivity|].
  destruct (updateMarkers_one_marker_per_mapped_incident
              (getFilteredCalls (browser := Examples.sampleBrowser)
                               Examples.syncedState) Examples.syncedState
              Hnd Hal) as (A & _ & _ & _ & _ & F & _).
  split; [exact A|]. intros m Hm. apply (F m). left. exact Hm.
Defined.

End Markers.

(* ===================================================================== *)
(** ** What each routine of app.js leaves untouched                       *)
(* ===================================================================== *)

Module AppFacts.
Import ListFacts MapFacts App MarkerFacts.

Section Frames.
Context {browser : Browser}.

Lemma updateMarkers_frame visible st :
  allCallsRaw (updateMarkers visible st) = allCallsRaw st
  /\ consolidatedCalls (updateMarkers visible st) = consolidatedCalls st
  /\ firstLoad (updateMarkers visible st) = firstLoad st
  /\ el (updateMarkers visible st) = el st
  /\ fx (updateMarkers visible st) = fx st.
Proof.
  unfold updateMarkers.
  destruct (fold_addMarker_frame
              (filter (fun c : Incident => hasCoordinates c) visible)
              (clearMarkers st)) as (A & B & C & D & E & _).
  auto.
Qed.

Lemma renderList_eq calls st :
  exists n v, renderList calls st = withEl (setList n v) st.
Proof. unfold renderList. destruct calls; eauto. Qed.

(** [render] rewrites the markers, the list and its counter only. *)
Lemma render_frame st :
  allCallsRaw (render st) = allCallsRaw st
  /\ consolidatedCalls (render st) = consolidatedCalls st
  /\ firstLoad (render st) = firstLoad st
  /\ fx (render st) = fx st
  /\ exists n v, el (render st) = setList n v (el st).
Proof.
  unfold render.
  destruct (renderList_eq (getFilteredCalls st)
                          (updateMarkers (getFilteredCalls st) st))
    as (n & v & ->).
  destruct (updateMarkers_frame (getFilteredCalls st) st)
    as (A & B & C & D & E).
  simpl. rewrite D. eauto 10.
Qed.

Lemma updateStats_frame data incs st :
  allCallsRaw (updateStats data incs st) = allCallsRaw st
  /\ consolidatedCalls (updateStats data incs st) = consolidatedCalls st
  /\ markerLayer (updateStats data incs st) = markerLayer st
  /\ markersByIncident (updateStats data incs st) = markersByIncident st
  /\ firstLoad (updateStats data incs st) = firstLoad st
  /\ nextLayerId (updateStats data incs st) = nextLayerId st
  /\ fx (updateStats data incs st) = fx st
  /\ refreshDisabled (el (updateStats data incs st)) = refreshDisabled (el st).
Proof.
  unfold updateStats.
  destruct (error data) as [| |e]; try destruct (truthyString e);
    repeat split; reflexivity.
Qed.

Lemma focusCall_frame k st :
  firstLoad (focusCall k st) = firstLoad st
  /\ fitBoundsLog (fx (focusCall k st)) = fitBoundsLog (fx st)
  /\ timeouts (fx (focusCall k st)) = timeouts (fx st)
  /\ el (focusCall k st) = el st.
Proof.
  unfold focusCall. destruct (find _ _) as [call|]; [|auto].
  destruct (latAndLon call); [|auto].
  destruct (mapGet _ _); auto.
Qed.

Lemma filter_negb_length {A} (p : A -> bool) l :
  (List.length (filter p l) + List.length (filter (fun x => negb (p x)) l)
   = List.length l)%nat.
Proof.
  induction l as [|a l IH]; simpl; [reflexivity|].
  destruct (p a); simpl; lia.
Qed.

(** The counters [updateStats] writes. *)
Lemma updateStats_counters data incs st :
  counters (el (updateStats data incs st)) =
  (Z.of_nat (List.length incs),
   Z.of_nat (List.length (countedMapped incs)),
   Z.of_nat (List.length (countedUnmapped incs))).
Proof.
  unfold counters, countedMapped, countedUnmapped, updateStats.
  pose proof (filter_negb_length (fun c : Incident => latAndLon c) incs) as H.
  assert (E : (Z.of_nat (List.length incs)
               - Z.of_nat (List.length
                             (filter (fun c : Incident => latAndLon c) incs)))%Z
              = Z.of_nat (List.length
                            (filter (fun c : Incident => negb (latAndLon c))
                                    incs))) by lia.
  destruct (error data) as [| |e]; try destruct (truthyString e); simpl;
    rewrite E; reflexivity.
Qed.

(** The state a parsed poll has reached when the fit or [render] is
    due. *)
Lemma prepared_frame data st :
  let st1 := prepared data st in
  allCallsRaw st1 = rowsOfSnapshot data
  /\ consolidatedCalls st1 = consolidateData (rowsOfSnapshot data)
  /\ markerLayer st1 = markerLayer st
  /\ markersByIncident st1 = markersByIncident st
  /\ firstLoad st1 = false
  /\ nextLayerId st1 = nextLayerId st
  /\ fx st1 = fx st.
Proof.
  unfold prepared, updateStats.
  destruct (error data) as [| |e]; try destruct (truthyString e); simpl;
    destruct (firstLoad st) eqn:E; simpl; repeat split; auto.
Qed.

Lemma prepared_elements data st :
  let st1 := prepared data st in
  refreshDisabled (el st1) = refreshDisabled (el st)
  /\ refreshSpinning (el st1) = refreshSpinning (el st)
  /\ callList (el st1) = callList (el st)
  /\ listCount (el st1) = listCount (el st)
  /\ searchValue (el st1) = searchValue (el st)
  /\ divisionOptions (el st1)
     = (if firstLoad st
        then parsedOptions (divisionsOf (consolidateData (rowsOfSnapshot data)))
        else divisionOptions (el st))
  /\ (firstLoad st = false -> divisionValue (el st1) = divisionValue (el st)).
Proof.
  unfold prepared, updateStats.
  destruct (error data) as [| |e]; try destruct (truthyString e); simpl;
    destruct (firstLoad st) eqn:E; simpl; repeat split; auto; discriminate.
Qed.

Lemma prepared_counters data st :
  counters (el (prepared data st)) =
  let incs := consolidateData (rowsOfSnapshot data) in
  (Z.of_nat (List.length incs),
   Z.of_nat (List.length (countedMapped incs)),
   Z.of_nat (List.length (countedUnmapped incs))).
Proof.
  unfold prepared. cbv zeta.
  set (raw := rowsOfSnapshot data).
  destruct (firstLoad _).
  - change (counters (el (setFirstLoad false (syncDivisions ?s))))
      with (counters (el s)).
    apply updateStats_counters.
  - apply updateStats_counters.
Qed.

(** The [try] block of a parsed poll: it throws exactly when the
    first-load flag is set and Leaflet throws on the fit; otherwise it
    fits the view when the flag is set and an incident passes the
    test, and renders. *)
Lemma fetchCalls_body_eq data st :
  fetchCalls_body data st =
  if firstLoad st && fitFails data then Throw (prepared data st)
  else Normal (render (fitted data st)).
Proof.
  unfold fetchCalls_body, fitted, prepared, fitFails, fitOf, fitPoints,
    fitIncidents, andThen, fitBounds.
  fold (rowsOfSnapshot data). set (raw := rowsOfSnapshot data).
  cbv zeta.
  assert (Hf : forall s, firstLoad (updateStats data (consolidateData raw) s)
                         = firstLoad s) by (intros s; apply updateStats_frame).
  cbn [consolidatedCalls setCalls].
  rewrite Hf. cbn [firstLoad setCalls].
  destruct (firstLoad st) eqn:E; [|reflexivity].
  set (st1 := updateStats data (consolidateData raw) _).
  assert (Hc : consolidatedCalls (setFirstLoad false (syncDivisions st1))
               = consolidateData raw).
  { subst st1. cbn [setFirstLoad syncDivisions withEl consolidatedCalls].
    destruct (updateStats_frame data (consolidateData raw)
                (setCalls raw (consolidateData raw) st)) as (_ & H & _).
    exact H. }
  rewrite Hc.
  destruct (filter _ (consolidateData raw)); [reflexivity|].
  cbn [andb]. destruct (fitBoundsThrows _); reflexivity.
Qed.

(** What a parsed poll leaves when the [try] block has ended, by its
    end or by the [catch] block. *)
Lemma fetchCalls_tried_frame data st :
  let st' := tryCatch (fetchCalls_body data st) fetchCalls_catch in
  firstLoad st' = false
  /\ fitBoundsLog (fx st') =
     fitBoundsLog (fx st) ++ (if firstLoad st then fitOf data else [])
  /\ timeouts (fx st') = timeouts (fx st)
  /\ refreshDisabled (el st') = refreshDisabled (el st)
  /\ allCallsRaw st' = rowsOfSnapshot data
  /\ consolidatedCalls st' = consolidateData (rowsOfSnapshot data).
Proof.
  intros st'. subst st'. rewrite fetchCalls_body_eq.
  destruct (prepared_frame data st) as (Pa & Pc & _ & _ & Pf & _ & Px).
  destruct (prepared_elements data st) as (Pd & _).
  unfold fitFails, fitOf, fitted.
  destruct (firstLoad st) eqn:E; cbn [andb].
  - destruct (fitIncidents data) eqn:Ei.
    + cbn [tryCatch].
      destruct (render_frame (prepared data st))
        as (Ra & Rc & Rf & Rx & n & v & Re).
      rewrite Ra, Rc, Rf, Rx, Re, Px, app_nil_r. cbn. repeat split; auto.
    + destruct (fitBoundsThrows (fitPoints data)); cbn [tryCatch].
      * unfold fetchCalls_catch. cbn. rewrite Px, app_nil_r. repeat split; auto.
      * match goal with |- context [render ?s] => set (st2 := s) end.
        destruct (render_frame st2) as (Ra & Rc & Rf & Rx & n & v & Re).
        rewrite Ra, Rc, Rf, Rx, Re. subst st2. cbn. rewrite Px. repeat split; auto.
  - cbn [tryCatch].
    destruct (render_frame (prepared data st))
      as (Ra & Rc & Rf & Rx & n & v & Re).
    rewrite Ra, Rc, Rf, Rx, Re, Px, app_nil_r. cbn. repeat split; auto.
Qed.

(** After a parsed poll the counters are those of the consolidated
    incidents of the body's rows, also when the fit has thrown. *)
Lemma fetchCalls_tried_counters data st :
  counters (el (tryCatch (fetchCalls_body data st) fetchCalls_catch)) =
  let incs := consolidateData (rowsOfSnapshot data) in
  (Z.of_nat (List.length incs),
   Z.of_nat (List.length (countedMapped incs)),
   Z.of_nat (List.length (countedUnmapped incs))).
Proof.
  rewrite fetchCalls_body_eq. rewrite <- (prepared_counters data st).
  unfold fitted.
  destruct (firstLoad st && fitFails data); cbn [tryCatch].
  - reflexivity.
  - match goal with |- context [render ?s] => set (st2 := s) end.
    destruct (render_frame st2) as (_ & _ & _ & _ & n & v & Re).
    rewrite Re.
    change (counters (setList n v (el st2))) with (counters (el st2)).
    subst st2. destruct (firstLoad st); [|reflexivity].
    destruct (fitIncidents data); reflexivity.
Qed.

End Frames.
End AppFacts.

(* ===================================================================== *)
(** ** Fitting the view                                                   *)
(* ===================================================================== *)

Module ViewFit.
Import ListFacts App AppFacts.

Section Fit.
Context {browser : Browser}.

(** One event: the view is fitted only by a poll whose body parses and
    that finds the first-load flag still set, and such a poll clears the
    flag, whatever the status of its response and whether or not the
    fit succeeds. *)
Lemma step_fit st ev :
  fitBoundsLog (fx (step st ev)) =
    fitBoundsLog (fx st) ++
    (if firstLoad st
     then match parsedBody ev with Some data => fitOf data | None => [] end
     else [])
  /\ firstLoad (step st ev) =
     firstLoad st && match parsedBody ev with Some _ => false | None => true end.
Proof.
  assert (Hnil : forall (b : bool) (l : list (list (coord * coord))),
             l = l ++ (if b then [] else [])).
  { intros b l. destruct b; symmetry; apply app_nil_r. }
  destruct ev as [|r| |resolved| |d s|arg]; simpl.
  - rewrite andb_true_r. auto.
  - destruct r as [msg|code [data|]]; simpl; rewrite ?andb_true_r; auto.
    destruct (fetchCalls_tried_frame data st) as (Hf & Hl & _).
    rewrite Hf, Hl, andb_false_r. auto.
  - rewrite andb_true_r. destruct (refreshDisabled (el st)); auto.
  - rewrite andb_true_r. destruct resolved; auto.
  - rewrite andb_true_r. destruct (timeouts (fx st)); auto.
  - rewrite andb_true_r.
    destruct (render_frame (withEl (setFilterInputs d s) st))
      as (_ & _ & Hf & Hx & _).
    rewrite Hf, Hx. auto.
  - rewrite andb_true_r.
    destruct (focusCall_frame (Val arg) st) as (Hf & Hl & _).
    rewrite Hf, Hl. auto.
Qed.

Lemma run_fit evs st :
  fitBoundsLog (fx (run evs st)) =
  fitBoundsLog (fx st) ++ (if firstLoad st then fitsOfRun evs else []).
Proof.
  unfold run, fitsOfRun. revert st.
  induction evs as [|ev evs IH]; intros st; simpl.
  - destruct (firstLoad st); symmetry; apply app_nil_r.
  - destruct (step_fit st ev) as (Hl & Hf). rewrite IH, Hl, Hf.
    rewrite <- app_assoc. f_equal.
    destruct (firstLoad st); simpl; [|reflexivity].
    destruct (parsedBody ev); simpl; [apply app_nil_r | reflexivity].
Qed.

(** The first-load flag is set until a body has parsed. *)
Lemma run_firstLoad evs st :
  firstLoad (run evs st) =
  firstLoad st && match firstParsed evs with Some _ => false | None => true end.
Proof.
  unfold run. revert st.
  induction evs as [|ev evs IH]; intros st; simpl.
  - symmetry. apply andb_true_r.
  - destruct (step_fit st ev) as (_ & Hf). rewrite IH, Hf.
    destruct (parsedBody ev); [|rewrite andb_true_r; reflexivity].
    rewrite andb_false_r. reflexivity.
Qed.

Lemma firstParsed_app evs1 evs2 data :
  firstParsed evs1 = Some data -> firstParsed (evs1 ++ evs2) = Some data.
Proof.
  induction evs1 as [|ev evs1 IH]; simpl; [discriminate|].
  destruct (parsedBody ev); auto.
Qed.

Lemma fitOf_length data : (List.length (fitOf data) <= 1)%nat.
Proof.
  unfold fitOf. destruct (fitIncidents data); simpl; [lia|].
  destruct (fitBoundsThrows _); simpl; lia.
Qed.

(** What app.js does over any run from page load: the view is fitted
    at most once; the first poll whose body parses decides, whatever
    the status of its response: the view is fitted then, around the
    incidents of that body that pass the test [lat && lon], if there is
    one and Leaflet does not throw; nothing that happens before or
    after that poll fits the view. *)
Lemma view_fitted_by_first_parsed_body (page : Elements) (evs : list Event) :
  let log := fitBoundsLog (fx (run evs (initialState page))) in
  (List.length log <= 1)%nat
  /\ (firstParsed evs = None -> log = [])
  /\ (forall data, firstParsed evs = Some data -> log = fitOf data)
  /\ (forall later : list Event,
        firstParsed evs <> None ->
        fitBoundsLog (fx (run (evs ++ later) (initialState page))) = log).
Proof.
  intros log.
  assert (Hlog : forall l, fitBoundsLog (fx (run l (initialState page)))
                           = fitsOfRun l).
  { intros l. rewrite run_fit. reflexivity. }
  subst log. rewrite Hlog. unfold fitsOfRun.
  split; [|split; [|split]].
  - destruct (firstParsed evs); [apply fitOf_length | simpl; lia].
  - intros ->. reflexivity.
  - intros data ->. reflexivity.
  - intros later Hs. rewrite Hlog. unfold fitsOfRun.
    destruct (firstParsed evs) as [data|] eqn:E; [|congruence].
    rewrite (firstParsed_app _ later _ E). reflexivity.
Qed.

(** C8 at a failing input.  The first poll of the page is answered with
    status 500 and the JSON body [{}], the second with status 200 and
    the example, whose incident A1 has both coordinates.  app.js never
    reads the status: the error response counts as the first load, it
    clears the flag on an empty list of incidents, and so the first
    successful sync, which brings a mapped incident and puts its marker
    on the map, does not fit the view, and nothing fits it later.  The
    same response as the first answer of a run does fit the view.  The
    markers and that fit are those of the sample browser; the rest holds
    in every browser.
    Further, when the first successful sync brings only an incident on
    the equator, that incident has both coordinates and a marker, and
    the view is not fitted either, because the fit tests [lat && lon]. *)
Theorem first_successful_sync_does_not_fit_the_view :
  let first := initialState Examples.page0 in
  let st := run Examples.errorFirst first in
  responseOk 500 = false /\ responseOk 200 = true
  /\ Examples.errorFirst
     = [PollTick; CallsSettled (Http 500 (Some Examples.emptyBody));
        PollTick; CallsSettled (Http 200 (Some Examples.exampleSnapshot))]
  /\ consolidatedCalls st = [Examples.incidentA1; Examples.incidentB2]
  /\ hasCoordinates Examples.incidentA1 = true
  /\ latAndLon Examples.incidentA1 = true
  /\ map popupOf
         (markerLayer (run (browser := Examples.sampleBrowser)
                           Examples.errorFirst first))
     = [Examples.incidentA1]
  /\ fitBoundsLog (fx st) = []
  /\ (forall later : list Event,
        fitBoundsLog (fx (run (Examples.errorFirst ++ later) first)) = [])
  /\ fitBoundsLog
       (fx (run (browser := Examples.sampleBrowser)
                [PollTick;
                 CallsSettled (Http 200 (Some Examples.exampleSnapshot))]
                first))
     = [[(Num 1, Num 2)]]
  /\ (let st0 := run [PollTick;
                      CallsSettled (Http 200 (Some Examples.equatorSnapshot))]
                     first in
      consolidatedCalls st0 = [Examples.incidentEquator]
      /\ hasCoordinates Examples.incidentEquator = true
      /\ map popupOf
             (markerLayer
                (run (browser := Examples.sampleBrowser)
                     [PollTick;
                      CallsSettled (Http 200 (Some Examples.equatorSnapshot))]
                     first))
         = [Examples.incidentEquator]
      /\ fitBoundsLog (fx st0) = []).
Proof.
  intros first st.
  assert (Hlog : forall l, fitBoundsLog (fx (run l first)) = fitsOfRun l).
  { intros l. unfold first. rewrite run_fit. reflexivity. }
  assert (Hinc : forall pre code data,
             consolidatedCalls
               (run (pre ++ [CallsSettled (Http code (Some data))]) first)
             = consolidateData (rowsOfSnapshot data)).
  { intros pre code data. unfold run. rewrite fold_left_app.
    cbn [fold_left step fetchCalls_settle withEl consolidatedCalls].
    apply fetchCalls_tried_frame. }
  split; [reflexivity|]. split; [reflexivity|]. split; [reflexivity|].
  split.
  { subst st. exact (Hinc [PollTick;
                            CallsSettled (Http 500 (Some Examples.emptyBody));
                            PollTick] 200%Z Examples.exampleSnapshot). }
  split; [reflexivity|]. split; [reflexivity|].
  split; [vm_compute; reflexivity|].
  split; [subst st; rewrite Hlog; reflexivity|].
  split.
  { intros later. rewrite Hlog. unfold fitsOfRun.
    rewrite (firstParsed_app Examples.errorFirst later Examples.emptyBody);
      reflexivity. }
  split; [vm_compute; reflexivity|].
  cbv zeta. split.
  { exact (Hinc [PollTick] 200%Z Examples.equatorSnapshot). }
  split; [reflexivity|]. split; [vm_compute; reflexivity|].
  rewrite Hlog. reflexivity.
Qed.

End Fit.
End ViewFit.

(* ===================================================================== *)
(** ** Status counters                                                    *)
(* ===================================================================== *)

Module Stats.
Import ListFacts App AppFacts MarkerFacts.

Section Counters.
Context {browser : Browser}.

(** What [updateStats] computes: the counters come from the consolidated
    incidents it is given, the total is their number, the mapped count
    is the number of incidents that pass the test [lat && lon], the
    unmapped count is the number of the others.  They do not depend on
    the snapshot, so not on the backend's [totalCalls], [mappedCalls]
    and [unmappedCalls]; the same holds for the counters a parsed poll
    leaves on the page; and for the three-row example the page shows 2
    incidents, 1 mapped and 1 unmapped, whatever the backend counted. *)
Lemma updateStats_counts_incidents_passing_the_test
  (data : Snapshot) (incs : list Incident) (st : State) :
  counters (el (updateStats data incs st)) =
    (Z.of_nat (List.length incs),
     Z.of_nat (List.length (countedMapped incs)),
     Z.of_nat (List.length (countedUnmapped incs)))
  /\ (forall (data' : Snapshot) (st' : State),
        counters (el (updateStats data' incs st'))
        = counters (el (updateStats data incs st)))
  /\ (forall (code : Z) (data' : Snapshot),
        calls data' = calls data ->
        counters (el (fetchCalls_settle (Http code (Some data')) st))
        = counters (el (fetchCalls_settle (Http code (Some data)) st)))
  /\ (forall (code : Z) (total mapped unmapped attempts : option Z)
             (upd err : text),
        counters (el (fetchCalls_settle
                        (Http code
                           (Some (mkSnapshot (Some Examples.exampleRows)
                                             total mapped unmapped upd
                                             attempts err)))
                        st))
        = (2%Z, 1%Z, 1%Z)).
Proof.
  split; [apply updateStats_counters|]. split; [|split].
  - intros data' st'. rewrite !updateStats_counters. reflexivity.
  - intros code data' Hc. unfold fetchCalls_settle.
    change (counters (el (withEl (setSpinning false) ?s)))
      with (counters (el s)).
    rewrite !fetchCalls_tried_counters. unfold rowsOfSnapshot.
    rewrite Hc. reflexivity.
  - intros. unfold fetchCalls_settle.
    change (counters (el (withEl (setSpinning false) ?s)))
      with (counters (el s)).
    rewrite fetchCalls_tried_counters. reflexivity.
Qed.

(** C6 at a failing input.  The backend reports one row, located on the
    equator: latitude 0 and longitude -96.8.  The incident
    [consolidateData] builds from it has both coordinates, and
    [updateMarkers] puts its marker on the map; [updateStats] tests
    [c.lat && c.lon], in which the number 0 is falsy, and shows
    1 incident, 0 mapped and 1 unmapped, for every snapshot and every
    page state, also at the end of a whole poll. *)
Theorem zero_coordinate_incident_counted_unmapped
  (data : Snapshot) (st : State) :
  let incs := consolidateData [Examples.rowEquator] in
  incs = [Examples.incidentEquator]
  /\ lat Examples.incidentEquator = Num 0
  /\ lon Examples.incidentEquator = Num (-(968 # 10))
  /\ hasCoordinates Examples.incidentEquator = true
  /\ map popupOf (markerLayer (updateMarkers incs st))
     = [Examples.incidentEquator]
  /\ counters (el (updateStats data incs st)) = (1%Z, 0%Z, 1%Z)
  /\ (forall code : Z,
        counters (el (fetchCalls_settle
                        (Http code (Some Examples.equatorSnapshot)) st))
        = (1%Z, 0%Z, 1%Z)).
Proof.
  intros incs.
  split; [reflexivity|]. split; [reflexivity|]. split; [reflexivity|].
  split; [reflexivity|]. split.
  - unfold updateMarkers. rewrite fold_addMarker_layer. reflexivity.
  - split.
    + rewrite updateStats_counters. reflexivity.
    + intros code. unfold fetchCalls_settle.
      change (counters (el (withEl (setSpinning false) ?s)))
        with (counters (el s)).
      rewrite fetchCalls_tried_counters. reflexivity.
Qed.

End Counters.
End Stats.

(* ===================================================================== *)
(** ** Mapped or not: the two tests                                       *)
(* ===================================================================== *)

Module Classification.
Import ListFacts MapFacts App MarkerFacts AppFacts.

Lemma find_by_key (l : list Incident) (c : Incident) :
  NoDup (map (fun i : Incident => incidentNumber i) l) -> In c l ->
  find (fun i : Incident => text_eqb (incidentNumber i) (incidentNumber c)) l
  = Some c.
Proof.
  induction l as [|a l IH]; simpl; [tauto|].
  intros Hnd Hin. inversion Hnd as [|? ? Hni Hnd']; subst.
  destruct (text_eqb_spec (incidentNumber a) (incidentNumber c)) as [E|Hne].
  - destruct Hin as [->|Hin]; [reflexivity|]. exfalso. apply Hni.
    rewrite E. apply (in_map (fun i : Incident => incidentNumber i)). exact Hin.
  - destruct Hin as [->|Hin]; [congruence|]. apply IH; assumption.
Qed.




End Classification.

(* ===================================================================== *)
(** ** Failed polls                                                       *)
(* ===================================================================== *)

Module Polling.
Import ListFacts App AppFacts.

Section Poll.
Context {browser : Browser}.

(** What app.js does when the request rejects or the body is not JSON:
    the [catch] block reports the loss and nothing that was held or
    shown is replaced. *)
Lemma fetchCalls_caught_keeps_state (r : Response) (st : State) :
  (match r with Http _ (Some _) => False | _ => True end) ->
  let st' := fetchCalls_settle r st in
  allCallsRaw st' = allCallsRaw st
  /\ consolidatedCalls st' = consolidatedCalls st
  /\ markerLayer st' = markerLayer st
  /\ markersByIncident st' = markersByIncident st
  /\ callList (el st') = callList (el st)
  /\ counters (el st') = counters (el st)
  /\ statusLine (el st') = "Connection Lost".
Proof.
  destruct r as [msg|code [data|]]; simpl; intros H; try contradiction;
    repeat split; reflexivity.
Qed.

(** What part_000 does on any failed fetch, a response with a status
    outside 200..299 included: [pullLatest] catches the error, reports
    its message and leaves everything else as it was. *)
Lemma legacy_pullLatest_failure_keeps_state (r : Response) (st : Legacy.State) :
  (match r with
   | NetworkError _ => True
   | Http code body => responseOk code = false \/ body = None
   end) ->
  exists why,
    Legacy.fetchCalls r = inl why
    /\ Legacy.pullLatest r st = Legacy.setStatusLine (Legacy.StatusUnable why) st
    /\ Legacy.allCalls (Legacy.pullLatest r st) = Legacy.allCalls st
    /\ Legacy.markerLayer (Legacy.pullLatest r st) = Legacy.markerLayer st
    /\ Legacy.markerByIncident (Legacy.pullLatest r st)
       = Legacy.markerByIncident st
    /\ Legacy.callList (Legacy.pullLatest r st) = Legacy.callList st.
Proof.
  unfold Legacy.pullLatest. destruct r as [msg|code body]; simpl.
  - intros _. exists (Legacy.Rejected msg). repeat split; reflexivity.
  - intros [H|H].
    + rewrite H. simpl. exists (Legacy.HttpError code).
      repeat split; reflexivity.
    + subst body. destruct (responseOk code); simpl.
      * exists Legacy.JsonError. repeat split; reflexivity.
      * exists (Legacy.HttpError code). repeat split; reflexivity.
Qed.

(** C5 at a failing input. The page of app.js holds the example (two
    incidents, one marker, two list items); the next poll is answered
    with status 500 and the JSON body [{}]. app.js never reads the
    status: it takes the body for a snapshot without rows, so the rows,
    the incidents, the marker layer, the lookup table and the list are
    all emptied, the counters drop to zero and the status line reports
    normal operation. *)
Theorem non2xx_json_response_clears_state :
  let before := Examples.syncedState in
  let after :=
    run [PollTick; CallsSettled (Http 500 (Some Examples.emptyBody))] before in
  responseOk 500 = false
  /\ allCallsRaw before = Examples.exampleRows
  /\ consolidatedCalls before = [Examples.incidentA1; Examples.incidentB2]
  /\ map popupOf (markerLayer before) = [Examples.incidentA1]
  /\ callList (el before)
     = Items [renderItem Examples.incidentA1; renderItem Examples.incidentB2]
  /\ allCallsRaw after = []
  /\ consolidatedCalls after = []
  /\ markerLayer after = []
  /\ markersByIncident after = []
  /\ callList (el after) = NoMatch
  /\ counters (el after) = (0%Z, 0%Z, 0%Z)
  /\ statusLine (el after) = "System Operational | Live Data".
Proof. vm_compute. repeat split; reflexivity. Qed.

End Poll.
End Polling.

(* ===================================================================== *)
(** ** Manual refresh                                                     *)
(* ===================================================================== *)

Module Refresh.
Import ListFacts App AppFacts.

Section ManualRefresh.
Context {browser : Browser}.

(** Only the settling of the refresh request, and a click on the enabled
    control, write the [disabled] property. *)
Lemma step_keeps_disabled st ev :
  isRefreshSettled ev = false ->
  refreshDisabled (el st) = true ->
  refreshDisabled (el (step st ev)) = true.
Proof.
  intros Hev Hd. destruct ev as [|r| |resolved| |d s|arg]; simpl in *.
  - exact Hd.
  - destruct r as [msg|code [data|]]; simpl; auto.
    destruct (fetchCalls_tried_frame data st) as (_ & _ & _ & H & _).
    rewrite H. exact Hd.
  - rewrite Hd. exact Hd.
  - discriminate.
  - destruct (timeouts (fx st)); auto.
  - destruct (render_frame (withEl (setFilterInputs d s) st))
      as (_ & _ & _ & _ & n & v & ->).
    exact Hd.
  - destruct (focusCall_frame (Val arg) st) as (_ & _ & _ & ->). exact Hd.
Qed.

Lemma run_keeps_disabled evs st :
  forallb (fun ev => negb (isRefreshSettled ev)) evs = true ->
  refreshDisabled (el st) = true ->
  refreshDisabled (el (run evs st)) = true.
Proof.
  unfold run. revert st. induction evs as [|ev evs IH]; intros st; simpl; auto.
  rewrite andb_true_iff, negb_true_iff. intros [Hev Hevs] Hd.
  apply IH; auto. apply step_keeps_disabled; auto.
Qed.

(** The part of the manual refresh that app.js does protect: a click on
    the enabled control disables it, it stays disabled for as long as
    the refresh request is outstanding, whatever else happens meanwhile,
    and the [finally] block enables it on either outcome of that
    request.  On success [fetchCalls] has only been handed to a 1000 ms
    timer by then. *)
Lemma triggerRefresh_disables_until_request_settles
  (st : State) (evs : list Event) (resolved : bool) :
  refreshDisabled (el st) = false ->
  forallb (fun ev => negb (isRefreshSettled ev)) evs = true ->
  let requesting := run (ClickRefresh :: evs) st in
  let settled := step requesting (RefreshSettled resolved) in
  refreshDisabled (el requesting) = true
  /\ refreshDisabled (el settled) = false
  /\ timeouts (fx settled) =
     timeouts (fx requesting) ++ (if resolved then [1000%Z] else [])
  /\ consoleErrors (fx settled) =
     (consoleErrors (fx requesting) + (if resolved then 0 else 1))%nat
  /\ refreshSpinning (el settled) = refreshSpinning (el requesting).
Proof.
  intros Hen Hevs requesting settled.
  assert (Hreq : refreshDisabled (el requesting) = true).
  { subst requesting. change (run (ClickRefresh :: evs) st)
      with (run evs (step st ClickRefresh)).
    apply run_keeps_disabled; auto. simpl. rewrite Hen. reflexivity. }
  split; [exact Hreq|]. subst settled. simpl.
  destruct resolved; simpl; repeat split;
    try lia; try (symmetry; apply app_nil_r); reflexivity.
Qed.

(** C7 at a failing input.  The page holds the example and the refresh
    control is clicked.  While the refresh request is outstanding the
    control is disabled.  The request succeeds: [triggerRefresh] hands
    [fetchCalls] to a 1000 ms timer and its [finally] block enables the
    control at once, so the control is enabled during the whole settling
    delay and still enabled when the timer has fired and the data fetch
    is in flight.  A second click during the delay is therefore
    accepted: it starts a second refresh request, and when that one has
    succeeded two data fetches are waiting on their timers. *)
Theorem refresh_control_enabled_during_delay_and_fetch :
  let loaded := Examples.syncedState in
  let requesting := run [ClickRefresh] loaded in
  let settling := run [ClickRefresh; RefreshSettled true] loaded in
  let fetching := run [ClickRefresh; RefreshSettled true; TimeoutFires] loaded in
  let clickedAgain :=
    run [ClickRefresh; RefreshSettled true; ClickRefresh] loaded in
  let settlingTwice :=
    run [ClickRefresh; RefreshSettled true; ClickRefresh; RefreshSettled true]
        loaded in
  refreshDisabled (el loaded) = false
  /\ refreshDisabled (el requesting) = true
  /\ timeouts (fx settling) = [1000%Z]
  /\ refreshDisabled (el settling) = false
  /\ timeouts (fx fetching) = []
  /\ refreshSpinning (el fetching) = true
  /\ refreshDisabled (el fetching) = false
  /\ refreshDisabled (el clickedAgain) = true
  /\ statusLine (el clickedAgain) = "Requesting update..."
  /\ timeouts (fx clickedAgain) = [1000%Z]
  /\ timeouts (fx settlingTwice) = [1000%Z; 1000%Z]
  /\ refreshDisabled (el settlingTwice) = false.
Proof. vm_compute. repeat split; reflexivity. Qed.

End ManualRefresh.
End Refresh.

(* ===================================================================== *)
(** ** part_000: refresh control and view fit                             *)
(* ===================================================================== *)

Module LegacyFacts.
Import ListFacts.

Lemma fold_upsertMarker_frame cs st :
  let st' := fold_left Legacy.upsertMarker cs st in
  Legacy.refreshDisabled st' = Legacy.refreshDisabled st
  /\ Legacy.refreshPhase st' = Legacy.refreshPhase st
  /\ Legacy.lastFitDone st' = Legacy.lastFitDone st
  /\ Legacy.fitBoundsLog st' = Legacy.fitBoundsLog st.
Proof.
  revert st. induction cs as [|c cs IH]; intros st; simpl; [auto|].
  destruct (IH (Legacy.upsertMarker st c)) as (A & B & C & D).
  rewrite A, B, C, D. unfold Legacy.upsertMarker.
  destruct (negb _ || negb _); auto.
Qed.

Lemma clearAndRenderMarkers_frame calls st :
  let st' := Legacy.clearAndRenderMarkers calls st in
  Legacy.refreshDisabled st' = Legacy.refreshDisabled st
  /\ Legacy.refreshPhase st' = Legacy.refreshPhase st
  /\ (legacyFitInvariant st -> legacyFitInvariant st')
  /\ (Legacy.lastFitDone st = true ->
      Legacy.fitBoundsLog st' = Legacy.fitBoundsLog st).
Proof.
  unfold Legacy.clearAndRenderMarkers, legacyFitInvariant. cbv zeta.
  destruct (fold_upsertMarker_frame (filter Legacy.isMapped calls)
                                    (Legacy.clearMarkers st))
    as (A & B & C & D).
  simpl in A, B, C, D.
  set (mc := filter Legacy.isMapped calls) in *.
  set (st1 := fold_left Legacy.upsertMarker mc (Legacy.clearMarkers st)) in *.
  clearbody st1. destruct mc as [|c cs].
  - rewrite A, B, C, D. auto.
  - rewrite C. destruct (Legacy.lastFitDone st) eqn:F; simpl.
    + rewrite C, D. auto.
    + rewrite D. repeat split; auto.
      * intros ->. reflexivity.
      * discriminate.
Qed.

Lemma legacy_render_frame st :
  Legacy.refreshDisabled (Legacy.render st) = Legacy.refreshDisabled st
  /\ Legacy.refreshPhase (Legacy.render st) = Legacy.refreshPhase st
  /\ (legacyFitInvariant st -> legacyFitInvariant (Legacy.render st))
  /\ (Legacy.lastFitDone st = true ->
      Legacy.fitBoundsLog (Legacy.render st) = Legacy.fitBoundsLog st).
Proof.
  unfold Legacy.render.
  destruct (clearAndRenderMarkers_frame (Legacy.getFilteredCalls st) st)
    as (A & B & C & D).
  unfold Legacy.renderCallList.
  destruct (Legacy.getFilteredCalls st); simpl; auto.
Qed.

Lemma legacy_pullLatest_frame r st :
  Legacy.refreshDisabled (Legacy.pullLatest r st) = Legacy.refreshDisabled st
  /\ Legacy.refreshPhase (Legacy.pullLatest r st) = Legacy.refreshPhase st
  /\ (legacyFitInvariant st -> legacyFitInvariant (Legacy.pullLatest r st)).
Proof.
  unfold Legacy.pullLatest. destruct (Legacy.fetchCalls r) as [why|data].
  - simpl. auto.
  - match goal with |- context [Legacy.render ?s] => set (st1 := s) end.
    destruct (legacy_render_frame st1) as (A & B & C & _).
    rewrite A, B. subst st1. simpl. auto.
Qed.

(** part_000 shows the counters of the backend as they come. *)
Lemma legacy_updateStatus_shows_backend_counters data st :
  Legacy.totalCallsEl (Legacy.updateStatus data st)
    = Legacy.orZero (totalCalls data)
  /\ Legacy.mappedCallsEl (Legacy.updateStatus data st)
     = Legacy.orZero (mappedCalls data)
  /\ Legacy.unmappedCallsEl (Legacy.updateStatus data st)
     = Legacy.orZero (unmappedCalls data).
Proof. repeat split. Qed.

(** part_000: whatever the events, the refresh control is disabled at
    every suspension point of [triggerServerRefresh] (the request, the
    350 ms sleep and the awaited pull) and enabled again once the
    function has run its [finally] block. *)
Lemma legacy_step_refresh_invariant st ev :
  legacyRefreshInvariant st -> legacyRefreshInvariant (Legacy.step st ev).
Proof.
  intros H. destruct ev as [r| |resolved| |r|d]; simpl.
  - destruct (legacy_pullLatest_frame r st) as (A & B & _).
    unfold legacyRefreshInvariant in *. rewrite A, B. exact H.
  - destruct (Legacy.refreshDisabled st); [exact H | reflexivity].
  - destruct (Legacy.refreshPhase st) eqn:E; try exact H.
    unfold legacyRefreshInvariant in *. rewrite E in H.
    destruct resolved; simpl; [exact H | reflexivity].
  - destruct (Legacy.refreshPhase st) eqn:E; try exact H.
    unfold legacyRefreshInvariant in *. rewrite E in H. exact H.
  - destruct (Legacy.refreshPhase st); try exact H. reflexivity.
  - destruct (legacy_render_frame (Legacy.setDivisionValue d st)) as (A & B & _).
    unfold legacyRefreshInvariant in *. rewrite A, B. exact H.
Qed.

Lemma legacy_run_refresh_invariant evs st :
  legacyRefreshInvariant st -> legacyRefreshInvariant (Legacy.run evs st).
Proof.
  unfold Legacy.run. revert st.
  induction evs as [|ev evs IH]; intros st H; simpl; auto.
  apply IH, legacy_step_refresh_invariant, H.
Qed.

(** part_000: the view is fitted at most once over a run. *)
Lemma legacy_step_fit_invariant st ev :
  legacyFitInvariant st -> legacyFitInvariant (Legacy.step st ev).
Proof.
  intros H. destruct ev as [r| |resolved| |r|d]; simpl.
  - apply legacy_pullLatest_frame, H.
  - destruct (Legacy.refreshDisabled st); exact H.
  - destruct (Legacy.refreshPhase st); try exact H.
    destruct resolved; exact H.
  - destruct (Legacy.refreshPhase st); exact H.
  - destruct (Legacy.refreshPhase st); try exact H.
    change (legacyFitInvariant (Legacy.pullLatest r st)).
    apply legacy_pullLatest_frame, H.
  - apply legacy_render_frame. exact H.
Qed.

Lemma legacy_run_fits_at_most_once evs divisions selected :
  (List.length
     (Legacy.fitBoundsLog
        (Legacy.run evs (legacyInitialState divisions selected))) <= 1)%nat.
Proof.
  assert (H : legacyFitInvariant
                (Legacy.run evs (legacyInitialState divisions selected))).
  { unfold Legacy.run.
    generalize (legacyInitialState divisions selected),
               (eq_refl : legacyFitInvariant
                            (legacyInitialState divisions selected)).
    induction evs as [|ev evs IH]; intros st Hst; simpl; auto.
    apply IH, legacy_step_fit_invariant, Hst. }
  unfold legacyFitInvariant in H.
  destruct (Legacy.lastFitDone _); rewrite H; simpl; lia.
Qed.

End LegacyFacts.

(* ===================================================================== *)
(** ** Invariants of app.js over a run                                    *)
(* ===================================================================== *)

Module Reachable.
Import ListFacts MapFacts App MarkerFacts AppFacts ConsolidationFacts.

Section Invariant.
Context {browser : Browser}.

Lemma getFilteredCalls_NoDup st :
  NoDup (map (fun c : Incident => incidentNumber c) (consolidatedCalls st)) ->
  NoDup (map (fun c : Incident => incidentNumber c) (getFilteredCalls st)).
Proof.
  apply NoDup_map_Sublist. unfold getFilteredCalls. apply filter_Sublist.
Qed.

Lemma render_invariant st :
  NoDup (map (fun c : Incident => incidentNumber c) (consolidatedCalls st)) ->
  appInvariant (render st).
Proof.
  intros Hnd. unfold appInvariant.
  destruct (render_frame st) as (_ & Hc & _). rewrite Hc.
  split; [exact Hnd|]. unfold render.
  destruct (renderList_eq (getFilteredCalls st)
                          (updateMarkers (getFilteredCalls st) st))
    as (n & v & ->).
  intros m Hm. simpl in *.
  apply (updateMarkers_allocated (getFilteredCalls st) st
           (getFilteredCalls_NoDup st Hnd) m Hm).
Qed.

Lemma fitted_consolidatedCalls data st :
  consolidatedCalls (fitted data st) = consolidateData (rowsOfSnapshot data).
Proof.
  destruct (prepared_frame data st) as (_ & Pc & _).
  unfold fitted. destruct (firstLoad st); [|exact Pc].
  destruct (fitIncidents data); exact Pc.
Qed.

Lemma fetchCalls_tried_invariant data st :
  appInvariant st ->
  appInvariant (tryCatch (fetchCalls_body data st) fetchCalls_catch).
Proof.
  intros (_ & Hal). rewrite fetchCalls_body_eq.
  destruct (firstLoad st && fitFails data); cbn [tryCatch].
  - destruct (prepared_frame data st) as (_ & Pc & Pl & Pt & _ & Pn & _).
    split.
    + cbn [fetchCalls_catch withFx withEl consolidatedCalls]. rewrite Pc.
      apply consolidateData_NoDup.
    + intros m. cbn [fetchCalls_catch withFx withEl markerLayer
                       markersByIncident nextLayerId].
      rewrite Pl, Pt, Pn. apply Hal.
  - apply render_invariant. rewrite fitted_consolidatedCalls.
    apply consolidateData_NoDup.
Qed.

Lemma step_invariant st ev : appInvariant st -> appInvariant (step st ev).
Proof.
  intros H. destruct ev as [|r| |resolved| |d s|arg]; simpl.
  - exact H.
  - destruct r as [msg|code [data|]]; simpl; try exact H.
    destruct (fetchCalls_tried_invariant data st H) as (A & B).
    split; assumption.
  - destruct (refreshDisabled (el st)); exact H.
  - destruct resolved; exact H.
  - destruct (timeouts (fx st)); exact H.
  - apply render_invariant. apply H.
  - unfold focusCall. destruct (find _ _) as [call|]; [|exact H].
    destruct (latAndLon call); [|exact H].
    destruct (mapGet _ _); exact H.
Qed.

(** In every state app.js can reach from page load, the incidents held
    have distinct numbers and the marker objects are accounted for: the
    two conditions under which [updateMarkers] is called. *)
Lemma run_invariant page evs : appInvariant (run evs (initialState page)).
Proof.
  assert (H0 : appInvariant (initialState page)).
  { split; [constructor|]. intros m [[]|[]]. }
  unfold run. revert H0. generalize (initialState page).
  induction evs as [|ev evs IH]; intros st H; simpl; auto.
  apply IH, step_invariant, H.
Qed.

End Invariant.
End Reachable.

(* ===================================================================== *)
(** ** Escaping                                                           *)
(* ===================================================================== *)

Module HtmlFacts.
Import Html.

Lemma append_assoc (s1 s2 s3 : string) :
  ((s1 ++ s2) ++ s3 = s1 ++ (s2 ++ s3))%string.
Proof. induction s1 as [|a s1 IH]; simpl; congruence. Qed.

Lemma replaceAll_append c rep s1 s2 :
  replaceAll c rep (s1 ++ s2)%string
  = (replaceAll c rep s1 ++ replaceAll c rep s2)%string.
Proof.
  induction s1 as [|a s1 IH]; simpl; [reflexivity|].
  destruct (Ascii.eqb a c); rewrite IH; [|reflexivity].
  symmetry. apply append_assoc.
Qed.

Lemma escapeChain_append s1 s2 :
  escapeChain (s1 ++ s2)%string = (escapeChain s1 ++ escapeChain s2)%string.
Proof. unfold escapeChain. rewrite !replaceAll_append. reflexivity. Qed.

(** The chain on a single character. *)
Lemma escapeChain_char a : escapeChain (String a EmptyString) = entityOf a.
Proof. destruct a as [[] [] [] [] [] [] [] []]; reflexivity. Qed.

Lemma escapeChain_onePass s : escapeChain s = escapeOnePass s.
Proof.
  induction s as [|a s IH]; [reflexivity|].
  change (String a s) with (String a EmptyString ++ s)%string.
  rewrite escapeChain_append, escapeChain_char, IH. reflexivity.
Qed.

Lemma chars_append s1 s2 :
  list_ascii_of_string (s1 ++ s2)%string
  = list_ascii_of_string s1 ++ list_ascii_of_string s2.
Proof. induction s1 as [|a s1 IH]; simpl; congruence. Qed.

Lemma entityOf_no_markup a b :
  In b (list_ascii_of_string (entityOf a)) -> isMarkup b = false.
Proof.
  unfold entityOf.
  destruct (Ascii.eqb a "&") eqn:E1.
  { simpl. intuition (subst; reflexivity). }
  destruct (Ascii.eqb a "<") eqn:E2.
  { simpl. intuition (subst; reflexivity). }
  destruct (Ascii.eqb a ">") eqn:E3.
  { simpl. intuition (subst; reflexivity). }
  destruct (Ascii.eqb a doubleQuote) eqn:E4.
  { simpl. intuition (subst; reflexivity). }
  destruct (Ascii.eqb a "'") eqn:E5.
  { simpl. intuition (subst; reflexivity). }
  simpl. intros [<-|[]]. unfold isMarkup. rewrite E2, E3, E4, E5. reflexivity.
Qed.

(** X1. Whatever the value, [escapeHtml] of either script returns a text
    that contains none of the characters [<], [>], double quote and
    single quote: nothing it returns can open or close a tag or an
    attribute value. *)
Theorem escapeHtml_leaves_no_markup (x : text) (b : ascii) :
  (In b (list_ascii_of_string (escapeHtml x)) -> isMarkup b = false)
  /\ (In b (list_ascii_of_string (escapeHtmlLegacy x)) -> isMarkup b = false).
Proof.
  assert (H : forall s, In b (list_ascii_of_string (escapeChain s)) ->
                        isMarkup b = false).
  { intros s. rewrite escapeChain_onePass.
    induction s as [|a s IH]; simpl; [tauto|].
    rewrite chars_append, in_app_iff. intros [Hb|Hb]; auto.
    eapply entityOf_no_markup; eauto. }
  split; apply H.
Qed.

(** X2. The five chained replacements of [escapeHtml] amount to a single
    pass over the text: each character is replaced by its entity once,
    and the ampersand of an inserted entity is not escaped again. The two
    scripts agree, and a missing, null or empty value gives the empty
    text. *)
Theorem escapeHtml_is_one_pass (x : text) :
  escapeHtml x = escapeOnePass (textOf x)
  /\ escapeHtmlLegacy x = escapeHtml x
  /\ (truthyText x = false -> escapeHtml x = "").
Proof.
  unfold escapeHtml, escapeHtmlLegacy.
  rewrite StringFacts.orString_empty, !escapeChain_onePass.
  split; [reflexivity|]. split.
  - destruct x; reflexivity.
  - destruct x as [| |[|a s]]; simpl; intros H;
      reflexivity || discriminate H.
Qed.

Ltac classify a :=
  unfold entityOf;
  destruct (Ascii.eqb_spec a "&") as [->|];
  [|destruct (Ascii.eqb_spec a "<") as [->|];
    [|destruct (Ascii.eqb_spec a ">") as [->|];
      [|destruct (Ascii.eqb_spec a doubleQuote) as [->|];
        [|destruct (Ascii.eqb_spec a "'") as [->|]]]]].

Lemma entityOf_cancel a b r1 r2 :
  (entityOf a ++ r1 = entityOf b ++ r2)%string -> a = b /\ r1 = r2.
Proof.
  classify a; classify b; simpl; intros H;
    try (injection H as H; subst; auto; fail);
    try discriminate H;
    try (injection H as H; congruence).
Qed.

Lemma escapeOnePass_injective s1 s2 :
  escapeOnePass s1 = escapeOnePass s2 -> s1 = s2.
Proof.
  revert s2. induction s1 as [|a s1 IH]; intros [|b s2]; simpl; intros H.
  - reflexivity.
  - exfalso. revert H. classify b; simpl; discriminate.
  - exfalso. revert H. classify a; simpl; discriminate.
  - apply entityOf_cancel in H as [-> H]. f_equal. apply IH, H.
Qed.

(** X3. [escapeHtml] loses nothing: two values with the same escaped
    text have the same text. *)
Theorem escapeHtml_injective (x y : text) :
  escapeHtml x = escapeHtml y -> textOf x = textOf y.
Proof.
  unfold escapeHtml. rewrite !StringFacts.orString_empty, !escapeChain_onePass.
  apply escapeOnePass_injective.
Qed.

Lemma escapeHtml_injective_witness :
  escapeHtml Undefined = escapeHtml (Str "")
  /\ textOf Undefined = textOf (Str "").
Proof.
  split; [reflexivity|]. apply escapeHtml_injective. reflexivity.
Defined.

End HtmlFacts.

(* ===================================================================== *)
(** ** More on consolidation                                              *)
(* ===================================================================== *)

Module ConsolidationMore.
Import ListFacts MapFacts App ConsolidationFacts.

Section FirstSeenMore.
Context {A : Type} (eqb : A -> A -> bool).
Hypothesis eqb_spec : forall x y, reflect (x = y) (eqb x y).

Lemma firstSeen_length l : (List.length (firstSeen eqb l) <= List.length l)%nat.
Proof.
  induction l as [|a l IH]; simpl; [lia|].
  pose proof (filter_length_le (fun y => negb (eqb a y)) (firstSeen eqb l)).
  lia.
Qed.

Lemma firstSeen_NoDup_id l : NoDup l -> firstSeen eqb l = l.
Proof.
  induction 1 as [|a l Hin Hnd IH]; simpl; [reflexivity|].
  rewrite IH. f_equal. apply forallb_filter_id, forallb_forall.
  intros y Hy. destruct (eqb_spec a y); simpl; congruence.
Qed.

(** Values already seen add nothing. *)
Lemma firstSeen_app_seen l1 l2 :
  (forall x, In x l2 -> In x l1) ->
  firstSeen eqb (l1 ++ l2) = firstSeen eqb l1.
Proof.
  induction l2 as [|x l2 IH] using rev_ind; intros H.
  - rewrite app_nil_r. reflexivity.
  - rewrite app_assoc, (firstSeen_snoc eqb eqb_spec).
    assert (Hx : existsb (eqb x) (l1 ++ l2) = true).
    { apply (existsb_eqb_In eqb eqb_spec). apply in_or_app. left.
      apply H. apply in_or_app. right. left. reflexivity. }
    rewrite Hx. apply IH. intros y Hy. apply H. apply in_or_app. auto.
Qed.

(** What was seen first stays first. *)
Lemma firstSeen_app_prefix l1 l2 :
  Prefix (firstSeen eqb l1) (firstSeen eqb (l1 ++ l2)).
Proof.
  induction l2 as [|x l2 IH] using rev_ind.
  - exists []. rewrite !app_nil_r. reflexivity.
  - destruct IH as [rest E].
    rewrite app_assoc, (firstSeen_snoc eqb eqb_spec), E.
    destruct (existsb _ _).
    + exists rest. reflexivity.
    + exists (rest ++ [x]). rewrite app_assoc. reflexivity.
Qed.

End FirstSeenMore.

Lemma consolidateData_length rows :
  List.length (consolidateData rows)
  = List.length (firstSeen text_eqb (map incidentNumber rows)).
Proof.
  rewrite <- consolidateData_keys. symmetry. apply length_map.
Qed.

(** X4. [consolidateData] never returns more incidents than it was given
    rows; it returns none exactly for the empty row list; and it returns
    as many incidents as rows when the rows have distinct incident
    numbers. *)
Theorem consolidate_size (rows : list CallRow) :
  (List.length (consolidateData rows) <= List.length rows)%nat
  /\ (consolidateData rows = [] <-> rows = [])
  /\ (NoDup (map incidentNumber rows) ->
      List.length (consolidateData rows) = List.length rows).
Proof.
  rewrite <- (length_zero_iff_nil (consolidateData rows)).
  rewrite consolidateData_length. split; [|split].
  - rewrite <- (length_map incidentNumber rows). apply firstSeen_length.
  - destruct rows as [|r rows]; simpl; split; intros H;
      reflexivity || discriminate H.
  - intros Hnd. rewrite (firstSeen_NoDup_id text_eqb text_eqb_spec _ Hnd).
    apply length_map.
Qed.

Lemma find_append {A} (p : A -> bool) l1 l2 :
  find p (l1 ++ l2) = match find p l1 with
                      | Some x => Some x
                      | None => find p l2
                      end.
Proof.
  induction l1 as [|a l1 IH]; simpl; [reflexivity|].
  destruct (p a); auto.
Qed.

Lemma find_app_seen k rows1 rows2 :
  (forall r, In r rows2 -> In r rows1) ->
  find (hasKey k) (rows1 ++ rows2) = find (hasKey k) rows1.
Proof.
  intros H. rewrite find_append.
  destruct (find (hasKey k) rows1) eqn:E; [reflexivity|].
  apply find_none_iff. intros r Hr.
  apply (proj1 (find_none_iff _ _) E). apply H, Hr.
Qed.

Lemma unitStream_app k rows1 rows2 :
  unitStream k (rows1 ++ rows2) = unitStream k rows1 ++ unitStream k rows2.
Proof. unfold unitStream, rowsOf. rewrite filter_app, flat_map_app. reflexivity. Qed.

Lemma unitStream_seen k rows1 rows2 u :
  (forall r, In r rows2 -> In r rows1) ->
  In u (unitStream k rows2) -> In u (unitStream k rows1).
Proof.
  intros H. unfold unitStream, rowsOf. rewrite !in_flat_map.
  intros (r & Hr & Hu). exists r. split; [|exact Hu].
  apply filter_In in Hr as [Hr Hk]. apply filter_In. auto.
Qed.

Lemma map_Some_injective {A} (l1 l2 : list A) :
  map Some l1 = map Some l2 -> l1 = l2.
Proof.
  revert l2. induction l1 as [|a l1 IH]; intros [|b l2]; simpl;
    try discriminate; [reflexivity|].
  intros H. injection H as -> H. f_equal. apply IH, H.
Qed.

(** X5. Rows that were already delivered change nothing: when every row
    of a second batch occurs in the first batch, consolidating both
    batches gives the incidents of the first batch alone. In particular a
    snapshot that repeats all its rows consolidates like the snapshot
    without the repetition. *)
Theorem consolidate_ignores_repeated_rows (rows1 rows2 : list CallRow) :
  (forall r, In r rows2 -> In r rows1) ->
  consolidateData (rows1 ++ rows2) = consolidateData rows1.
Proof.
  intros H. apply map_Some_injective. rewrite !consolidateData_closed.
  rewrite map_app, (firstSeen_app_seen text_eqb text_eqb_spec).
  - apply map_ext. intros k. unfold incidentOf, pendingIncident.
    rewrite (find_app_seen k _ _ H), unitStream_app.
    rewrite (firstSeen_app_seen String.eqb String.eqb_spec); [reflexivity|].
    intros u. apply unitStream_seen, H.
  - intros k Hk. apply in_map_iff in Hk as (r & <- & Hr).
    apply in_map, H, Hr.
Qed.

Lemma consolidate_ignores_repeated_rows_witness :
  (forall r, In r Examples.exampleRows -> In r Examples.exampleRows)
  /\ consolidateData (Examples.exampleRows ++ Examples.exampleRows)
     = consolidateData Examples.exampleRows.
Proof.
  split; [intros r Hr; exact Hr|].
  apply consolidate_ignores_repeated_rows. intros r Hr. exact Hr.
Defined.

Lemma nth_error_map_Some {A} (l : list A) n x :
  nth_error (map Some l) n = Some (Some x) <-> nth_error l n = Some x.
Proof.
  rewrite nth_error_map. destruct (nth_error l n); simpl; split; congruence.
Qed.

(** X6. Rows that arrive later never disturb what the earlier rows
    produced: the incidents of a first batch keep their positions when a
    second batch is appended, each keeps its scalar fields, and its units
    are only extended at the end. New incidents come after them. *)
Theorem consolidate_later_rows_only_extend (rows1 rows2 : list CallRow) :
  Prefix (map (fun i : Incident => incidentNumber i) (consolidateData rows1))
         (map (fun i : Incident => incidentNumber i)
              (consolidateData (rows1 ++ rows2)))
  /\ (forall (n : nat) (i : Incident),
        nth_error (consolidateData rows1) n = Some i ->
        exists j : Incident,
          nth_error (consolidateData (rows1 ++ rows2)) n = Some j
          /\ base j = base i
          /\ Prefix (units i) (units j)).
Proof.
  pose proof (firstSeen_app_prefix text_eqb text_eqb_spec
                (map incidentNumber rows1) (map incidentNumber rows2)) as Hp.
  rewrite <- map_app in Hp. split.
  - rewrite !consolidateData_keys. exact Hp.
  - intros n i Hn. destruct Hp as [rest Hrest].
    apply nth_error_map_Some in Hn. rewrite consolidateData_closed in Hn.
    rewrite nth_error_map in Hn.
    destruct (nth_error (firstSeen text_eqb (map incidentNumber rows1)) n)
      as [k|] eqn:Ek; simpl in Hn; [|discriminate].
    injection Hn as Hi.
    destruct (incidentOf_Some _ _ _ Hi) as (r & Hf & Ei).
    destruct (firstSeen_app_prefix String.eqb String.eqb_spec
                (unitStream k rows1) (unitStream k rows2)) as [more Hmore].
    rewrite <- unitStream_app in Hmore.
    exists (mkIncident r (firstSeen String.eqb (unitStream k (rows1 ++ rows2)))
                       (Z.of_nat (List.length
                          (firstSeen String.eqb (unitStream k (rows1 ++ rows2)))))).
    split; [|split].
    + apply nth_error_map_Some. rewrite consolidateData_closed, Hrest.
      rewrite nth_error_map, nth_error_app1
        by (apply nth_error_Some; congruence).
      rewrite Ek. simpl. unfold incidentOf, pendingIncident.
      rewrite find_append, Hf. reflexivity.
    + rewrite Ei. reflexivity.
    + rewrite Ei. simpl. exists more. exact Hmore.
Qed.

Lemma list_sum_map_add {A} (f g : A -> nat) l :
  list_sum (map (fun x => (f x + g x)%nat) l)
  = (list_sum (map f l) + list_sum (map g l))%nat.
Proof. induction l as [|a l IH]; simpl; lia. Qed.

Lemma list_sum_key_NoDup (k0 : text) ks :
  NoDup ks ->
  (list_sum (map (fun k => if text_eqb k0 k then 1 else 0)%nat ks) <= 1)%nat.
Proof.
  induction 1 as [|k ks Hin Hnd IH]; simpl; [lia|].
  destruct (text_eqb_spec k0 k) as [->|]; [|lia].
  assert (E : list_sum (map (fun k' => if text_eqb k k' then 1 else 0)%nat ks)
              = 0%nat).
  { clear IH Hnd. induction ks as [|k' ks IH]; simpl; [reflexivity|].
    destruct (text_eqb_spec k k') as [->|].
    - exfalso. apply Hin. left. reflexivity.
    - apply IH. intros H. apply Hin. right. exact H. }
  lia.
Qed.

(** Rows grouped by distinct keys are counted at most once. *)
Lemma rowsOf_total ks rows :
  NoDup ks ->
  (list_sum (map (fun k => List.length (rowsOf k rows)) ks)
   <= List.length rows)%nat.
Proof.
  intros Hnd. unfold rowsOf. induction rows as [|r rows IH]; simpl.
  - induction ks as [|k ks IHk]; simpl; [lia|].
    inversion Hnd; subst. auto.
  - rewrite (map_ext _ (fun k => ((if text_eqb (incidentNumber r) k
                                   then 1 else 0)
                                  + List.length (filter (hasKey k) rows))%nat)).
    + rewrite list_sum_map_add.
      pose proof (list_sum_key_NoDup (incidentNumber r) ks Hnd). lia.
    + intros k. unfold hasKey at 1. destruct (text_eqb _ k); reflexivity.
Qed.

Lemma reportedUnit_length rows :
  (List.length (flat_map reportedUnit rows) <= List.length rows)%nat.
Proof.
  induction rows as [|r rows IH]; simpl; [lia|].
  rewrite length_app. unfold reportedUnit at 1.
  destruct (unitNumber r) as [| |u]; simpl; try lia.
  destruct (truthyString u); simpl; lia.
Qed.

(** X7. Over all incidents of a consolidation, the unit counts add up to
    at most the number of rows: a row contributes at most one unit, to one
    incident. *)
Theorem consolidate_total_units_bounded (rows : list CallRow) :
  (0 <= totalUnits (consolidateData rows) <= Z.of_nat (List.length rows))%Z.
Proof.
  pose proof (consolidateData_Forall2 rows) as H.
  pose proof (rowsOf_total (firstSeen text_eqb (map incidentNumber rows)) rows
                (firstSeen_NoDup text_eqb text_eqb_spec _)) as Hsum.
  assert (Hb : (0 <= totalUnits (consolidateData rows)
                <= Z.of_nat (list_sum
                     (map (fun k => List.length (rowsOf k rows))
                          (firstSeen text_eqb (map incidentNumber rows)))))%Z).
  { clear Hsum. induction H as [|i k out ks Hi _ IH]; simpl; [lia|].
    apply incidentOf_Some in Hi as (r & _ & ->). simpl.
    pose proof (firstSeen_length String.eqb (unitStream k rows)).
    pose proof (reportedUnit_length (rowsOf k rows)).
    unfold unitStream in *. lia. }
  lia.
Qed.

End ConsolidationMore.

(* ===================================================================== *)
(** ** The list and the counters                                          *)
(* ===================================================================== *)

Module ListAndCounters.
Import ListFacts App AppFacts ConsolidationFacts.

(** X8. [renderList] reports the true number of visible incidents in the
    list counter while it shows at most the first 100 of them, in order,
    one item each; it shows the placeholder exactly when no incident is
    visible; and it touches nothing but the list and its counter. *)
Theorem renderList_caps_items_not_count (calls : list Incident) (st : State) :
  let st' := renderList calls st in
  listCount (el st') = Z.of_nat (List.length calls)
  /\ (callList (el st') = NoMatch <-> calls = [])
  /\ (forall items, callList (el st') = Items items ->
        List.length items = Nat.min 100 (List.length calls)
        /\ forall n, nth_error items n
                     = if (n <? 100)%nat
                       then option_map renderItem (nth_error calls n)
                       else None)
  /\ allCallsRaw st' = allCallsRaw st
  /\ consolidatedCalls st' = consolidatedCalls st
  /\ markerLayer st' = markerLayer st
  /\ markersByIncident st' = markersByIncident st
  /\ fx st' = fx st
  /\ counters (el st') = counters (el st)
  /\ statusLine (el st') = statusLine (el st).
Proof.
  intros st'. subst st'. unfold renderList. destruct calls as [|c calls].
  - cbn [el withEl setList listCount callList]. repeat split; auto; discriminate.
  - set (l := c :: calls).
    change (callList (el (withEl (setList (Z.of_nat (List.length l))
                                          (Items (map renderItem (firstn 100 l))))
                                 st)))
      with (Items (map renderItem (firstn 100 l))).
    split; [reflexivity|]. split; [split; discriminate|].
    split; [|repeat split]. clearbody l.
    remember (firstn 100 l) as shown eqn:Es.
    intros items H. injection H as <-. subst shown. split.
    + rewrite length_map, length_firstn. reflexivity.
    + intros n. rewrite nth_error_map, nth_error_firstn.
      destruct (n <? 100)%nat; reflexivity.
Qed.

(** X9. For an incident that comes out of [consolidateData], the unit
    text of its list item never falls back to the question mark: with a
    unit count of 1 the item names the one unit of the incident, which is
    not empty; otherwise it shows the number of units. *)
Theorem consolidated_item_names_its_unit (rows : list CallRow) (i : Incident) :
  In i (consolidateData rows) ->
  (unitCount i = 1%Z ->
   exists u, units i = [u] /\ u <> "" /\ itemUnits (renderItem i) = UnitSingle u)
  /\ (unitCount i <> 1%Z ->
      itemUnits (renderItem i) = UnitPlural (Z.of_nat (List.length (units i)))).
Proof.
  intros Hi. pose proof (consolidateData_In _ _ Hi) as Hio.
  destruct (incidentOf_Some _ _ _ Hio) as (r & Hf & Ei).
  set (us := firstSeen String.eqb (unitStream (incidentNumber i) rows)) in *.
  assert (Hu : units i = us) by (rewrite Ei; reflexivity).
  assert (Hc : unitCount i = Z.of_nat (List.length us)) by (rewrite Ei; reflexivity).
  assert (Hne : forall u, In u us -> u <> "").
  { intros u Hin. unfold us in Hin.
    apply (proj1 (firstSeen_In String.eqb String.eqb_spec u _)) in Hin.
    apply Consolidation.unitStream_In in Hin as (_ & _ & _ & _ & H). exact H. }
  unfold renderItem. cbn [itemUnits]. rewrite Hu, Hc. split.
  - intros H1. destruct us as [|u [|u' us']]; simpl in H1; try lia.
    exists u. split; [reflexivity|]. split; [apply Hne; left; reflexivity|].
    assert (Hnu : u <> "") by (apply Hne; left; reflexivity).
    destruct u; [congruence|reflexivity].
  - intros H1. destruct (Z.of_nat (List.length us) =? 1)%Z eqn:E.
    + apply Z.eqb_eq in E. contradiction.
    + reflexivity.
Qed.

Lemma consolidated_item_names_its_unit_witness :
  In Examples.incidentB2 (consolidateData Examples.exampleRows)
  /\ (unitCount Examples.incidentB2 = 1%Z ->
      exists u, units Examples.incidentB2 = [u] /\ u <> ""
                /\ itemUnits (renderItem Examples.incidentB2) = UnitSingle u).
Proof.
  assert (H : In Examples.incidentB2 (consolidateData Examples.exampleRows))
    by (right; left; reflexivity).
  split; [exact H|].
  exact (proj1 (consolidated_item_names_its_unit
                  Examples.exampleRows Examples.incidentB2 H)).
Defined.

Section AfterPoll.
Context {browser : Browser}.

(** X10. The three counters always add up: after [updateStats], and so
    after every poll whose body parses, the number of incidents shown is the
    mapped count plus the unmapped count, and neither is negative. *)
Theorem counters_add_up (data : Snapshot) (incs : list Incident)
  (code : Z) (st : State) :
  (forall t m u,
     counters (el (updateStats data incs st)) = (t, m, u) ->
     (t = m + u /\ 0 <= m /\ 0 <= u)%Z)
  /\ (forall t m u,
        counters (el (fetchCalls_settle (Http code (Some data)) st)) = (t, m, u) ->
        (t = m + u /\ 0 <= m /\ 0 <= u)%Z).
Proof.
  assert (H : forall l : list Incident, forall t m u,
             (Z.of_nat (List.length l),
              Z.of_nat (List.length (countedMapped l)),
              Z.of_nat (List.length (countedUnmapped l))) = (t, m, u) ->
             (t = m + u /\ 0 <= m /\ 0 <= u)%Z).
  { intros l t m u [= <- <- <-].
    pose proof (filter_negb_length (fun c : Incident => latAndLon c) l) as E.
    cbv beta in E. unfold countedMapped, countedUnmapped. lia. }
  split; intros t m u.
  - rewrite updateStats_counters. apply H.
  - unfold fetchCalls_settle.
    change (counters (el (withEl (setSpinning false) ?s)))
      with (counters (el s)).
    rewrite fetchCalls_tried_counters. apply H.
Qed.

End AfterPoll.
End ListAndCounters.

(* ===================================================================== *)
(** ** More on filtering                                                  *)
(* ===================================================================== *)

Module FilterMore.
Import ListFacts StringFacts App.

Section Search.
Context {browser : Browser}.

(** X11. A search text that the browser folds and trims to the empty
    string, as [trim] does with a text of white space only, is no
    search: the filter then selects by division alone, and with the
    division "all" it returns the incidents unchanged. *)
Theorem blank_search_selects_by_division_only (st : State) :
  trim (toLowerCase (searchValue (el st))) = "" ->
  getFilteredCalls st
  = filter (fun c : Incident =>
              String.eqb (divisionValue (el st)) "all"
              || text_eqb (division c) (Val (divisionValue (el st))))
           (consolidatedCalls st)
  /\ (divisionValue (el st) = "all" ->
      getFilteredCalls st = consolidatedCalls st).
Proof.
  intros Hb. unfold getFilteredCalls. rewrite Hb.
  assert (E : forall c : Incident,
             callPasses (divisionValue (el st)) "" c
             = (String.eqb (divisionValue (el st)) "all"
                || text_eqb (division c) (Val (divisionValue (el st))))).
  { intros c. unfold callPasses. simpl.
    destruct (String.eqb _ "all"), (text_eqb _ _); reflexivity. }
  split.
  - apply filter_ext. exact E.
  - intros Hd. apply forallb_filter_id, forallb_forall. intros c _.
    rewrite E, Hd. reflexivity.
Qed.

Lemma Substring_trans p q s : Substring p q -> Substring q s -> Substring p s.
Proof.
  intros (a & b & ->) (pre & post & ->).
  exists (pre ++ a)%string, (b ++ post)%string.
  rewrite !HtmlFacts.append_assoc. reflexivity.
Qed.

Lemma Substring_empty p : Substring p "" -> p = "".
Proof.
  intros (a & b & H). destruct a; [|discriminate]. destruct p; [reflexivity|].
  discriminate.
Qed.

Lemma filter_filter_implies {A} (p q : A -> bool) l :
  (forall x, q x = true -> p x = true) ->
  filter q (filter p l) = filter q l.
Proof.
  intros H. induction l as [|a l IH]; simpl; [reflexivity|].
  destruct (p a) eqn:Ep; simpl.
  - destruct (q a); rewrite IH; reflexivity.
  - destruct (q a) eqn:Eq; [|exact IH]. apply H in Eq. congruence.
Qed.

(** X12. Extending the search text refines the current result. When the
    text the browser makes of a first search by folding and trimming
    occurs in the text it makes of a second search, and the division is
    the same, the incidents the second search selects are exactly those
    of the first result that pass the second search; none comes back
    that the first search had left out. *)
Theorem longer_search_refines_result (st : State) (selected s1 s2 : string) :
  Substring (trim (toLowerCase s1)) (trim (toLowerCase s2)) ->
  let first := getFilteredCalls (withEl (setFilterInputs selected s1) st) in
  let second := getFilteredCalls (withEl (setFilterInputs selected s2) st) in
  second = filter (callPasses selected (trim (toLowerCase s2))) first
  /\ Sublist second first.
Proof.
  intros Hsub first second.
  assert (E : second = filter (callPasses selected (trim (toLowerCase s2))) first).
  { subst first second. unfold getFilteredCalls.
    cbn [el withEl setFilterInputs divisionValue searchValue consolidatedCalls].
    symmetry. apply filter_filter_implies. intros c.
    rewrite !Filter.callPasses_spec. unfold SearchPredicate, SearchMatch.
    intros (Hd & Hs). split; [exact Hd|].
    destruct Hs as [Hq|Hs].
    - left. rewrite Hq in Hsub. apply Substring_empty, Hsub.
    - right.
      destruct Hs as [H|[H|[H|H]]];
        [left | right; left | right; right; left | right; right; right];
        eapply Substring_trans; eauto. }
  split; [exact E|]. rewrite E. apply filter_Sublist.
Qed.

End Search.

Lemma blank_search_selects_by_division_only_witness :
  @trim Examples.sampleBrowser
        (@toLowerCase Examples.sampleBrowser
           (searchValue (el (withEl (setFilterInputs "all" "   ")
                                    Examples.syncedState)))) = ""
  /\ getFilteredCalls (browser := Examples.sampleBrowser)
       (withEl (setFilterInputs "all" "   ") Examples.syncedState)
     = consolidatedCalls (withEl (setFilterInputs "all" "   ")
                                 Examples.syncedState).
Proof.
  split; [reflexivity|].
  apply (proj2 (blank_search_selects_by_division_only
                  (browser := Examples.sampleBrowser)
                  (withEl (setFilterInputs "all" "   ") Examples.syncedState)
                  eq_refl)).
  reflexivity.
Defined.

Lemma longer_search_refines_result_witness :
  Substring
    (@trim Examples.sampleBrowser (@toLowerCase Examples.sampleBrowser "fi"))
    (@trim Examples.sampleBrowser
           (@toLowerCase Examples.sampleBrowser " Fire "))
  /\ getFilteredCalls (browser := Examples.sampleBrowser)
       (withEl (setFilterInputs "all" " Fire ") Examples.syncedState)
     = filter (callPasses (browser := Examples.sampleBrowser) "all"
                 (@trim Examples.sampleBrowser
                        (@toLowerCase Examples.sampleBrowser " Fire ")))
              (getFilteredCalls (browser := Examples.sampleBrowser)
                 (withEl (setFilterInputs "all" "fi") Examples.syncedState)).
Proof.
  assert (H : Substring
                (@trim Examples.sampleBrowser
                       (@toLowerCase Examples.sampleBrowser "fi"))
                (@trim Examples.sampleBrowser
                       (@toLowerCase Examples.sampleBrowser " Fire "))).
  { exists "", "re". reflexivity. }
  split; [exact H|].
  exact (proj1 (longer_search_refines_result
                  (browser := Examples.sampleBrowser)
                  Examples.syncedState "all" "fi" " Fire " H)).
Defined.

End FilterMore.

(* ===================================================================== *)
(** ** More on marker synchronisation                                     *)
(* ===================================================================== *)

Module MarkersMore.
Import ListFacts MapFacts App MarkerFacts.

Lemma mapGet_mapSet {V} k k' (v : V) m :
  mapGet k' (mapSet k v m) = if text_eqb k k' then Some v else mapGet k' m.
Proof.
  induction m as [|[k0 v0] m IH]; simpl.
  - reflexivity.
  - destruct (text_eqb_spec k0 k) as [->|Hk]; simpl.
    + destruct (text_eqb k k'); reflexivity.
    + destruct (text_eqb_spec k0 k') as [->|Hk0]; [|exact IH].
      apply not_eq_sym, text_eqb_neq in Hk. rewrite Hk. reflexivity.
Qed.

Lemma mapKeys_mapSet {V} k (v : V) m :
  mapKeys (mapSet k v m) = if mapHas k m then mapKeys m else mapKeys m ++ [k].
Proof.
  unfold mapHas, mapKeys. induction m as [|[k0 v0] m IH]; simpl; [reflexivity|].
  destruct (text_eqb k0 k); simpl; [reflexivity|].
  rewrite IH. destruct (mapGet k m); reflexivity.
Qed.

Lemma markersFrom_snoc n cs c :
  markersFrom n (cs ++ [c])
  = markersFrom n cs ++ [markerFor (n + List.length cs) c].
Proof.
  revert n. induction cs as [|c0 cs IH]; intros n; simpl.
  - rewrite Nat.add_0_r. reflexivity.
  - rewrite IH.
    replace (n + S (List.length cs))%nat with (S n + List.length cs)%nat by lia.
    reflexivity.
Qed.

Lemma findLast_snoc {A} (p : A -> bool) l x :
  findLast p (l ++ [x]) = if p x then Some x else findLast p l.
Proof. unfold findLast. rewrite rev_app_distr. reflexivity. Qed.

(** The lookup table after the loop of [updateMarkers] over any list of
    incidents, started on an empty table. *)
Lemma fold_addMarker_lookup cs st :
  markersByIncident st = [] ->
  (forall k,
     mapGet k (markersByIncident (fold_left addMarker cs st))
     = findLast (fun m => text_eqb (incidentNumber (popupOf m)) k)
                (markersFrom (nextLayerId st) cs))
  /\ mapKeys (markersByIncident (fold_left addMarker cs st))
     = firstSeen text_eqb (map (fun c : Incident => incidentNumber c) cs).
Proof.
  intros Hempty. induction cs as [|c cs IH] using rev_ind.
  - simpl. rewrite Hempty. split; reflexivity.
  - destruct IH as (IHg & IHk).
    destruct (fold_addMarker_frame cs st) as (_ & _ & _ & _ & _ & Hn).
    rewrite fold_left_app. cbn [fold_left addMarker markersByIncident].
    split.
    + intros k. rewrite mapGet_mapSet, markersFrom_snoc, findLast_snoc, IHg.
      cbn [popupOf markerFor]. rewrite Hn. reflexivity.
    + rewrite mapKeys_mapSet, mapHas_keys, IHk, map_app. simpl.
      rewrite (firstSeen_snoc text_eqb text_eqb_spec).
      rewrite ConsolidationFacts.existsb_firstSeen_text.
      destruct (existsb _ _); reflexivity.
Qed.

(** X14. For any list of visible incidents, repeated incident numbers
    included, [updateMarkers] leaves one marker on the layer for every
    visible incident with both coordinates, in order and with fresh
    consecutive identities; the lookup table has one entry per incident
    number, in order of first appearance, and looking a number up gives
    the marker of the last visible incident with that number. *)
Theorem updateMarkers_layer_keeps_all_lookup_keeps_last
  (visible : list Incident) (st : State) :
  let st' := updateMarkers visible st in
  let mapped := filter (fun c : Incident => hasCoordinates c) visible in
  map popupOf (markerLayer st') = mapped
  /\ map markerId (markerLayer st')
     = seq (nextLayerId st) (List.length mapped)
  /\ mapKeys (markersByIncident st')
     = firstSeen text_eqb (map (fun c : Incident => incidentNumber c) mapped)
  /\ (forall k,
        mapGet k (markersByIncident st')
        = findLast (fun m => text_eqb (incidentNumber (popupOf m)) k)
                   (markerLayer st')).
Proof.
  intros st' mapped. subst st'. unfold updateMarkers. fold mapped.
  rewrite fold_addMarker_layer.
  destruct (fold_addMarker_lookup mapped (clearMarkers st) eq_refl) as (Hg & Hk).
  cbn [markerLayer clearMarkers nextLayerId app] in *.
  split; [apply markersFrom_popupOf|]. split; [apply markersFrom_ids|].
  split; [exact Hk | exact Hg].
Qed.

Lemma findLast_markersFrom q n cs :
  option_map popupOf
    (findLast (fun m => q (popupOf m)) (markersFrom n cs))
  = findLast q cs.
Proof.
  induction cs as [|c cs IH] using rev_ind; [reflexivity|].
  rewrite markersFrom_snoc, !findLast_snoc. cbn [popupOf markerFor].
  destruct (q c); [reflexivity | exact IH].
Qed.

(** X13. Synchronising twice with the same visible incidents changes
    nothing one can see: the layer shows the same incidents in the same
    order, the lookup table has the same keys, and every number leads to
    a marker of the same incident. Only the marker objects are new: no
    marker of the first synchronisation is on the layer after the
    second. *)
Theorem updateMarkers_twice_same_view (visible : list Incident) (st : State) :
  let once := updateMarkers visible st in
  let twice := updateMarkers visible once in
  map popupOf (markerLayer twice) = map popupOf (markerLayer once)
  /\ mapKeys (markersByIncident twice) = mapKeys (markersByIncident once)
  /\ (forall k,
        option_map popupOf (mapGet k (markersByIncident twice))
        = option_map popupOf (mapGet k (markersByIncident once)))
  /\ (forall m, In m (markerLayer once) -> ~ In m (markerLayer twice)).
Proof.
  intros once twice. subst once twice.
  set (mapped := filter (fun c : Incident => hasCoordinates c) visible).
  assert (L : forall s, markerLayer (updateMarkers visible s)
                        = markersFrom (nextLayerId s) mapped).
  { intros s. unfold updateMarkers. fold mapped.
    rewrite fold_addMarker_layer. reflexivity. }
  assert (G : forall s k,
             option_map popupOf (mapGet k (markersByIncident (updateMarkers visible s)))
             = findLast (fun c : Incident => text_eqb (incidentNumber c) k) mapped).
  { intros s k. unfold updateMarkers. fold mapped.
    destruct (fold_addMarker_lookup mapped (clearMarkers s) eq_refl) as (Hg & _).
    rewrite Hg.
    apply (findLast_markersFrom
             (fun c : Incident => text_eqb (incidentNumber c) k)). }
  assert (K : forall s, mapKeys (markersByIncident (updateMarkers visible s))
                        = firstSeen text_eqb
                            (map (fun c : Incident => incidentNumber c) mapped)).
  { intros s. unfold updateMarkers. fold mapped.
    apply (fold_addMarker_lookup mapped (clearMarkers s) eq_refl). }
  split; [|split; [|split]].
  - rewrite !L, !markersFrom_popupOf. reflexivity.
  - rewrite !K. reflexivity.
  - intros k. rewrite !G. reflexivity.
  - intros m H1 H2. rewrite L in H1, H2.
    apply (in_map markerId) in H1, H2. rewrite markersFrom_ids in H1, H2.
    apply in_seq in H1, H2. rewrite updateMarkers_nextLayerId in H2.
    fold mapped in H2. lia.
Qed.

End MarkersMore.

(* ===================================================================== *)
(** ** What holds in every state of a run of app.js                       *)
(* ===================================================================== *)

Module RunFacts.
Import ListFacts MapFacts App MarkerFacts AppFacts ConsolidationFacts.

Section Runs.
Context {browser : Browser}.

Lemma getFilteredCalls_render st :
  getFilteredCalls (render st) = getFilteredCalls st.
Proof.
  destruct (render_frame st) as (_ & Hc & _ & _ & n & v & He).
  unfold getFilteredCalls. rewrite Hc, He. reflexivity.
Qed.

Lemma render_markers st :
  markerLayer (render st) = markerLayer (updateMarkers (getFilteredCalls st) st)
  /\ markersByIncident (render st)
     = markersByIncident (updateMarkers (getFilteredCalls st) st).
Proof.
  unfold render.
  destruct (renderList_eq (getFilteredCalls st)
                          (updateMarkers (getFilteredCalls st) st))
    as (n & v & ->).
  split; reflexivity.
Qed.

Lemma render_shows_markers st :
  NoDup (map (fun c : Incident => incidentNumber c) (consolidatedCalls st)) ->
  markersShowFiltered (render st).
Proof.
  intros Hnd. unfold markersShowFiltered.
  destruct (render_markers st) as (Hl & Ht).
  rewrite getFilteredCalls_render, Hl, Ht.
  destruct (updateMarkers_closed (getFilteredCalls st) st
              (Reachable.getFilteredCalls_NoDup st Hnd)) as (L & T & _).
  split; [|exact T]. rewrite L. apply markersFrom_popupOf.
Qed.

Lemma renderList_view calls st :
  listCount (el (renderList calls st)) = Z.of_nat (List.length calls)
  /\ callList (el (renderList calls st)) = listViewOf calls.
Proof. unfold renderList. destruct calls; split; reflexivity. Qed.

Lemma render_shows_list st : listShowsFiltered (render st).
Proof.
  unfold listShowsFiltered. rewrite getFilteredCalls_render.
  unfold render. apply renderList_view.
Qed.

(** A parsed poll on which nothing throws ends in a [render] of a state
    that holds the rows of the body and their consolidation. *)
Lemma fetchCalls_tried_as_render data st :
  firstLoad st && fitFails data = false ->
  exists st2,
    tryCatch (fetchCalls_body data st) fetchCalls_catch = render st2
    /\ allCallsRaw st2 = rowsOfSnapshot data
    /\ consolidatedCalls st2 = consolidateData (rowsOfSnapshot data).
Proof.
  intros H. rewrite fetchCalls_body_eq, H. exists (fitted data st).
  split; [reflexivity|].
  split; [|apply Reachable.fitted_consolidatedCalls].
  destruct (prepared_frame data st) as (Pa & _).
  unfold fitted. destruct (firstLoad st); [|exact Pa].
  destruct (fitIncidents data); exact Pa.
Qed.

(** A parsed poll on which the fit throws: the rows and the incidents
    are those of the body, the [catch] block has reported the loss, and
    the markers, the list and its counter are as they were. *)
Lemma fetchCalls_tried_thrown data st :
  firstLoad st && fitFails data = true ->
  let st' := tryCatch (fetchCalls_body data st) fetchCalls_catch in
  allCallsRaw st' = rowsOfSnapshot data
  /\ consolidatedCalls st' = consolidateData (rowsOfSnapshot data)
  /\ markerLayer st' = markerLayer st
  /\ markersByIncident st' = markersByIncident st
  /\ callList (el st') = callList (el st)
  /\ listCount (el st') = listCount (el st)
  /\ statusLine (el st') = "Connection Lost".
Proof.
  intros H st'. subst st'. rewrite fetchCalls_body_eq, H.
  cbn [tryCatch fetchCalls_catch withFx withEl allCallsRaw consolidatedCalls
       markerLayer markersByIncident el setStatus callList listCount
       statusLine].
  destruct (prepared_frame data st) as (Pa & Pc & Pl & Pt & _).
  destruct (prepared_elements data st) as (_ & _ & Ec & En & _).
  repeat split; assumption.
Qed.

Lemma step_dataConsolidated st ev :
  dataConsolidated st -> dataConsolidated (step st ev).
Proof.
  intros Hd. destruct ev as [|r| |resolved| |d s|arg]; cbn [step].
  - exact Hd.
  - destruct r as [msg|code [data|]]; unfold fetchCalls_settle;
      try exact Hd.
    unfold dataConsolidated.
    destruct (fetchCalls_tried_frame data st) as (_ & _ & _ & _ & Ha & Hc).
    cbn [withEl allCallsRaw consolidatedCalls]. rewrite Ha, Hc. reflexivity.
  - destruct (refreshDisabled (el st)); assumption.
  - destruct resolved; assumption.
  - destruct (timeouts (fx st)); assumption.
  - unfold dataConsolidated.
    destruct (render_frame (withEl (setFilterInputs d s) st))
      as (Ra & Rc & _).
    rewrite Ra, Rc. exact Hd.
  - unfold focusCall. destruct (find _ _) as [call|]; [|assumption].
    destruct (latAndLon call); [|assumption].
    destruct (mapGet _ _); assumption.
Qed.

Lemma step_shows_markers st ev :
  appInvariant st -> markersShowFiltered st -> pollThrows st ev = false ->
  markersShowFiltered (step st ev).
Proof.
  intros Hinv Hm Ht. destruct ev as [|r| |resolved| |d s|arg]; cbn [step].
  - exact Hm.
  - destruct r as [msg|code [data|]]; unfold fetchCalls_settle;
      try exact Hm.
    cbn [pollThrows] in Ht.
    destruct (fetchCalls_tried_as_render data st Ht) as (st2 & -> & Ha & Hc).
    change (markersShowFiltered (render st2)).
    apply render_shows_markers. rewrite Hc. apply consolidateData_NoDup.
  - destruct (refreshDisabled (el st)); assumption.
  - destruct resolved; assumption.
  - destruct (timeouts (fx st)); assumption.
  - apply render_shows_markers. apply Hinv.
  - unfold focusCall. destruct (find _ _) as [call|]; [|assumption].
    destruct (latAndLon call); [|assumption].
    destruct (mapGet _ _); assumption.
Qed.

(** X15. In every state app.js reaches from page load, whatever the
    events, the incidents held are the consolidation of the rows held;
    and as long as no poll has been left by a throw of the fit, the
    marker layer shows exactly the incidents that pass the current
    filter and have both coordinates, in order, and the lookup table
    indexes exactly the markers of the layer by incident number. *)
Theorem map_always_shows_filtered_incidents (page : Elements) (evs : list Event) :
  let st := run evs (initialState page) in
  dataConsolidated st
  /\ (firstFitFails evs = false -> markersShowFiltered st).
Proof.
  intros st. subst st. split.
  - assert (H : forall l s, dataConsolidated s -> dataConsolidated (run l s)).
    { unfold run. induction l as [|ev l IH]; intros s Hd; simpl; [auto|].
      apply IH, step_dataConsolidated, Hd. }
    apply H. reflexivity.
  - assert (H : forall l s,
               appInvariant s -> markersShowFiltered s ->
               (firstLoad s = true -> firstFitFails l = false) ->
               markersShowFiltered (run l s)).
    { unfold run. induction l as [|ev l IH]; intros s Hi Hm Hf; simpl; [auto|].
      assert (Ht : pollThrows s ev = false).
      { destruct ev as [|r| |resolved| |d q|arg]; try reflexivity.
        destruct r as [msg|code [data|]]; try reflexivity.
        cbn [pollThrows]. destruct (firstLoad s); [|reflexivity].
        apply (Hf eq_refl). }
      apply IH.
      - apply Reachable.step_invariant, Hi.
      - apply step_shows_markers; assumption.
      - intros Hl. destruct (ViewFit.step_fit s ev) as (_ & E).
        rewrite E in Hl. apply andb_true_iff in Hl as (Hl & Hp).
        specialize (Hf Hl). unfold firstFitFails in *. cbn [firstParsed] in Hf.
        destruct (parsedBody ev); [discriminate | exact Hf]. }
    intros Hf. apply H.
    + split; [constructor|]. intros m [[]|[]].
    + split; reflexivity.
    + intros _. exact Hf.
Qed.

(** X16. The list follows the filter: every event that renders (a
    change of a filter control, or a poll whose body parses and whose
    [try] block runs to its end) leaves the list and its counter showing
    the incidents that pass the filter, and no other event breaks that,
    but one: a poll whose body parses and on which the fit throws
    replaces the incidents and leaves the list, its counter and the
    markers as they were, under the status "Connection Lost". *)
Theorem list_always_shows_filtered_incidents (st : State) (ev : Event) :
  (renders st ev = true -> listShowsFiltered (step st ev))
  /\ (pollThrows st ev = false ->
      listShowsFiltered st -> listShowsFiltered (step st ev))
  /\ (forall data, parsedBody ev = Some data -> pollThrows st ev = true ->
        consolidatedCalls (step st ev) = consolidateData (rowsOfSnapshot data)
        /\ callList (el (step st ev)) = callList (el st)
        /\ listCount (el (step st ev)) = listCount (el st)
        /\ markerLayer (step st ev) = markerLayer st
        /\ statusLine (el (step st ev)) = "Connection Lost").
Proof.
  destruct ev as [|r| |resolved| |d s|arg];
    cbn [step renders pollThrows parsedBody];
    try (split; [discriminate | split; [intros _ H; exact H | discriminate]]).
  - destruct r as [msg|code [data|]]; unfold fetchCalls_settle;
      try (split; [discriminate | split; [intros _ H; exact H | discriminate]]).
    split; [|split].
    + rewrite negb_true_iff. intros Ht.
      destruct (fetchCalls_tried_as_render data st Ht) as (st2 & -> & _).
      change (listShowsFiltered (render st2)). apply render_shows_list.
    + intros Ht _.
      destruct (fetchCalls_tried_as_render data st Ht) as (st2 & -> & _).
      change (listShowsFiltered (render st2)). apply render_shows_list.
    + intros data' [= <-] Ht.
      destruct (fetchCalls_tried_thrown data st Ht)
        as (_ & Hc & Hl & _ & Hv & Hn & Hs).
      cbn [withEl consolidatedCalls markerLayer el setSpinning callList
           listCount statusLine].
      repeat split; assumption.
  - split; [discriminate|]. split; [|discriminate]. intros _ H.
    destruct (refreshDisabled (el st)); exact H.
  - split; [discriminate|]. split; [|discriminate]. intros _ H.
    destruct resolved; exact H.
  - split; [discriminate|]. split; [|discriminate]. intros _ H.
    destruct (timeouts (fx st)); exact H.
  - split; [intros _; apply render_shows_list|].
    split; [intros _ _; apply render_shows_list | discriminate].
  - split; [discriminate|]. split; [|discriminate]. intros _ H.
    unfold focusCall.
    destruct (find _ _) as [call|]; [|exact H].
    destruct (latAndLon call); [|exact H].
    destruct (mapGet _ _); exact H.
Qed.

End Runs.

(** A first poll on which the fit throws, in the sample browser: the
    body brings an incident whose latitude is [-Infinity].  The page
    holds the incident, reports the loss of the connection and shows
    neither a marker nor a list item for it. *)
Example fit_throws_on_first_poll :
  let ev := CallsSettled (Http 200 (Some Examples.farSnapshot)) in
  pollThrows (browser := Examples.sampleBrowser)
             (initialState Examples.page0) ev = true
  /\ firstFitFails (browser := Examples.sampleBrowser) [PollTick; ev] = true
  /\ consolidatedCalls Examples2.farState = [Examples.incidentFar]
  /\ getFilteredCalls (browser := Examples.sampleBrowser) Examples2.farState
     = [Examples.incidentFar]
  /\ markerLayer Examples2.farState = []
  /\ callList (el Examples2.farState) = NoMatch
  /\ statusLine (el Examples2.farState) = "Connection Lost"
  /\ firstLoad Examples2.farState = false.
Proof. vm_compute. repeat split; reflexivity. Qed.

End RunFacts.

(* ===================================================================== *)
(** ** The division filter                                                *)
(* ===================================================================== *)

Module Divisions.
Import ListFacts App AppFacts ConsolidationFacts.

Section Options.
Context {browser : Browser}.

Lemma setOfStrings_from pre xs :
  fold_left (fun acc x => if arrayIncludes acc x then acc else acc ++ [x])
            xs (firstSeen String.eqb pre)
  = firstSeen String.eqb (pre ++ xs).
Proof.
  revert pre. induction xs as [|x xs IH]; intros pre; simpl.
  - rewrite app_nil_r. reflexivity.
  - replace (pre ++ x :: xs) with ((pre ++ [x]) ++ xs)
      by (rewrite <- app_assoc; reflexivity).
    rewrite <- IH. f_equal.
    rewrite (firstSeen_snoc String.eqb String.eqb_spec),
            arrayIncludes_firstSeen.
    reflexivity.
Qed.

(** [new Set(xs)] keeps the first occurrence of every value. *)
Lemma setOfStrings_firstSeen xs : setOfStrings xs = firstSeen String.eqb xs.
Proof. apply (setOfStrings_from [] xs). Qed.

Lemma insertSorted_Permutation x l : Permutation (insertSorted x l) (x :: l).
Proof.
  induction l as [|y l IH]; simpl; [reflexivity|].
  destruct (String.leb x y); [reflexivity|].
  rewrite IH. apply perm_swap.
Qed.

Lemma sortStrings_Permutation l : Permutation (sortStrings l) l.
Proof.
  induction l as [|x l IH]; simpl; [reflexivity|].
  rewrite insertSorted_Permutation. constructor. exact IH.
Qed.

Lemma insertSorted_Sorted x l :
  Sorted (fun a b => String.leb a b = true) l ->
  Sorted (fun a b => String.leb a b = true) (insertSorted x l).
Proof.
  induction 1 as [|y l Hs IH Hhd]; simpl.
  - repeat constructor.
  - destruct (String.leb x y) eqn:E.
    + constructor; [constructor; assumption | constructor; exact E].
    + constructor; [exact IH|].
      assert (Hyx : String.leb y x = true).
      { destruct (String.leb_total x y); congruence. }
      destruct l as [|z l]; simpl.
      * constructor. exact Hyx.
      * destruct (String.leb x z); constructor; [exact Hyx|].
        inversion Hhd. assumption.
Qed.

Lemma sortStrings_Sorted l :
  Sorted (fun a b => String.leb a b = true) (sortStrings l).
Proof.
  induction l as [|x l IH]; simpl; [constructor|].
  apply insertSorted_Sorted, IH.
Qed.

Lemma truthyDivisions_In (cs : list Incident) d :
  In d (truthyDivisions cs) <->
  d <> "" /\ exists c : Incident, In c cs /\ division c = Val d.
Proof.
  unfold truthyDivisions. rewrite in_flat_map. split.
  - intros (c & Hc & Hd). destruct (division c) as [| |d'] eqn:E;
      simpl in Hd; try tauto.
    destruct d' as [|a d']; simpl in Hd; [tauto|].
    destruct Hd as [<-|[]]. split; [discriminate|]. exists c. auto.
  - intros (Hne & c & Hc & E). exists c. split; [exact Hc|]. rewrite E.
    destruct d; [congruence|]. left. reflexivity.
Qed.

Lemma arrayIncludes_In l x : arrayIncludes l x = true <-> In x l.
Proof. apply (existsb_eqb_In String.eqb String.eqb_spec). Qed.

(** X18. [syncDivisions] writes into the markup of the options the
    non-empty divisions of the incidents held, each once, in ascending
    order.  The options offered are those the parser builds from that
    markup, in which the divisions stand unescaped.  The previous
    selection is kept when it is one of these divisions and the parser
    has built an option with that value; when it is one of them and no
    option has that value, nothing is selected and the control reads as
    the empty string; otherwise the selection is the one the parser
    leaves.  When the parser gives every division as written (none holds
    a character with a meaning in HTML), the options are "all" followed
    by these divisions and the selected value is one of them: the
    previous selection when it is still a division, "all" otherwise.
    Nothing but the filter control has changed. *)
Theorem syncDivisions_offers_sorted_distinct_divisions (st : State) :
  let st' := syncDivisions st in
  let current := divisionValue (el st) in
  exists ds,
    Sorted (fun a b => String.leb a b = true) ds
    /\ NoDup ds
    /\ (forall d, In d ds <->
          d <> "" /\ exists c : Incident,
                       In c (consolidatedCalls st) /\ division c = Val d)
    /\ divisionOptions (el st') = parsedOptions ds
    /\ (In current ds -> In current (parsedOptions ds) ->
        divisionValue (el st') = current)
    /\ (In current ds -> ~ In current (parsedOptions ds) ->
        divisionValue (el st') = "")
    /\ (~ In current ds -> divisionValue (el st') = parsedSelection ds)
    /\ (parsedAsWritten ds ->
        divisionOptions (el st') = "all" :: ds
        /\ In (divisionValue (el st')) (divisionOptions (el st'))
        /\ (In current ds -> divisionValue (el st') = current)
        /\ (~ In current ds -> divisionValue (el st') = "all"))
    /\ searchValue (el st') = searchValue (el st)
    /\ consolidatedCalls st' = consolidatedCalls st
    /\ counters (el st') = counters (el st).
Proof.
  intros st' current. subst st' current. unfold syncDivisions.
  set (ds := sortStrings (setOfStrings (truthyDivisions (consolidatedCalls st)))).
  exists ds. cbn [el withEl setDivisions divisionOptions divisionValue
                  searchValue consolidatedCalls].
  assert (Hperm : Permutation ds (firstSeen String.eqb
                                   (truthyDivisions (consolidatedCalls st)))).
  { subst ds. rewrite <- setOfStrings_firstSeen. apply sortStrings_Permutation. }
  split; [apply sortStrings_Sorted|].
  split; [|split; [|split; [reflexivity|]]].
  - eapply Permutation_NoDup; [symmetry; exact Hperm|].
    apply (firstSeen_NoDup String.eqb String.eqb_spec).
  - intros d. rewrite <- truthyDivisions_In. split; intros H.
    + apply (firstSeen_In String.eqb String.eqb_spec).
      eapply Permutation_in; [exact Hperm | exact H].
    + eapply Permutation_in; [symmetry; exact Hperm|].
      apply (firstSeen_In String.eqb String.eqb_spec). exact H.
  - assert (Hkeep : In (divisionValue (el st)) ds ->
                    In (divisionValue (el st)) (parsedOptions ds) ->
                    (if arrayIncludes ds (divisionValue (el st))
                     then if arrayIncludes (parsedOptions ds)
                                           (divisionValue (el st))
                          then divisionValue (el st) else ""
                     else parsedSelection ds) = divisionValue (el st)).
    { intros H1 H2. apply arrayIncludes_In in H1, H2. rewrite H1, H2.
      reflexivity. }
    assert (Hother : ~ In (divisionValue (el st)) ds ->
                     (if arrayIncludes ds (divisionValue (el st))
                      then if arrayIncludes (parsedOptions ds)
                                            (divisionValue (el st))
                           then divisionValue (el st) else ""
                      else parsedSelection ds) = parsedSelection ds).
    { intros H. destruct (arrayIncludes ds (divisionValue (el st))) eqn:E;
        [|reflexivity].
      apply arrayIncludes_In in E. contradiction. }
    split; [exact Hkeep|]. split; [|split; [exact Hother|split]].
    + intros H1 H2. apply arrayIncludes_In in H1. rewrite H1.
      destruct (arrayIncludes (parsedOptions ds) (divisionValue (el st))) eqn:E;
        [|reflexivity].
      apply arrayIncludes_In in E. contradiction.
    + intros (Ho & Hs). split; [exact Ho|].
      assert (Hin : In (divisionValue (el st)) ds ->
                    In (divisionValue (el st)) (parsedOptions ds)).
      { intros H. rewrite Ho. right. exact H. }
      split; [|split].
      * destruct (arrayIncludes ds (divisionValue (el st))) eqn:E.
        -- apply arrayIncludes_In in E. rewrite (Hkeep E (Hin E)), Ho.
           right. exact E.
        -- rewrite Hs, Ho. left. reflexivity.
      * intros H. apply Hkeep; auto.
      * intros H. rewrite (Hother H). exact Hs.
    + repeat split.
Qed.

Lemma fetchCalls_tried_options data st :
  divisionOptions (el (tryCatch (fetchCalls_body data st) fetchCalls_catch))
  = if firstLoad st
    then parsedOptions (divisionsOf (consolidateData (rowsOfSnapshot data)))
    else divisionOptions (el st).
Proof.
  rewrite fetchCalls_body_eq.
  destruct (prepared_elements data st) as (_ & _ & _ & _ & _ & Ho & _).
  rewrite <- Ho.
  destruct (firstLoad st && fitFails data); cbn [tryCatch].
  - reflexivity.
  - match goal with |- context [render ?s] => set (st2 := s) end.
    destruct (render_frame st2) as (_ & _ & _ & _ & n & v & ->).
    change (divisionOptions (setList n v (el st2)))
      with (divisionOptions (el st2)).
    subst st2. unfold fitted. destruct (firstLoad st); [|reflexivity].
    destruct (fitIncidents data); reflexivity.
Qed.

Lemma step_options st ev :
  divisionOptions (el (step st ev))
  = if firstLoad st
    then match parsedBody ev with
         | Some data =>
             parsedOptions (divisionsOf (consolidateData (rowsOfSnapshot data)))
         | None => divisionOptions (el st)
         end
    else divisionOptions (el st).
Proof.
  assert (Hsame : forall b : bool,
             divisionOptions (el st)
             = if b then divisionOptions (el st) else divisionOptions (el st)).
  { intros []; reflexivity. }
  destruct ev as [|r| |resolved| |d s|arg]; cbn [step parsedBody].
  - apply Hsame.
  - destruct r as [msg|code [data|]]; unfold fetchCalls_settle;
      try apply Hsame.
    change (divisionOptions (el (withEl (setSpinning false) ?s)))
      with (divisionOptions (el s)).
    apply fetchCalls_tried_options.
  - destruct (refreshDisabled (el st)); apply Hsame.
  - destruct resolved; apply Hsame.
  - destruct (timeouts (fx st)); apply Hsame.
  - destruct (render_frame (withEl (setFilterInputs d s) st))
      as (_ & _ & _ & _ & n & v & ->).
    apply Hsame.
  - destruct (focusCall_frame (Val arg) st) as (_ & _ & _ & ->). apply Hsame.
Qed.

Lemma run_options evs st :
  divisionOptions (el (run evs st))
  = if firstLoad st
    then match firstParsed evs with
         | Some data =>
             parsedOptions (divisionsOf (consolidateData (rowsOfSnapshot data)))
         | None => divisionOptions (el st)
         end
    else divisionOptions (el st).
Proof.
  unfold run. revert st. induction evs as [|ev evs IH]; intros st; simpl.
  - destruct (firstLoad st); reflexivity.
  - rewrite IH, step_options.
    destruct (ViewFit.step_fit st ev) as (_ & ->).
    destruct (firstLoad st); simpl; [|reflexivity].
    destruct (parsedBody ev); simpl; reflexivity.
Qed.

(** X17. The options of the division filter are decided once, by the
    first poll of a run whose body parses, whatever the status of its
    response: until then they are those of the page as loaded, and from
    then on they are what the parser builds from the markup written for
    the divisions of that first body, whatever later snapshots bring.
    So when the first answer is an error response with the body [{}],
    the filter offers what the parser builds for no division at all for
    the rest of the run, also after the example has arrived. *)
Theorem division_options_fixed_by_first_sync (page : Elements) (evs : list Event) :
  (firstParsed evs = None ->
   divisionOptions (el (run evs (initialState page))) = divisionOptions page)
  /\ (forall data, firstParsed evs = Some data ->
        forall later : list Event,
          divisionOptions (el (run (evs ++ later) (initialState page)))
          = parsedOptions
              (divisionsOf (consolidateData (rowsOfSnapshot data))))
  /\ (forall later : list Event,
        divisionOptions
          (el (run (Examples.errorFirst ++ later) (initialState page)))
        = parsedOptions []).
Proof.
  split; [|split].
  - intros H. rewrite run_options. simpl. rewrite H. reflexivity.
  - intros data H later. rewrite run_options. simpl.
    rewrite (ViewFit.firstParsed_app _ later _ H). reflexivity.
  - intros later. rewrite run_options. simpl. reflexivity.
Qed.

End Options.

(** In the sample browser the example offers its two divisions, and an
    error response that comes first leaves the filter without them. *)
Example division_options_of_example :
  divisionOptions (el Examples.syncedState) = ["all"; "C"; "D"]
  /\ divisionValue (el Examples.syncedState) = "all"
  /\ divisionOptions (el Examples.afterErrorFirst) = ["all"]
  /\ consolidatedCalls Examples.afterErrorFirst
     = [Examples.incidentA1; Examples.incidentB2].
Proof. vm_compute. repeat split; reflexivity. Qed.

End Divisions.

(* ===================================================================== *)
(** ** User interaction                                                   *)
(* ===================================================================== *)

Module Interaction.
Import ListFacts MapFacts App MarkerFacts AppFacts.

Section Focus.
Context {browser : Browser}.

(** X19. [focusCall] never changes the data, the markers or the page
    elements: all it can do is move the view, open a popup or raise an
    alert. On a number that no incident held carries it does nothing at
    all. *)
Theorem focusCall_only_acts_on_known_numbers (k : text) (st : State) :
  allCallsRaw (focusCall k st) = allCallsRaw st
  /\ consolidatedCalls (focusCall k st) = consolidatedCalls st
  /\ markerLayer (focusCall k st) = markerLayer st
  /\ markersByIncident (focusCall k st) = markersByIncident st
  /\ el (focusCall k st) = el st
  /\ fitBoundsLog (fx (focusCall k st)) = fitBoundsLog (fx st)
  /\ ((forall c : Incident, In c (consolidatedCalls st) -> incidentNumber c <> k) ->
      focusCall k st = st).
Proof.
  unfold focusCall.
  destruct (find _ (consolidatedCalls st)) as [call|] eqn:Hf.
  - assert (Hk : incidentNumber call = k /\ In call (consolidatedCalls st)).
    { apply find_some in Hf as [Hin Hk]. apply text_eqb_eq in Hk. auto. }
    assert (Hno : (forall c : Incident,
                     In c (consolidatedCalls st) -> incidentNumber c <> k) ->
                  False).
    { intros H. destruct Hk as [Hk Hin]. exact (H call Hin Hk). }
    destruct (latAndLon call).
    + destruct (mapGet _ _); repeat split; auto; intros H; destruct (Hno H).
    + repeat split; auto. intros H. destruct (Hno H).
  - repeat split.
Qed.

Lemma latAndLon_hasCoordinates (c : CallRow) :
  latAndLon c = true -> hasCoordinates c = true.
Proof.
  unfold latAndLon, hasCoordinates.
  destruct (lat c); simpl; try discriminate.
  destruct (lon c); simpl; rewrite ?andb_false_r; intros H;
    discriminate H || reflexivity.
Qed.

(** X20. Once the page is rendered, [focusCall] on the number of an
    incident that passes [lat && lon] moves the view to the incident's
    coordinates; when the incident passes the filter it also opens the
    popup of the incident's marker; when the filter hides the incident
    there is no marker to open and the view moves alone. *)
Theorem focusCall_opens_popup_of_visible_incident (st : State) (c : Incident) :
  NoDup (map (fun i : Incident => incidentNumber i) (consolidatedCalls st)) ->
  In c (consolidatedCalls st) ->
  latAndLon c = true ->
  let shown := render st in
  (In c (getFilteredCalls st) ->
   exists m,
     In m (markerLayer shown) /\ popupOf m = c
     /\ focusCall (incidentNumber c) shown
        = withFx (logPopup (markerId m))
                 (withFx (logFlyTo (lat c, lon c)) shown))
  /\ (~ In c (getFilteredCalls st) ->
      focusCall (incidentNumber c) shown
      = withFx (logFlyTo (lat c, lon c)) shown).
Proof.
  intros Hnd Hin Hll shown.
  destruct (render_frame st) as (_ & Hc & _).
  destruct (RunFacts.render_markers st) as (Hl & Ht). fold shown in Hc, Hl, Ht.
  assert (Hvis : NoDup (map (fun i : Incident => incidentNumber i)
                            (getFilteredCalls st)))
    by (apply Reachable.getFilteredCalls_NoDup, Hnd).
  assert (Hfocus : forall s' : State,
             (match mapGet (incidentNumber c) (markersByIncident shown) with
              | Some marker =>
                  withFx (logPopup (markerId marker))
                         (withFx (logFlyTo (lat c, lon c)) shown)
              | None => withFx (logFlyTo (lat c, lon c)) shown
              end) = s' ->
             focusCall (incidentNumber c) shown = s').
  { intros s' <-. unfold focusCall. rewrite Hc.
    rewrite (Classification.find_by_key _ c Hnd Hin), Hll. reflexivity. }
  split.
  - intros Hv.
    destruct (updateMarkers_marker_of (getFilteredCalls st) st c Hvis Hv
                (latAndLon_hasCoordinates c Hll))
      as (m & Hg & Hm & E & _).
    rewrite <- Ht in Hg. rewrite <- Hl in Hm.
    exists m. split; [exact Hm|]. split; [exact E|].
    apply Hfocus. rewrite Hg. reflexivity.
  - intros Hnv. apply Hfocus.
    rewrite (mapGet_notin (incidentNumber c) (markersByIncident shown));
      [reflexivity|].
    rewrite Ht.
    destruct (updateMarkers_closed (getFilteredCalls st) st Hvis)
      as (L & T & _).
    rewrite T, L, keyed_keys. intros Hk.
    apply in_map_iff in Hk as (c' & Ek & Hc').
    apply filter_In in Hc' as [Hc' _].
    assert (Hc'in : In c' (consolidatedCalls st)).
    { unfold getFilteredCalls in Hc'. apply filter_In in Hc'. tauto. }
    assert (c' = c)
      by (apply (Markers.NoDup_map_injective
                   (fun i : Incident => incidentNumber i)
                   (consolidatedCalls st)); auto).
    subst c'. contradiction.
Qed.

End Focus.

Lemma focusCall_opens_popup_of_visible_incident_witness :
  NoDup (map (fun i : Incident => incidentNumber i)
             (consolidatedCalls Examples2.filteredState))
  /\ In Examples.incidentA1 (consolidatedCalls Examples2.filteredState)
  /\ latAndLon Examples.incidentA1 = true
  /\ (~ In Examples.incidentA1
           (getFilteredCalls (browser := Examples.sampleBrowser)
                             Examples2.filteredState) ->
      focusCall (incidentNumber Examples.incidentA1)
                (render (browser := Examples.sampleBrowser)
                        Examples2.filteredState)
      = withFx (logFlyTo (lat Examples.incidentA1, lon Examples.incidentA1))
               (render (browser := Examples.sampleBrowser)
                       Examples2.filteredState)).
Proof.
  assert (H1 : NoDup (map (fun i : Incident => incidentNumber i)
                          (consolidatedCalls Examples2.filteredState))).
  { vm_compute. repeat constructor; simpl; intuition discriminate. }
  assert (H2 : In Examples.incidentA1
                  (consolidatedCalls Examples2.filteredState))
    by (left; reflexivity).
  assert (H3 : latAndLon Examples.incidentA1 = true) by reflexivity.
  split; [exact H1|]. split; [exact H2|]. split; [exact H3|].
  exact (proj2 (focusCall_opens_popup_of_visible_incident
                  (browser := Examples.sampleBrowser)
                  Examples2.filteredState Examples.incidentA1 H1 H2 H3)).
Defined.

Section Controls.
Context {browser : Browser}.

(** X21. A change of the filter controls never fetches and never touches
    the data: the rows, the incidents, the three counters, the status
    line, the division options, the refresh control, the first-load flag
    and the whole effect log (view fits, pending timers, alerts) are as
    before; the controls hold the new values; only the markers and the
    list are rendered again. *)
Theorem filter_change_only_rerenders (st : State) (d s : string) :
  let st' := step st (FilterChange d s) in
  allCallsRaw st' = allCallsRaw st
  /\ consolidatedCalls st' = consolidatedCalls st
  /\ counters (el st') = counters (el st)
  /\ statusLine (el st') = statusLine (el st)
  /\ divisionOptions (el st') = divisionOptions (el st)
  /\ refreshDisabled (el st') = refreshDisabled (el st)
  /\ firstLoad st' = firstLoad st
  /\ fx st' = fx st
  /\ divisionValue (el st') = d
  /\ searchValue (el st') = s
  /\ st' = render (withEl (setFilterInputs d s) st).
Proof.
  intros st'. subst st'. cbn [step].
  destruct (render_frame (withEl (setFilterInputs d s) st))
    as (Ha & Hc & Hf & Hx & n & v & He).
  rewrite Ha, Hc, Hf, Hx, He. repeat split.
Qed.

(** Events that leave the status line alone. *)
Lemma step_keeps_status st ev :
  writesStatus ev = false ->
  statusLine (el (step st ev)) = statusLine (el st).
Proof.
  intros Hev. destruct ev as [|r| |resolved| |d s|arg];
    cbn [step writesStatus] in *; try discriminate.
  - reflexivity.
  - destruct resolved; reflexivity.
  - destruct (timeouts (fx st)); reflexivity.
  - destruct (render_frame (withEl (setFilterInputs d s) st))
      as (_ & _ & _ & _ & n & v & ->).
    reflexivity.
  - destruct (focusCall_frame (Val arg) st) as (_ & _ & _ & ->). reflexivity.
Qed.

(** X22. After a click on the enabled refresh control the status line
    reads "Requesting update..." and keeps reading so until a poll
    settles: neither the settling of the refresh request, failed or not,
    nor a timer, a filter change or a click on the list rewrites it. *)
Theorem refresh_status_stays_until_poll_settles
  (st : State) (evs : list Event) :
  refreshDisabled (el st) = false ->
  forallb (fun ev => negb (writesStatus ev)) evs = true ->
  statusLine (el (run (ClickRefresh :: evs) st)) = "Requesting update...".
Proof.
  intros Hen Hevs.
  change (run (ClickRefresh :: evs) st) with (run evs (step st ClickRefresh)).
  assert (H0 : statusLine (el (step st ClickRefresh)) = "Requesting update...").
  { cbn [step]. rewrite Hen. reflexivity. }
  revert H0. generalize (step st ClickRefresh). unfold run.
  induction evs as [|ev evs IH]; intros s Hs; simpl in *; [exact Hs|].
  apply andb_true_iff in Hevs as [Hev Hrest]. apply negb_true_iff in Hev.
  apply IH; [exact Hrest|]. rewrite step_keeps_status; assumption.
Qed.

End Controls.

Lemma refresh_status_stays_until_poll_settles_witness :
  refreshDisabled (el Examples.syncedState) = false
  /\ forallb (fun ev => negb (writesStatus ev))
             [RefreshSettled false; FilterChange "C" ""] = true
  /\ statusLine
       (el (run (browser := Examples.sampleBrowser)
                [ClickRefresh; RefreshSettled false; FilterChange "C" ""]
                Examples.syncedState))
     = "Requesting update...".
Proof.
  assert (H1 : refreshDisabled (el Examples.syncedState) = false)
    by (vm_compute; reflexivity).
  assert (H2 : forallb (fun ev => negb (writesStatus ev))
                       [RefreshSettled false; FilterChange "C" ""] = true)
    by (vm_compute; reflexivity).
  split; [exact H1|]. split; [exact H2|].
  exact (refresh_status_stays_until_poll_settles
           (browser := Examples.sampleBrowser)
           Examples.syncedState [RefreshSettled false; FilterChange "C" ""]
           H1 H2).
Defined.

End Interaction.

(* ===================================================================== *)
(** ** More on part_000                                                   *)
(* ===================================================================== *)

Module LegacyMore.
Import ListFacts MapFacts LegacyFacts.

Lemma legacyMarkersFrom_snoc n cs c :
  legacyMarkersFrom n (cs ++ [c])
  = legacyMarkersFrom n cs ++ [legacyMarkerFor (n + List.length cs) c].
Proof.
  revert n. induction cs as [|c0 cs IH]; intros n; simpl.
  - rewrite Nat.add_0_r. reflexivity.
  - rewrite IH.
    replace (n + S (List.length cs))%nat with (S n + List.length cs)%nat by lia.
    reflexivity.
Qed.

Lemma legacyMarkersFrom_popupOf n cs :
  map Legacy.popupOf (legacyMarkersFrom n cs) = cs.
Proof.
  revert n. induction cs as [|c cs IH]; intros n; simpl; [reflexivity|].
  rewrite IH. reflexivity.
Qed.

Lemma legacyMarkersFrom_ids n cs :
  map Legacy.markerId (legacyMarkersFrom n cs) = seq n (List.length cs).
Proof.
  revert n. induction cs as [|c cs IH]; intros n; simpl; [reflexivity|].
  rewrite IH. reflexivity.
Qed.

Lemma upsertMarker_mapped st c :
  Legacy.isMapped c = true ->
  Legacy.markerLayer (Legacy.upsertMarker st c)
    = Legacy.markerLayer st ++ [legacyMarkerFor (Legacy.nextLayerId st) c]
  /\ Legacy.markerByIncident (Legacy.upsertMarker st c)
     = mapSet (incidentNumber c) (legacyMarkerFor (Legacy.nextLayerId st) c)
              (Legacy.markerByIncident st)
  /\ Legacy.nextLayerId (Legacy.upsertMarker st c) = S (Legacy.nextLayerId st).
Proof.
  unfold Legacy.isMapped, Legacy.upsertMarker. intros H.
  apply andb_true_iff in H as [-> ->]. simpl. repeat split.
Qed.

(** The loop of [clearAndRenderMarkers] over rows that all have finite
    coordinates, started on an empty layer and table. *)
Lemma fold_upsertMarker_closed cs st :
  Forall (fun c => Legacy.isMapped c = true) cs ->
  Legacy.markerLayer st = [] -> Legacy.markerByIncident st = [] ->
  let st' := fold_left Legacy.upsertMarker cs st in
  Legacy.markerLayer st' = legacyMarkersFrom (Legacy.nextLayerId st) cs
  /\ Legacy.nextLayerId st' = (Legacy.nextLayerId st + List.length cs)%nat
  /\ (forall k,
        mapGet k (Legacy.markerByIncident st')
        = findLast (fun m => text_eqb (incidentNumber (Legacy.popupOf m)) k)
                   (legacyMarkersFrom (Legacy.nextLayerId st) cs)).
Proof.
  intros Hall Hl Ht. induction cs as [|c cs IH] using rev_ind; simpl.
  - rewrite Hl, Ht, Nat.add_0_r. repeat split.
  - apply Forall_app in Hall as [Hcs Hc]. inversion Hc as [|? ? Hm _]; subst.
    destruct (IH Hcs) as (IHl & IHn & IHg).
    rewrite fold_left_app. cbn [fold_left].
    destruct (upsertMarker_mapped (fold_left Legacy.upsertMarker cs st) c Hm)
      as (El & Et & En).
    rewrite El, Et, En, IHl, IHn, legacyMarkersFrom_snoc, length_app.
    split; [reflexivity|]. split; [simpl; lia|].
    intros k. rewrite MarkersMore.mapGet_mapSet, MarkersMore.findLast_snoc, IHg.
    reflexivity.
Qed.

Lemma clearAndRenderMarkers_layer calls st :
  map Legacy.popupOf
      (Legacy.markerLayer (Legacy.clearAndRenderMarkers calls st))
  = filter Legacy.isMapped calls.
Proof.
  unfold Legacy.clearAndRenderMarkers. cbv zeta.
  set (mapped := filter Legacy.isMapped calls).
  assert (Hall : Forall (fun c => Legacy.isMapped c = true) mapped).
  { apply Forall_forall. intros c Hc. apply filter_In in Hc. tauto. }
  destruct (fold_upsertMarker_closed mapped (Legacy.clearMarkers st) Hall
              eq_refl eq_refl) as (Hl & _).
  set (st1 := fold_left Legacy.upsertMarker mapped (Legacy.clearMarkers st)) in *.
  assert (E : map Legacy.popupOf (Legacy.markerLayer st1) = mapped)
    by (rewrite Hl; apply legacyMarkersFrom_popupOf).
  clearbody st1. destruct mapped as [|c cs]; [exact E|].
  destruct (negb (Legacy.lastFitDone st1)); exact E.
Qed.

(** X23. [clearAndRenderMarkers] of part_000 puts one marker on the
    layer for every row with finite coordinates, in order and with fresh
    identities, so an incident reported by several such rows gets as many
    markers; the lookup by incident number gives the marker of the last
    such row; markers of the state before are gone. The view is fitted
    around these rows when it has not been fitted before and there is at
    least one of them, and the flag then records it. *)
Theorem legacy_markers_one_per_finite_row (calls : list CallRow) (st : Legacy.State) :
  let st' := Legacy.clearAndRenderMarkers calls st in
  let mapped := filter Legacy.isMapped calls in
  map Legacy.popupOf (Legacy.markerLayer st') = mapped
  /\ map Legacy.markerId (Legacy.markerLayer st')
     = seq (Legacy.nextLayerId st) (List.length mapped)
  /\ (forall k,
        mapGet k (Legacy.markerByIncident st')
        = findLast (fun m => text_eqb (incidentNumber (Legacy.popupOf m)) k)
                   (Legacy.markerLayer st'))
  /\ Legacy.fitBoundsLog st'
     = Legacy.fitBoundsLog st
       ++ (if negb (Legacy.lastFitDone st) && negb (Nat.eqb (List.length mapped) 0)
           then [map (fun call => (lat call, lon call)) mapped]
           else [])
  /\ Legacy.lastFitDone st'
     = Legacy.lastFitDone st || negb (Nat.eqb (List.length mapped) 0).
Proof.
  intros st' mapped. subst st'. unfold Legacy.clearAndRenderMarkers.
  fold mapped. cbv zeta.
  assert (Hall : Forall (fun c => Legacy.isMapped c = true) mapped).
  { apply Forall_forall. intros c Hc. apply filter_In in Hc. tauto. }
  destruct (fold_upsertMarker_closed mapped (Legacy.clearMarkers st) Hall
              eq_refl eq_refl) as (Hl & Hn & Hg).
  destruct (fold_upsertMarker_frame mapped (Legacy.clearMarkers st))
    as (_ & _ & Hf & Hlog).
  cbn [Legacy.clearMarkers Legacy.nextLayerId Legacy.lastFitDone
       Legacy.fitBoundsLog] in Hl, Hn, Hg, Hf, Hlog.
  set (st1 := fold_left Legacy.upsertMarker mapped (Legacy.clearMarkers st)) in *.
  clearbody st1.
  assert (Hview :
            map Legacy.popupOf (Legacy.markerLayer st1) = mapped
            /\ map Legacy.markerId (Legacy.markerLayer st1)
               = seq (Legacy.nextLayerId st) (List.length mapped)
            /\ (forall k,
                  mapGet k (Legacy.markerByIncident st1)
                  = findLast (fun m => text_eqb
                                         (incidentNumber (Legacy.popupOf m)) k)
                             (Legacy.markerLayer st1))).
  { rewrite Hl. split; [apply legacyMarkersFrom_popupOf|].
    split; [apply legacyMarkersFrom_ids | exact Hg]. }
  destruct Hview as (V1 & V2 & V3).
  destruct mapped as [|c cs] eqn:Em.
  - rewrite Hlog, Hf, andb_false_r, orb_false_r, app_nil_r. auto.
  - rewrite Hf. cbn [List.length Nat.eqb negb]. rewrite andb_true_r, orb_true_r.
    destruct (Legacy.lastFitDone st) eqn:F; cbn [negb].
    + rewrite Hlog, app_nil_r, Hf. auto.
    + cbn [Legacy.fitOnce Legacy.markerLayer Legacy.markerByIncident
           Legacy.fitBoundsLog Legacy.lastFitDone].
      rewrite Hlog. auto.
Qed.

(** X24. The priority class of part_000 is always one of five fixed
    class names: "priority-1" to "priority-4" for exactly these four
    priorities, "priority-0" for anything else, a missing priority
    included. No text of a row can reach the class attribute. *)
Theorem legacy_priority_class_is_one_of_five (p : text) :
  In (Legacy.getPriorityClass p)
     ["priority-0"; "priority-1"; "priority-2"; "priority-3"; "priority-4"]
  /\ (forall s, p = Val s -> In s ["1"; "2"; "3"; "4"] ->
        Legacy.getPriorityClass p = ("priority-" ++ s)%string)
  /\ ((forall s, p = Val s -> ~ In s ["1"; "2"; "3"; "4"]) ->
      Legacy.getPriorityClass p = "priority-0").
Proof.
  unfold Legacy.getPriorityClass. destruct p as [| |s].
  - simpl. split; [auto|]. split; [discriminate | reflexivity].
  - simpl. split; [auto|]. split; [discriminate | reflexivity].
  - destruct (arrayIncludes ["1"; "2"; "3"; "4"] s) eqn:E.
    + assert (Hin : In s ["1"; "2"; "3"; "4"])
        by (apply Divisions.arrayIncludes_In; exact E).
      split; [|split].
      * simpl in Hin. destruct Hin as [<-|[<-|[<-|[<-|[]]]]]; simpl; auto 6.
      * intros s' [= <-] _. reflexivity.
      * intros H. destruct (H s eq_refl Hin).
    + split; [simpl; auto|]. split.
      * intros s' [= <-] Hin. apply Divisions.arrayIncludes_In in Hin.
        congruence.
      * reflexivity.
Qed.

Lemma fold_upsertMarker_keeps cs st :
  let st' := fold_left Legacy.upsertMarker cs st in
  Legacy.allCalls st' = Legacy.allCalls st
  /\ Legacy.totalCallsEl st' = Legacy.totalCallsEl st
  /\ Legacy.mappedCallsEl st' = Legacy.mappedCallsEl st
  /\ Legacy.unmappedCallsEl st' = Legacy.unmappedCallsEl st
  /\ Legacy.statusLine st' = Legacy.statusLine st
  /\ Legacy.divisionOptions st' = Legacy.divisionOptions st
  /\ Legacy.divisionValue st' = Legacy.divisionValue st
  /\ Legacy.callList st' = Legacy.callList st
  /\ Legacy.refreshLabel st' = Legacy.refreshLabel st
  /\ Legacy.unhandledRejections st' = Legacy.unhandledRejections st.
Proof.
  revert st. induction cs as [|c cs IH]; intros st; cbn [fold_left].
  - repeat split.
  - destruct (IH (Legacy.upsertMarker st c))
      as (A & B & C & D & E & F & G & H & I & J).
    cbv zeta. rewrite A, B, C, D, E, F, G, H, I, J.
    unfold Legacy.upsertMarker. destruct (negb _ || negb _); repeat split.
Qed.

Lemma clearAndRenderMarkers_keeps calls st :
  let st' := Legacy.clearAndRenderMarkers calls st in
  Legacy.allCalls st' = Legacy.allCalls st
  /\ Legacy.totalCallsEl st' = Legacy.totalCallsEl st
  /\ Legacy.mappedCallsEl st' = Legacy.mappedCallsEl st
  /\ Legacy.unmappedCallsEl st' = Legacy.unmappedCallsEl st
  /\ Legacy.statusLine st' = Legacy.statusLine st
  /\ Legacy.divisionOptions st' = Legacy.divisionOptions st
  /\ Legacy.divisionValue st' = Legacy.divisionValue st
  /\ Legacy.refreshLabel st' = Legacy.refreshLabel st
  /\ Legacy.unhandledRejections st' = Legacy.unhandledRejections st.
Proof.
  unfold Legacy.clearAndRenderMarkers. cbv zeta.
  destruct (fold_upsertMarker_keeps (filter Legacy.isMapped calls)
                                    (Legacy.clearMarkers st))
    as (A & B & C & D & E & F & G & _ & I & J).
  cbn [Legacy.clearMarkers Legacy.allCalls Legacy.totalCallsEl
       Legacy.mappedCallsEl Legacy.unmappedCallsEl Legacy.statusLine
       Legacy.divisionOptions Legacy.divisionValue Legacy.refreshLabel
       Legacy.unhandledRejections] in A, B, C, D, E, F, G, I, J.
  set (st1 := fold_left Legacy.upsertMarker _ _) in *. clearbody st1.
  destruct (filter Legacy.isMapped calls) as [|c cs].
  - repeat split; assumption.
  - destruct (negb (Legacy.lastFitDone st1)); repeat split; assumption.
Qed.

(** What [render] of part_000 leaves alone, and what it shows. *)
Lemma legacy_render_keeps st :
  let st' := Legacy.render st in
  Legacy.allCalls st' = Legacy.allCalls st
  /\ Legacy.totalCallsEl st' = Legacy.totalCallsEl st
  /\ Legacy.mappedCallsEl st' = Legacy.mappedCallsEl st
  /\ Legacy.unmappedCallsEl st' = Legacy.unmappedCallsEl st
  /\ Legacy.statusLine st' = Legacy.statusLine st
  /\ Legacy.divisionOptions st' = Legacy.divisionOptions st
  /\ Legacy.divisionValue st' = Legacy.divisionValue st
  /\ Legacy.refreshLabel st' = Legacy.refreshLabel st
  /\ Legacy.unhandledRejections st' = Legacy.unhandledRejections st
  /\ Legacy.callList st'
     = match Legacy.getFilteredCalls st with
       | [] => Legacy.NoCalls
       | _ => Legacy.Items (map Legacy.renderItem
                                (firstn 250 (Legacy.getFilteredCalls st)))
       end
  /\ map Legacy.popupOf (Legacy.markerLayer st')
     = filter Legacy.isMapped (Legacy.getFilteredCalls st).
Proof.
  unfold Legacy.render. cbv zeta.
  destruct (clearAndRenderMarkers_keeps (Legacy.getFilteredCalls st) st)
    as (A & B & C & D & E & F & G & I & J).
  pose proof (clearAndRenderMarkers_layer (Legacy.getFilteredCalls st) st)
    as M.
  set (st1 := Legacy.clearAndRenderMarkers _ _) in *. clearbody st1.
  unfold Legacy.renderCallList.
  destruct (Legacy.getFilteredCalls st) eqn:Ef;
    cbn [Legacy.setList Legacy.allCalls Legacy.totalCallsEl
         Legacy.mappedCallsEl Legacy.unmappedCallsEl Legacy.statusLine
         Legacy.divisionOptions Legacy.divisionValue Legacy.refreshLabel
         Legacy.unhandledRejections Legacy.callList Legacy.markerLayer];
    repeat split; assumption.
Qed.

Lemma legacy_arrayIncludes_options ds current :
  In (if arrayIncludes ds current then current else "all") ("all" :: ds).
Proof.
  destruct (arrayIncludes ds current) eqn:E.
  - right. apply Divisions.arrayIncludes_In. exact E.
  - left. reflexivity.
Qed.

(** X25. A pull of part_000 that succeeds (status 200..299, body
    parsed) replaces the rows held by those of the snapshot, offers "all"
    and the sorted distinct divisions of these new rows, keeps a selection
    that is still offered, shows the counters of the backend as they
    come, reports the update in the status line, and renders markers and
    list for the rows of the selected division. *)
Theorem legacy_successful_pull_replaces_and_rerenders
  (code : Z) (data : Snapshot) (st : Legacy.State) :
  responseOk code = true ->
  let st' := Legacy.pullLatest (Http code (Some data)) st in
  let rows := rowsOfSnapshot data in
  Legacy.allCalls st' = rows
  /\ Legacy.divisionOptions st'
     = "all" :: sortStrings (setOfStrings (Legacy.truthyDivisions rows))
  /\ In (Legacy.divisionValue st') (Legacy.divisionOptions st')
  /\ (Legacy.totalCallsEl st', Legacy.mappedCallsEl st',
      Legacy.unmappedCallsEl st')
     = (Legacy.orZero (totalCalls data), Legacy.orZero (mappedCalls data),
        Legacy.orZero (unmappedCalls data))
  /\ (exists err,
        Legacy.statusLine st'
        = Legacy.StatusUpdated (updatedAt data)
            (Legacy.orZero (geocodeAttemptsThisRun data)) err)
  /\ Legacy.callList st'
     = match Legacy.getFilteredCalls st' with
       | [] => Legacy.NoCalls
       | _ => Legacy.Items (map Legacy.renderItem
                                (firstn 250 (Legacy.getFilteredCalls st')))
       end
  /\ map Legacy.popupOf (Legacy.markerLayer st')
     = filter Legacy.isMapped (Legacy.getFilteredCalls st').
Proof.
  intros Hok st' rows. subst st'. unfold Legacy.pullLatest, Legacy.fetchCalls.
  rewrite Hok. cbn [negb]. fold (rowsOfSnapshot data). fold rows. cbv zeta.
  match goal with |- context [Legacy.render ?s] => set (st2 := s) end.
  destruct (legacy_render_keeps st2) as (A & B & C & D & E & F & G & _ & _ & L & M).
  assert (Hf : Legacy.getFilteredCalls (Legacy.render st2)
               = Legacy.getFilteredCalls st2).
  { unfold Legacy.getFilteredCalls. rewrite A, G. reflexivity. }
  rewrite A, B, C, D, E, F, G, L, M, Hf.
  subst st2.
  cbn [Legacy.updateStatus Legacy.syncDivisionFilter Legacy.setAllCalls
       Legacy.allCalls Legacy.divisionOptions Legacy.divisionValue
       Legacy.totalCallsEl Legacy.mappedCallsEl Legacy.unmappedCallsEl
       Legacy.statusLine].
  split; [reflexivity|]. split; [reflexivity|].
  split; [apply legacy_arrayIncludes_options|].
  split; [reflexivity|]. split; [eexists; reflexivity|].
  split; reflexivity.
Qed.

Lemma legacy_successful_pull_replaces_and_rerenders_witness :
  responseOk 200 = true
  /\ Legacy.allCalls
       (Legacy.pullLatest (Http 200 (Some Examples.exampleSnapshot))
                          (legacyInitialState ["all"] "all"))
     = rowsOfSnapshot Examples.exampleSnapshot.
Proof.
  split; [reflexivity|].
  exact (proj1 (legacy_successful_pull_replaces_and_rerenders
                  200 Examples.exampleSnapshot
                  (legacyInitialState ["all"] "all") eq_refl)).
Defined.

Lemma legacy_background_keeps_refresh st ev :
  legacyBackground ev = true ->
  Legacy.refreshDisabled (Legacy.step st ev) = Legacy.refreshDisabled st
  /\ Legacy.refreshPhase (Legacy.step st ev) = Legacy.refreshPhase st
  /\ Legacy.refreshLabel (Legacy.step st ev) = Legacy.refreshLabel st
  /\ Legacy.unhandledRejections (Legacy.step st ev)
     = Legacy.unhandledRejections st.
Proof.
  destruct ev as [r| |resolved| |r|d]; cbn [legacyBackground Legacy.step];
    try discriminate; intros _.
  - destruct (legacy_pullLatest_frame r st) as (A & B & _).
    split; [exact A|]. split; [exact B|].
    unfold Legacy.pullLatest. destruct (Legacy.fetchCalls r) as [why|data].
    + split; reflexivity.
    + match goal with |- context [Legacy.render ?s] => set (st2 := s) end.
      destruct (legacy_render_keeps st2) as (_ & _ & _ & _ & _ & _ & _ & I & J & _).
      rewrite I, J. split; reflexivity.
  - destruct (legacy_render_frame (Legacy.setDivisionValue d st)) as (A & B & _).
    destruct (legacy_render_keeps (Legacy.setDivisionValue d st))
      as (_ & _ & _ & _ & _ & _ & _ & I & J & _).
    rewrite A, B, I, J. repeat split.
Qed.

Lemma legacy_run_background_keeps_refresh evs st :
  forallb legacyBackground evs = true ->
  Legacy.refreshDisabled (Legacy.run evs st) = Legacy.refreshDisabled st
  /\ Legacy.refreshPhase (Legacy.run evs st) = Legacy.refreshPhase st
  /\ Legacy.refreshLabel (Legacy.run evs st) = Legacy.refreshLabel st
  /\ Legacy.unhandledRejections (Legacy.run evs st)
     = Legacy.unhandledRejections st.
Proof.
  unfold Legacy.run. revert st.
  induction evs as [|ev evs IH]; intros st H; simpl in *; [repeat split|].
  apply andb_true_iff in H as [Hev Hevs].
  destruct (IH (Legacy.step st ev) Hevs) as (A & B & C & D).
  destruct (legacy_background_keeps_refresh st ev Hev) as (A' & B' & C' & D').
  rewrite A, B, C, D. auto.
Qed.

(** X26. In part_000 a manual refresh keeps its control disabled from
    the click to the end: while the refresh request is pending, during
    the 350 ms sleep and while the awaited pull is in flight, whatever
    timer-driven pulls and filter changes happen in between. The control
    is enabled again, with its label restored, when the awaited pull has
    settled, whatever its outcome, and also when the refresh request
    itself fails, in which case the failure is left unhandled. *)
Theorem legacy_refresh_disabled_for_whole_sequence
  (st : Legacy.State) (b1 b2 b3 : list Legacy.Event) (r : Response) :
  Legacy.refreshDisabled st = false ->
  forallb legacyBackground (b1 ++ b2 ++ b3) = true ->
  let requesting := Legacy.run (Legacy.ClickRefresh :: b1) st in
  let sleeping := Legacy.run (Legacy.RefreshSettled true :: b2) requesting in
  let pulling := Legacy.run (Legacy.SleepElapsed :: b3) sleeping in
  let done := Legacy.step pulling (Legacy.ManualPullSettled r) in
  let failed := Legacy.step requesting (Legacy.RefreshSettled false) in
  (Legacy.refreshDisabled requesting = true
   /\ Legacy.refreshPhase requesting = Legacy.AwaitingRefresh)
  /\ (Legacy.refreshDisabled sleeping = true
      /\ Legacy.refreshPhase sleeping = Legacy.Sleeping)
  /\ (Legacy.refreshDisabled pulling = true
      /\ Legacy.refreshPhase pulling = Legacy.AwaitingPull)
  /\ (Legacy.refreshDisabled done = false
      /\ Legacy.refreshLabel done = "Refresh Now"
      /\ Legacy.refreshPhase done = Legacy.Idle)
  /\ (Legacy.refreshDisabled failed = false
      /\ Legacy.refreshLabel failed = "Refresh Now"
      /\ Legacy.refreshPhase failed = Legacy.Idle
      /\ Legacy.unhandledRejections failed
         = S (Legacy.unhandledRejections st)).
Proof.
  intros Hen Hb requesting sleeping pulling done failed.
  rewrite !forallb_app, !andb_true_iff in Hb. destruct Hb as (H1 & H2 & H3).
  assert (R : Legacy.refreshDisabled requesting = true
              /\ Legacy.refreshPhase requesting = Legacy.AwaitingRefresh
              /\ Legacy.unhandledRejections requesting
                 = Legacy.unhandledRejections st).
  { subst requesting.
    change (Legacy.run (Legacy.ClickRefresh :: b1) st)
      with (Legacy.run b1 (Legacy.step st Legacy.ClickRefresh)).
    destruct (legacy_run_background_keeps_refresh b1
                (Legacy.step st Legacy.ClickRefresh) H1) as (A & B & _ & D).
    rewrite A, B, D. cbn [Legacy.step]. rewrite Hen. repeat split. }
  destruct R as (R1 & R2 & R3).
  assert (S1 : Legacy.refreshDisabled sleeping = true
               /\ Legacy.refreshPhase sleeping = Legacy.Sleeping).
  { subst sleeping.
    change (Legacy.run (Legacy.RefreshSettled true :: b2) requesting)
      with (Legacy.run b2 (Legacy.step requesting (Legacy.RefreshSettled true))).
    destruct (legacy_run_background_keeps_refresh b2
                (Legacy.step requesting (Legacy.RefreshSettled true)) H2)
      as (A & B & _).
    rewrite A, B. cbn [Legacy.step]. rewrite R2. split; [exact R1 | reflexivity]. }
  destruct S1 as (S1 & S2).
  assert (P : Legacy.refreshDisabled pulling = true
              /\ Legacy.refreshPhase pulling = Legacy.AwaitingPull).
  { subst pulling.
    change (Legacy.run (Legacy.SleepElapsed :: b3) sleeping)
      with (Legacy.run b3 (Legacy.step sleeping Legacy.SleepElapsed)).
    destruct (legacy_run_background_keeps_refresh b3
                (Legacy.step sleeping Legacy.SleepElapsed) H3) as (A & B & _).
    rewrite A, B. cbn [Legacy.step]. rewrite S2. split; [exact S1 | reflexivity]. }
  destruct P as (P1 & P2).
  split; [auto|]. split; [auto|]. split; [auto|]. split.
  - subst done. cbn [Legacy.step]. rewrite P2. repeat split.
  - subst failed. cbn [Legacy.step]. rewrite R2.
    cbn [Legacy.logUnhandled Legacy.triggerServerRefresh_finally
         Legacy.setRefresh Legacy.refreshDisabled Legacy.refreshLabel
         Legacy.refreshPhase Legacy.unhandledRejections].
    rewrite R3. repeat split.
Qed.

Lemma legacy_refresh_disabled_for_whole_sequence_witness :
  Legacy.refreshDisabled Examples2.legacySyncedState = false
  /\ forallb legacyBackground
             ([Legacy.FilterChange "C"] ++ [] ++ [Legacy.FilterChange "all"])
     = true
  /\ Legacy.refreshDisabled
       (Legacy.run (Legacy.SleepElapsed :: [Legacy.FilterChange "all"])
          (Legacy.run (Legacy.RefreshSettled true :: [])
             (Legacy.run (Legacy.ClickRefresh :: [Legacy.FilterChange "C"])
                         Examples2.legacySyncedState)))
     = true.
Proof.
  assert (H1 : Legacy.refreshDisabled Examples2.legacySyncedState = false)
    by (vm_compute; reflexivity).
  assert (H2 : forallb legacyBackground
                 ([Legacy.FilterChange "C"] ++ [] ++ [Legacy.FilterChange "all"])
               = true) by (vm_compute; reflexivity).
  split; [exact H1|]. split; [exact H2|].
  destruct (legacy_refresh_disabled_for_whole_sequence
              Examples2.legacySyncedState
              [Legacy.FilterChange "C"] [] [Legacy.FilterChange "all"]
              (NetworkError "offline") H1 H2) as (_ & _ & (P & _) & _).
  exact P.
Defined.

(** X27. Over any run of part_000 from page load the view is fitted at
    most once, and the flag [lastFitDone] is set exactly when that fit
    has happened. *)
Theorem legacy_view_fitted_at_most_once
  (divisions : list string) (selected : string) (evs : list Legacy.Event) :
  let st := Legacy.run evs (legacyInitialState divisions selected) in
  (List.length (Legacy.fitBoundsLog st) <= 1)%nat
  /\ (Legacy.lastFitDone st = true <-> List.length (Legacy.fitBoundsLog st) = 1%nat)
  /\ (Legacy.lastFitDone st = false <-> Legacy.fitBoundsLog st = []).
Proof.
  intros st.
  assert (H : legacyFitInvariant st).
  { subst st. unfold Legacy.run.
    generalize (legacyInitialState divisions selected),
               (eq_refl : legacyFitInvariant
                            (legacyInitialState divisions selected)).
    induction evs as [|ev evs IH]; intros s Hs; simpl; auto.
    apply IH, legacy_step_fit_invariant, Hs. }
  unfold legacyFitInvariant in H.
  destruct (Legacy.lastFitDone st).
  - split; [lia|]. split; [tauto|]. split; [discriminate|].
    intros E. rewrite E in H. discriminate H.
  - rewrite H. simpl. split; [lia|]. split; [|tauto].
    split; discriminate.
Qed.

End LegacyMore.
